(** * The debugger control core of [proc/proc.go], embedded in Rocq

    The [Process] type of [proc.go] drives a traced program: it owns the
    breakpoint table, the thread table, the current thread and the selected
    goroutine, and it orchestrates [Continue], [Next] and [Step].

    The embedding is shallow.  Every method of [*Process] that is written in
    [proc.go] is a Rocq function over an explicit [Process] record; methods
    that mutate the process or can fail live in the monad [M] below.  Code the
    file calls but does not contain (thread stepping, ptrace, the symbol
    tables, the DWARF reader, the goroutine parser) is gathered in the class
    [Platform], whose members the theorems quantify over.

    Conventions of the model:
    - [uint64] and [int] are [Z] with the wrap-around written out;
    - a Go map is a [gmap]; the order of [range] over a map is a member of
      [Platform], any order that lists every key once;
    - a [*Thread] is the key of the thread in the thread table, a
      [*Breakpoint] is the breakpoint value (nothing writes to a breakpoint
      between the moment a thread is latched on it and the moment the latch
      is read);
    - a slice that the code tests against [nil] is an [option (list _)];
    - the loops without a bound ([Continue], the line search of
      [FindFunctionLocation]) take fuel.

    [getGoInformation] touches no field of the process: it is a function of
    what [EvalPackageVariable] and the DWARF reader return, over a class of
    its own, [VersionTools].

    Left out: the start-up of a session ([New], [initializeDebugProcess],
    [LoadInformation]), the ptrace serializer ([handlePtraceFuncs],
    [execPtraceFunc]: two goroutines and two channels), and the accessors
    that only hand a collaborator's answer on ([Status], [Registers],
    [Sources], [Funcs], [PCToLine], [DwarfReader]). *)

From stdpp Require Import gmap strings list fin_maps.
From Stdlib Require Import ZArith Lia Ascii.
From Stdlib.Strings Require Import Byte.

Open Scope Z_scope.

(** ** Machine integers *)

(** [uint64] arithmetic wraps modulo 2^64. *)
Definition wrap64 (z : Z) : Z := z mod 2 ^ 64.

(** [int] is 64 bits wide on amd64, the one architecture [proc.go] selects. *)
Definition wrap_int (z : Z) : Z := (z + 2 ^ 63) mod 2 ^ 64 - 2 ^ 63.

(** [binary.LittleEndian.Uint64]: the first eight bytes, least significant
    first.  Go indexes [b[7]] before anything else, so a slice shorter than
    eight bytes panics; [None] stands for that panic. *)
Definition byteZ (b : byte) : Z := Z.of_N (Byte.to_N b).

Definition Uint64 (b : list byte) : option Z :=
  match b with
  | b0 :: b1 :: b2 :: b3 :: b4 :: b5 :: b6 :: b7 :: _ =>
      Some (Z.lor (byteZ b0)
           (Z.lor (Z.shiftl (byteZ b1) 8)
           (Z.lor (Z.shiftl (byteZ b2) 16)
           (Z.lor (Z.shiftl (byteZ b3) 24)
           (Z.lor (Z.shiftl (byteZ b4) 32)
           (Z.lor (Z.shiftl (byteZ b5) 40)
           (Z.lor (Z.shiftl (byteZ b6) 48)
                  (Z.shiftl (byteZ b7) 56))))))))
  | _ => None
  end.

(** ** Strings: the two library calls of [FindFunctionLocation] *)

(** [strings.Contains s substr]. *)
Fixpoint Contains (s substr : string) : bool :=
  String.prefix substr s ||
  match s with
  | EmptyString => false
  | String _ s' => Contains s' substr
  end.

(** [filepath.Ext] scans from the end of the path and stops at the first dot
    (the extension starts there) or the first separator (no extension).
    [ext_scan] is that scan read from the left: [None] while neither a dot nor
    a separator has been met further right. *)
Fixpoint ext_scan (path : string) : option string :=
  match path with
  | EmptyString => None
  | String c rest =>
      match ext_scan rest with
      | Some e => Some e
      | None =>
          if Ascii.eqb c "."%char then Some path
          else if Ascii.eqb c "/"%char then Some EmptyString
          else None
      end
  end.

Definition Ext (path : string) : string := default EmptyString (ext_scan path).

(** ** Errors *)

Inductive fmt_arg := ArgInt (n : Z) | ArgStr (s : string).

(** The error values [proc.go] builds or inspects.  [Errorf] keeps the format
    string and its arguments apart; [OtherError] is any error a collaborator
    reports that the file never looks into. *)
Inductive error :=
| NoBreakpointError (addr : Z)
| BreakpointExistsError (addr : Z)
| ThreadBlockedError
| NoReturnAddr
| GoroutineExitingError (goid : Z)
| NullAddrError
| ProcessExitedError (pid status : Z)
| Errorf (format : string) (args : list fmt_arg)
| OtherError (code : Z).

(** A Go [(T, error)] return that follows the convention "value or error". *)
Inductive result (A : Type) :=
| Ok (a : A)
| Err (e : error).
Arguments Ok {A} a.
Arguments Err {A} e.

(** ** Data *)

Record Func := { Name : string; Entry : Z }.

Record Location := { PC : Z; File : string; Line : Z; Fn : option Func }.

(** Modelled from the spec: the struct [Breakpoint] is declared in another
    file (section 3: address, original bytes, id, temp flag, optional
    condition, a goroutine id).  [proc.go] reads [Addr], [ID] and [Temp], and
    [Next] writes [Cond]. *)
Record Breakpoint := {
  Addr : Z;
  OriginalData : list byte;
  ID : Z;
  Temp : bool;
  Cond : option Z
}.

Definition set_Cond (c : option Z) (bp : Breakpoint) : Breakpoint :=
  {| Addr := Addr bp; OriginalData := OriginalData bp; ID := ID bp;
     Temp := Temp bp; Cond := c |}.

(** Modelled from the spec: the struct [Thread] is declared in another file
    (section 3: os-thread-id, running flag, CurrentBreakpoint latch,
    BreakpointConditionMet flag).  A [*Thread] is modelled by its key in the
    thread table, which is the thread's [Id]: the table is keyed by
    os-thread-id and [proc.go] never writes [Id]. *)
Record Thread := {
  running : bool;
  CurrentBreakpoint : option Breakpoint;
  BreakpointConditionMet : bool
}.

Definition set_CurrentBreakpoint (b : option Breakpoint) (th : Thread) : Thread :=
  {| running := running th; CurrentBreakpoint := b;
     BreakpointConditionMet := BreakpointConditionMet th |}.

Definition set_BreakpointConditionMet (c : bool) (th : Thread) : Thread :=
  {| running := running th; CurrentBreakpoint := CurrentBreakpoint th;
     BreakpointConditionMet := c |}.

(** Modelled from the spec: the struct [G] is declared in another file
    (section 3: id, status, current location, optional backing thread);
    [thread] is the [*Thread] it borrows. *)
Record G := {
  Id : Z;
  Status : Z;
  thread : option Z;
  CurrentLoc : Location
}.

Definition attach_thread (tid : Z) (loc : Location) (g : G) : G :=
  {| Id := Id g; Status := Status g; thread := Some tid; CurrentLoc := loc |}.

Record EvalScope := { ScopeThread : Z; ScopePC : Z; ScopeCFA : Z }.

Record Stackframe := { FramePC : Z; FrameCFA : Z }.

Section Model.

(** The tracee and the kernel's view of it: memory, registers, pending wait
    events.  [proc.go] never looks inside. *)
Context {W : Type}.

(** [Process].  [allGCache] is a Go slice, and [GoroutinesInfo] tests it
    against [nil]: [None] is the nil slice, [Some l] a non-nil slice.  The
    channels of the ptrace serializer are left out. *)
Record Process := {
  Pid : Z;
  Breakpoints : gmap Z Breakpoint;
  Threads : gmap Z Thread;
  CurrentThread : Z;
  SelectedGoroutine : option G;
  allGCache : option (list G);
  breakpointIDCounter : Z;
  tempBreakpointIDCounter : Z;
  halt : bool;
  exited : bool;
  tracee : W
}.

Definition set_Breakpoints (b : gmap Z Breakpoint) (p : Process) : Process :=
  {| Pid := Pid p; Breakpoints := b; Threads := Threads p;
     CurrentThread := CurrentThread p; SelectedGoroutine := SelectedGoroutine p;
     allGCache := allGCache p; breakpointIDCounter := breakpointIDCounter p;
     tempBreakpointIDCounter := tempBreakpointIDCounter p;
     halt := halt p; exited := exited p; tracee := tracee p |}.

Definition set_Threads (t : gmap Z Thread) (p : Process) : Process :=
  {| Pid := Pid p; Breakpoints := Breakpoints p; Threads := t;
     CurrentThread := CurrentThread p; SelectedGoroutine := SelectedGoroutine p;
     allGCache := allGCache p; breakpointIDCounter := breakpointIDCounter p;
     tempBreakpointIDCounter := tempBreakpointIDCounter p;
     halt := halt p; exited := exited p; tracee := tracee p |}.

Definition set_CurrentThread (t : Z) (p : Process) : Process :=
  {| Pid := Pid p; Breakpoints := Breakpoints p; Threads := Threads p;
     CurrentThread := t; SelectedGoroutine := SelectedGoroutine p;
     allGCache := allGCache p; breakpointIDCounter := breakpointIDCounter p;
     tempBreakpointIDCounter := tempBreakpointIDCounter p;
     halt := halt p; exited := exited p; tracee := tracee p |}.

Definition set_SelectedGoroutine (g : option G) (p : Process) : Process :=
  {| Pid := Pid p; Breakpoints := Breakpoints p; Threads := Threads p;
     CurrentThread := CurrentThread p; SelectedGoroutine := g;
     allGCache := allGCache p; breakpointIDCounter := breakpointIDCounter p;
     tempBreakpointIDCounter := tempBreakpointIDCounter p;
     halt := halt p; exited := exited p; tracee := tracee p |}.

Definition set_allGCache (c : option (list G)) (p : Process) : Process :=
  {| Pid := Pid p; Breakpoints := Breakpoints p; Threads := Threads p;
     CurrentThread := CurrentThread p; SelectedGoroutine := SelectedGoroutine p;
     allGCache := c; breakpointIDCounter := breakpointIDCounter p;
     tempBreakpointIDCounter := tempBreakpointIDCounter p;
     halt := halt p; exited := exited p; tracee := tracee p |}.

Definition set_halt (h : bool) (p : Process) : Process :=
  {| Pid := Pid p; Breakpoints := Breakpoints p; Threads := Threads p;
     CurrentThread := CurrentThread p; SelectedGoroutine := SelectedGoroutine p;
     allGCache := allGCache p; breakpointIDCounter := breakpointIDCounter p;
     tempBreakpointIDCounter := tempBreakpointIDCounter p;
     halt := h; exited := exited p; tracee := tracee p |}.

Definition set_exited (e : bool) (p : Process) : Process :=
  {| Pid := Pid p; Breakpoints := Breakpoints p; Threads := Threads p;
     CurrentThread := CurrentThread p; SelectedGoroutine := SelectedGoroutine p;
     allGCache := allGCache p; breakpointIDCounter := breakpointIDCounter p;
     tempBreakpointIDCounter := tempBreakpointIDCounter p;
     halt := halt p; exited := e; tracee := tracee p |}.

Definition set_tracee (w : W) (p : Process) : Process :=
  {| Pid := Pid p; Breakpoints := Breakpoints p; Threads := Threads p;
     CurrentThread := CurrentThread p; SelectedGoroutine := SelectedGoroutine p;
     allGCache := allGCache p; breakpointIDCounter := breakpointIDCounter p;
     tempBreakpointIDCounter := tempBreakpointIDCounter p;
     halt := halt p; exited := exited p; tracee := w |}.

(** ** The monad of [*Process] methods

    A call either comes back with its Go result and the process as the call
    left it (an error return does not undo what was done before it), or
    panics, or is still looping when the fuel of the model runs out. *)
Inductive outcome (A : Type) :=
| Done (r : result A) (p : Process)
| Panic
| OutOfFuel.
Arguments Done {A} r p.
Arguments Panic {A}.
Arguments OutOfFuel {A}.

Definition M (A : Type) : Type := Process -> outcome A.

Definition ret {A} (a : A) : M A := fun p => Done (Ok a) p.

Definition raise {A} (e : error) : M A := fun p => Done (Err e) p.

Definition panic {A} : M A := fun _ => Panic.

Definition bind {A B} (m : M A) (k : A -> M B) : M B :=
  fun p =>
    match m p with
    | Done (Ok a) p' => k a p'
    | Done (Err e) p' => Done (Err e) p'
    | Panic => Panic
    | OutOfFuel => OutOfFuel
    end.

(** [attempt m] hands the error of [m] to the caller instead of returning it:
    [x, err := m()] followed by code that inspects or drops [err]. *)
Definition attempt {A} (m : M A) : M (result A) :=
  fun p =>
    match m p with
    | Done r p' => Done (Ok r) p'
    | Panic => Panic
    | OutOfFuel => OutOfFuel
    end.

Definition get : M Process := fun p => Done (Ok p) p.

Definition modify (f : Process -> Process) : M unit := fun p => Done (Ok tt) (f p).

(** A collaborator that only reads the tracee. *)
Definition reads {A} (f : W -> result A) : M A := fun p => Done (f (tracee p)) p.

(** A collaborator that acts on the tracee and may fail. *)
Definition acts (f : W -> option error * W) : M unit :=
  fun p =>
    let '(e, w) := f (tracee p) in
    match e with
    | None => Done (Ok tt) (set_tracee w p)
    | Some err => Done (Err err) (set_tracee w p)
    end.

(** [m] returns with the halt flag as it found it. *)
Definition keeps_halt {A} (m : M A) : Prop :=
  forall p r p', m p = Done r p' -> halt p' = halt p.

(** The process a call returns with, if it returns. *)
Definition state_after {A} (m : M A) (p : Process) : option Process :=
  match m p with
  | Done _ p' => Some p'
  | _ => None
  end.

End Model.

Arguments Process W : clear implicits.
Arguments outcome W A : clear implicits.
Arguments M W A : clear implicits.
Arguments Done {W A} r p.
Arguments Panic {W A}.
Arguments OutOfFuel {W A}.

Global Instance M_ret {W} : MRet (M W) := fun A => @ret W A.
Global Instance M_bind {W} : MBind (M W) := fun A B k m => @bind W A B m k.

(** ** What [proc.go] consumes but does not define

    The members are named after the Go functions they stand for.  A member
    typed over [W] alone cannot touch the tables of the process; a member in
    [M] is a method with access to the whole [Process] (platform code of the
    package, or a thread method reaching back through [thread.dbp]). *)
Class Platform (W : Type) := {
  (** [Arch] and the runtime's status constant. *)
  BreakpointSize : Z;
  PtrSize : Z;
  Gdead : Z;
  (** Go leaves the order of [for ... range m] unspecified: any order that
      lists every key once. *)
  range_keys : forall {A : Type}, gmap Z A -> list Z;
  range_keys_perm :
    forall (A : Type) (m : gmap Z A), Permutation (range_keys m) (map_to_list m).*1;
  (** [gosym.Table]. *)
  LookupFunc : string -> option Func;
  PCToLine : Z -> string * Z * option Func;
  LineToPC : string -> Z -> Z * option Func * option error;
  PCToFunc : Z -> option Func;
  (** [reader.Reader.AddrFor], from a reader position to the position the
      search leaves the reader at. *)
  AddrFor : Z -> string -> result Z * Z;
  (** [Breakpoint.Clear(thread)]. *)
  Breakpoint_Clear : Breakpoint -> Z -> W -> option error * W;
  (** Thread and goroutine accessors. *)
  GetG : Z -> W -> result G;
  Thread_Location : Z -> W -> result Location;
  Thread_PC : Z -> W -> result Z;
  blocked : Z -> W -> bool;
  readMemory : Z -> Z -> Z -> W -> list byte * option error;
  parseG : Z -> Z -> bool -> W -> result G;
  ChanRecvBlocked : G -> bool;
  chanRecvReturnAddr : G -> W -> result Z;
  (** Thread methods that act. *)
  Thread_Step : Z -> M W unit;
  Thread_resume : Z -> M W unit;
  Thread_Halt : Z -> M W unit;
  SetCurrentBreakpoint : Z -> M W unit;
  setNextBreakpoints : Z -> M W unit;
  Thread_Scope : Z -> M W EvalScope;
  (** Methods of [*Process] defined in other files of the package. *)
  setBreakpoint : Z -> Z -> bool -> M W Breakpoint;
  requestManualStop : M W unit;
  trapWait : Z -> M W Z;
  setExtraBreakpoints : M W unit;
  exitGuard : error -> M W unit;
  GoroutineStacktrace : G -> Z -> M W (list Stackframe);
  (** [PtraceDetach(pid, 0)] and [sys.Kill(pid, SIGINT)]. *)
  PtraceDetach : Z -> W -> option error * W;
  Kill : Z -> W -> option error * W
}.

Section Core.

Context {W : Type} {pf : Platform W}.

Local Abbreviation Process := (Process W).
Local Abbreviation M := (M W).

(** ** Loops over a table

    [for k, v := range tbl] visits the keys the table had when the loop
    started; an entry deleted before its turn is not produced.  The body
    answers [Some r] to return [r] from the enclosing function, [None] to go
    on with the next entry. *)
Fixpoint for_keys {A R : Type} (tbl : Process -> gmap Z A) (ks : list Z)
    (body : Z -> A -> M (option R)) : M (option R) :=
  match ks with
  | [] => mret None
  | k :: ks' =>
      p ← get;
      match tbl p !! k with
      | None => for_keys tbl ks' body
      | Some a =>
          r ← body k a;
          match r with
          | Some x => mret (Some x)
          | None => for_keys tbl ks' body
          end
      end
  end.

Definition range {A R : Type} (tbl : Process -> gmap Z A)
    (body : Z -> A -> M (option R)) : M (option R) :=
  p ← get; for_keys tbl (range_keys (tbl p)) body.

(** Reading a field through a [*Thread]: the pointer is the key of the thread
    in the table, and a thread that is not there is treated as a nil
    pointer. *)
Definition deref (tid : Z) : M Thread :=
  fun p =>
    match Threads p !! tid with
    | Some th => Done (Ok th) p
    | None => Panic
    end.

Definition update_thread (tid : Z) (f : Thread -> Thread) : M unit :=
  modify (fun p => set_Threads (alter f tid (Threads p)) p).

(** ** Thread predicates

    Modelled from the spec: [Thread.onTriggeredBreakpoint] and
    [Thread.onTriggeredTempBreakpoint] are methods of another file (section
    4.3: "CurrentBreakpoint non-null and BreakpointConditionMet", "triggered
    and the breakpoint's temp flag is set"). *)
Definition onTriggeredBreakpoint (th : Thread) : bool :=
  match CurrentBreakpoint th with
  | Some _ => BreakpointConditionMet th
  | None => false
  end.

Definition onTriggeredTempBreakpoint (th : Thread) : bool :=
  match CurrentBreakpoint th with
  | Some bp => BreakpointConditionMet th && Temp bp
  | None => false
  end.

(** Modelled from the spec: [Breakpoint.checkCondition] is a method of another
    file (section 4.2: "if condition is unset, returns true; otherwise returns
    thread.tasklet().id == condition"); a thread whose goroutine cannot be
    read does not meet a condition. *)
Definition checkCondition (bp : Breakpoint) (tid : Z) (w : W) : bool :=
  match Cond bp with
  | None => true
  | Some c =>
      match GetG tid w with
      | Ok g => Id g =? c
      | Err _ => false
      end
  end.

(** ** Breakpoints *)

(** [Process.FindBreakpoint]. *)
Definition FindBreakpoint (p : Process) (pc : Z) : option Breakpoint :=
  match Breakpoints p !! wrap64 (pc - wrap64 BreakpointSize) with
  | Some bp => Some bp
  | None => Breakpoints p !! pc
  end.

(** [Process.FindBreakpointByID]. *)
Definition FindBreakpointByID (p : Process) (id : Z) : option Breakpoint :=
  snd <$> list_find (fun bp : Breakpoint => ID bp = id)
            (omap (fun k => Breakpoints p !! k) (range_keys (Breakpoints p))).

(** [Process.SetBreakpoint] and [Process.SetTempBreakpoint]. *)
Definition SetBreakpoint (addr : Z) : M Breakpoint :=
  p ← get; setBreakpoint (CurrentThread p) addr false.

Definition SetTempBreakpoint (addr : Z) : M Breakpoint :=
  p ← get; setBreakpoint (CurrentThread p) addr true.

(** [Process.ClearBreakpoint]. *)
Definition ClearBreakpoint (addr : Z) : M Breakpoint :=
  p ← get;
  match FindBreakpoint p addr with
  | None => raise (NoBreakpointError addr)
  | Some bp =>
      acts (Breakpoint_Clear bp (CurrentThread p));;
      modify (fun p => set_Breakpoints (delete addr (Breakpoints p)) p);;
      mret bp
  end.

(** The two loop bodies of [clearTempBreakpoints]. *)
Definition clear_if_temp (_ : Z) (bp : Breakpoint) : M (option unit) :=
  if negb (Temp bp) then mret None
  else ClearBreakpoint (Addr bp);; mret None.

Definition unlatch_temp (th : Thread) : Thread :=
  match CurrentBreakpoint th with
  | Some bp => if Temp bp then set_CurrentBreakpoint None th else th
  | None => th
  end.

(** [Process.clearTempBreakpoints]. *)
Definition clearTempBreakpoints : M unit :=
  range Breakpoints clear_if_temp;;
  modify (fun p => set_Threads (unlatch_temp <$> Threads p) p).

(** ** Threads and goroutines *)

(** [Process.Running]. *)
Definition Running (p : Process) : bool :=
  existsb (fun k => match Threads p !! k with
                    | Some th => running th
                    | None => false
                    end)
          (range_keys (Threads p)).

(** [Process.Halt]. *)
Definition Halt : M unit :=
  range (R := unit) Threads (fun k _ => Thread_Halt k;; mret None);;
  mret tt.

(** [Process.SwitchThread]. *)
Definition SwitchThread (tid : Z) : M unit :=
  p ← get;
  match Threads p !! tid with
  | Some _ =>
      modify (set_CurrentThread tid);;
      g ← attempt (reads (GetG tid));
      modify (set_SelectedGoroutine
                (match g with Ok g => Some g | Err _ => None end))
  | None => raise (Errorf "thread %d does not exist" [ArgInt tid])
  end.

(** The [threadg] map of [GoroutinesInfo]: goroutine id to the thread that
    runs it, over the threads that are not blocked. *)
Definition threadg_of (p : Process) : gmap Z Z :=
  foldl (fun (acc : gmap Z Z) (i : Z) =>
           if blocked i (tracee p) then acc
           else match GetG i (tracee p) with
                | Ok g => <[Id g := i]> acc
                | Err _ => acc
                end)
        ∅ (range_keys (Threads p)).

(** Go's [append] on a slice that may be nil. *)
Definition append_G (allg : option (list G)) (g : G) : option (list G) :=
  match allg with
  | None => Some [g]
  | Some l => Some (l ++ [g])
  end.

(** The loop [for i := uint64(0); i < allglen; i++] of [GoroutinesInfo], with
    [n] iterations left. *)
Fixpoint allg_loop (n : nat) (i : Z) (cur allgptr : Z) (threadg : gmap Z Z)
    (w : W) (allg : option (list G)) : result (option (list G)) :=
  match n with
  | O => Ok allg
  | S n' =>
      match parseG cur (wrap64 (allgptr + wrap64 (i * wrap64 PtrSize))) true w with
      | Err e => Err e
      | Ok g =>
          let next g' :=
            allg_loop n' (i + 1) cur allgptr threadg w
              (if Status g' =? Gdead then allg else append_G allg g') in
          match threadg !! Id g with
          | Some tid =>
              match Thread_Location tid w with
              | Err e => Err e
              | Ok loc => next (attach_thread tid loc g)
              end
          | None => next g
          end
      end
  end.

(** A panic of the Go runtime inside a method. *)
Definition or_panic {A} (o : option A) : M A :=
  match o with
  | Some a => mret a
  | None => panic
  end.

(** A Go result handed on as it is. *)
Definition of_result {A} (r : result A) : M A := fun p => Done r p.

(** A computation that reads the process and the tracee and changes neither;
    [None] is a panic of the Go runtime. *)
Definition inspect {A} (f : Process -> option (result A)) : M A :=
  fun p =>
    match f p with
    | Some r => Done r p
    | None => Panic
    end.

(** The count of goroutines: the eight bytes at [runtime.allglen]. *)
Definition allglen_of (p : Process) : option (result Z) :=
  match fst (AddrFor 0 "runtime.allglen") with
  | Err e => Some (Err e)
  | Ok addr =>
      let '(allglenBytes, err) := readMemory (CurrentThread p) addr 8 (tracee p) in
      match err with
      | Some e => Some (Err e)
      | None => Ok <$> Uint64 allglenBytes
      end
  end.

(** The address of the goroutine array: [runtime.allgs] after [rdr.Seek(0)],
    or [runtime.allg] (the name before Go 1.6), searched from where the
    first search left the reader. *)
Definition allgs_entry : result Z :=
  let '(allgs, pos) := AddrFor 0 "runtime.allgs" in
  match allgs with
  | Ok a => Ok a
  | Err _ => fst (AddrFor pos "runtime.allg")
  end.

(** The pointer stored there.  The error [readMemory] returns is assigned to
    [err] and never looked at; the bytes go to [Uint64] as they come. *)
Definition allgptr_of (p : Process) : option (result Z) :=
  match allgs_entry with
  | Err e => Some (Err e)
  | Ok allgentryaddr =>
      let '(faddr, _) :=
        readMemory (CurrentThread p) allgentryaddr PtrSize (tracee p) in
      Ok <$> Uint64 faddr
  end.

(** [Process.GoroutinesInfo]. *)
Definition GoroutinesInfo : M (option (list G)) :=
  p ← get;
  match allGCache p with
  | Some cache => mret (Some cache)
  | None =>
      let threadg := threadg_of p in
      allglen ← inspect allglen_of;
      allgptr ← inspect allgptr_of;
      allg ← of_result (allg_loop (Z.to_nat allglen) 0 (CurrentThread p) allgptr
                          threadg (tracee p) None);
      modify (set_allGCache allg);;
      mret allg
  end.

(** The cache holds what an enumeration stored: no dead goroutine. *)
Definition cache_live (p : Process) : Prop :=
  forall l g, allGCache p = Some l -> g ∈ l -> Status g <> Gdead.

(** [Process.FindGoroutine]. *)
Definition FindGoroutine (gid : Z) : M (option G) :=
  if gid =? -1 then p ← get; mret (SelectedGoroutine p)
  else
    gs ← GoroutinesInfo;
    match List.find (fun g => Id g =? gid) (default [] gs) with
    | Some g => mret (Some g)
    | None => raise (Errorf "Unknown goroutine %d" [ArgInt gid])
    end.

(** [Process.SwitchGoroutine]. *)
Definition SwitchGoroutine (gid : Z) : M unit :=
  g ← FindGoroutine gid;
  match g with
  | None => mret tt
  | Some g =>
      match thread g with
      | Some tid => SwitchThread tid
      | None => modify (set_SelectedGoroutine (Some g))
      end
  end.

(** ** Locations *)

(** [Process.FindFileLocation]. *)
Definition FindFileLocation (fileName : string) (lineno : Z) : result Z :=
  let '(pc, _, err) := LineToPC fileName lineno in
  match err with
  | Some e => Err e
  | None => Ok pc
  end.

(** The [for] loop of [FindFunctionLocation]: [lineno++], resolve the line,
    skip it when it has no function or a function whose name only contains
    [funcName], return its pc when the names are equal, [break] (and return
    the entry) on any other function.  The loop has no bound of its own. *)
Fixpoint first_line_loop (fuel : nat) (filename funcName : string)
    (lineno entry : Z) : option Z :=
  match fuel with
  | O => None
  | S fuel' =>
      let lineno := wrap_int (lineno + 1) in
      let '(pc, fn, _) := LineToPC filename lineno in
      match fn with
      | Some fn =>
          if negb (String.eqb (Name fn) funcName) then
            if Contains (Name fn) funcName
            then first_line_loop fuel' filename funcName lineno entry
            else Some entry
          else Some pc
      | None => first_line_loop fuel' filename funcName lineno entry
      end
  end.

(** A line the loop passes over: it resolves to no function, or to a function
    whose name contains [funcName] without being [funcName]. *)
Definition line_skipped (filename funcName : string) (line : Z) : Prop :=
  match snd (fst (LineToPC filename line)) with
  | None => True
  | Some fn => Name fn <> funcName /\ Contains (Name fn) funcName = true
  end.

(** [Process.FindFunctionLocation].  The Go function returns a pair, and the
    [lineOffset] branch hands back both components of [LineToPC] as they
    are.  [None]: the loop is still running when the fuel is spent. *)
Definition FindFunctionLocation (fuel : nat) (funcName : string)
    (firstLine : bool) (lineOffset : Z) : option (Z * option error) :=
  match LookupFunc funcName with
  | None =>
      Some (0, Some (Errorf "Could not find function %s\n" [ArgStr funcName]))
  | Some origfn =>
      if firstLine then
        let '(filename, lineno, _) := PCToLine (Entry origfn) in
        if negb (String.eqb (Ext filename) ".go") then Some (Entry origfn, None)
        else
          pc ← first_line_loop fuel filename funcName lineno (Entry origfn);
          Some (pc, None)
      else if 0 <? lineOffset then
        let '(filename, lineno, _) := PCToLine (Entry origfn) in
        let '(breakAddr, _, err) := LineToPC filename (wrap_int (lineno + lineOffset)) in
        Some (breakAddr, err)
      else Some (Entry origfn, None)
  end.

(** ** Resuming *)

(** [Process.RequestManualStop]. *)
Definition RequestManualStop : M unit :=
  modify (set_halt true);;
  requestManualStop.

(** [Process.run]. *)
Definition run (fn : M unit) : M unit :=
  modify (set_allGCache None);;
  p ← get;
  if exited p then raise (Errorf "process has already exited" [])
  else
    modify (fun p => set_Threads (set_CurrentBreakpoint None <$> Threads p) p);;
    fn.

(** The closure [continueOnce] passes to [run]. *)
Definition wait_for_stop : M unit :=
  tid ← trapWait (-1);
  h ← attempt Halt;
  match h with
  | Err e => exitGuard e
  | Ok _ =>
      attempt (SwitchThread tid);;
      setExtraBreakpoints;;
      loc ← reads (Thread_Location tid);
      match Fn loc with
      | Some fn =>
          if String.eqb (Name fn) "runtime.breakpoint"
          then Thread_Step tid;; Thread_Step tid
          else mret tt
      | None => mret tt
      end
  end.

(** [Process.continueOnce]. *)
Definition continueOnce : M unit :=
  range (R := unit) Threads (fun k th =>
    match CurrentBreakpoint th with
    | Some _ =>
        Thread_Step k;;
        update_thread k (set_CurrentBreakpoint None);;
        mret None
    | None => mret None
    end);;
  r ← range (R := unit) Threads (fun k _ =>
    r ← attempt (Thread_resume k);
    match r with
    | Err e => exitGuard e;; mret (Some tt)
    | Ok _ => mret None
    end);
  match r with
  | Some _ => mret tt
  | None => run wait_for_stop
  end.

(** The loop of [runBreakpointConditions]: the condition of every latched
    thread is evaluated, and the first thread seen on a triggered breakpoint
    and the first seen on a triggered temporary one are remembered. *)
Fixpoint conditions_loop (ks : list Z) (w : W) (ths : gmap Z Thread)
    (trigth tempth : option Z) : gmap Z Thread * option Z * option Z :=
  match ks with
  | [] => (ths, trigth, tempth)
  | k :: ks' =>
      match ths !! k with
      | None => conditions_loop ks' w ths trigth tempth
      | Some th =>
          match CurrentBreakpoint th with
          | None => conditions_loop ks' w ths trigth tempth
          | Some bp =>
              let th' := set_BreakpointConditionMet (checkCondition bp k w) th in
              let ths' := <[k := th']> ths in
              if onTriggeredBreakpoint th' then
                if onTriggeredTempBreakpoint th' then
                  conditions_loop ks' w ths' trigth
                    (match tempth with None => Some k | Some _ => tempth end)
                else
                  conditions_loop ks' w ths'
                    (match trigth with None => Some k | Some _ => trigth end)
                    tempth
              else conditions_loop ks' w ths' trigth tempth
          end
      end
  end.

(** What the loop does to one thread: a latched thread gets the value of its
    breakpoint's condition, any other thread is left alone. *)
Definition evaluate_condition (w : W) (k : Z) (th : Thread) : Thread :=
  match CurrentBreakpoint th with
  | Some bp => set_BreakpointConditionMet (checkCondition bp k w) th
  | None => th
  end.

(** [Process.runBreakpointConditions]. *)
Definition runBreakpointConditions : M unit :=
  p ← get;
  let '(ths, trigth, tempth) :=
    conditions_loop (range_keys (Threads p)) (tracee p) (Threads p) None None in
  modify (set_Threads ths);;
  let cth := CurrentThread p in
  match tempth with
  | Some t =>
      cth ← deref cth;
      if negb (onTriggeredTempBreakpoint cth) then SwitchThread t else mret tt
  | None =>
      match trigth with
      | Some t =>
          cth ← deref cth;
          if negb (onTriggeredBreakpoint cth) then SwitchThread t else mret tt
      | None => mret tt
      end
  end.

(** [Process.Continue].  The Go loop has no bound: [OutOfFuel] when it has not
    returned after [fuel] rounds. *)
Fixpoint Continue (fuel : nat) : M unit :=
  match fuel with
  | O => fun _ => OutOfFuel
  | S fuel' =>
      continueOnce;;
      p ← get;
      cth ← deref (CurrentThread p);
      let exitAnyway := bool_decide (CurrentBreakpoint cth = None) in
      runBreakpointConditions;;
      p ← get;
      cth ← deref (CurrentThread p);
      if onTriggeredBreakpoint cth then
        if onTriggeredTempBreakpoint cth then clearTempBreakpoints else mret tt
      else if exitAnyway then mret tt
      else Continue fuel'
  end.

(** The stop at which [Continue] decides to return: the rounds of [Continue]
    up to the decision, without the clearing of temporary breakpoints that
    may follow it. *)
Fixpoint last_stop (fuel : nat) (p : Process) : option Process :=
  match fuel with
  | O => None
  | S fuel' =>
      match continueOnce p with
      | Done (Ok _) q1 =>
          match Threads q1 !! CurrentThread q1, runBreakpointConditions q1 with
          | Some c1, Done (Ok _) q =>
              match Threads q !! CurrentThread q with
              | Some c =>
                  if onTriggeredBreakpoint c
                     || bool_decide (CurrentBreakpoint c1 = None)
                  then Some q
                  else last_stop fuel' q
              | None => None
              end
          | _, _ => None
          end
      | _ => None
      end
  end.

(** Every breakpoint sits in the table under its own address. *)
Definition table_keyed (p : Process) : Prop :=
  forall a bp, Breakpoints p !! a = Some bp -> Addr bp = a.

(** No temporary breakpoint is in the table. *)
Definition no_temp (p : Process) : Prop :=
  forall a bp, Breakpoints p !! a = Some bp -> Temp bp = false.

(** [Process.Step]. *)
Definition Step : M unit :=
  run (range (R := unit) Threads (fun k _ =>
         p ← get;
         if blocked k (tracee p) then mret None
         else Thread_Step k;; mret None);;
       mret tt).

(** ** Next *)

(** The loop of [setChanRecvBreakpoints]. *)
Fixpoint chan_recv_loop (gs : list G) (count : Z) : M Z :=
  match gs with
  | [] => mret count
  | g :: gs' =>
      if ChanRecvBlocked g then
        r ← attempt (reads (chanRecvReturnAddr g));
        match r with
        | Err NullAddrError => chan_recv_loop gs' count
        | Err e => raise e
        | Ok addr =>
            b ← attempt (SetTempBreakpoint addr);
            match b with
            | Err (BreakpointExistsError _) => chan_recv_loop gs' count
            | Err e => raise e
            | Ok _ => chan_recv_loop gs' (wrap_int (count + 1))
            end
        end
      else chan_recv_loop gs' count
  end.

(** [Process.setChanRecvBreakpoints]. *)
Definition setChanRecvBreakpoints : M Z :=
  allg ← GoroutinesInfo;
  chan_recv_loop (default [] allg) 0.

(** The guard that opens [Next]: is a temporary breakpoint in the table? *)
Definition nexting (p : Process) : bool :=
  existsb (fun i => match Breakpoints p !! i with
                    | Some bp => Temp bp
                    | None => false
                    end)
          (range_keys (Breakpoints p)).

(** [Next] up to, and without, its closing [return dbp.Continue()]. *)
Definition Next_prepare : M unit :=
  p ← get;
  if nexting p then raise (Errorf "next while nexting" [])
  else
    g ← reads (GetG (CurrentThread p));
    setChanRecvBreakpoints;;
    r ← attempt (setNextBreakpoints (CurrentThread p));
    goroutineExiting ←
      match r with
      | Ok _ => mret false
      | Err ThreadBlockedError => mret false
      | Err NoReturnAddr => mret false
      | Err (GoroutineExitingError goid) => mret (goid =? Id g)
      | Err e => attempt clearTempBreakpoints;; raise e
      end;
    if negb goroutineExiting then
      modify (fun p =>
        set_Breakpoints
          ((fun bp => if Temp bp then set_Cond (Some (Id g)) bp else bp)
             <$> Breakpoints p) p)
    else mret tt.

(** [Process.Next]. *)
Definition Next (fuel : nat) : M unit :=
  Next_prepare;;
  Continue fuel.

(** ** The rest of the file *)

(** [Process.handleBreakpointOnThread]. *)
Definition handleBreakpointOnThread (id : Z) : M Z :=
  p ← get;
  match Threads p !! id with
  | None => raise (Errorf "could not find thread for %d" [ArgInt id])
  | Some _ =>
      SetCurrentBreakpoint id;;
      th ← deref id;
      p ← get;
      if bool_decide (CurrentBreakpoint th ≠ None) || halt p then mret id
      else
        pc ← reads (Thread_PC id);
        match PCToFunc pc with
        | Some fn =>
            if String.eqb (Name fn) "runtime.breakpoint"
            then Thread_Step id;; Thread_Step id;; mret id
            else raise (NoBreakpointError pc)
        | None => raise (NoBreakpointError pc)
        end
  end.

(** [Process.Detach]. *)
Definition Detach (kill : bool) : M unit :=
  p ← get;
  (if Running p then Halt else mret tt);;
  (if kill then mret tt
   else
     range (R := unit) Breakpoints (fun _ bp =>
       ClearBreakpoint (Addr bp);; mret None);;
     mret tt);;
  p ← get;
  acts (PtraceDetach (Pid p));;
  if kill then acts (Kill (Pid p)) else mret tt.

(** [Process.CurrentBreakpoint]. *)
Definition Process_CurrentBreakpoint : M (option Breakpoint) :=
  p ← get; th ← deref (CurrentThread p); mret (CurrentBreakpoint th).

(** [Process.PC]. *)
Definition Process_PC : M Z :=
  p ← get; reads (Thread_PC (CurrentThread p)).

(** [Process.ConvertEvalScope]. *)
Definition ConvertEvalScope (gid frame : Z) : M EvalScope :=
  g ← FindGoroutine gid;
  p ← get;
  match g with
  | None => Thread_Scope (CurrentThread p)
  | Some g =>
      let th := default (CurrentThread p) (thread g) in
      locs ← GoroutineStacktrace g frame;
      if Z.of_nat (length locs) <=? frame
      then raise (Errorf "Frame %d does not exist in goroutine %d"
                    [ArgInt frame; ArgInt gid])
      else
        loc ← or_panic (if frame <? 0 then None else locs !! Z.to_nat frame);
        mret {| ScopeThread := th; ScopePC := FramePC loc; ScopeCFA := FrameCFA loc |}
  end.

(** [Process.postExit], without the closing of the serializer's channels. *)
Definition postExit : M unit := modify (set_exited true).

(** ** The operations of the file

    Every method of [proc.go] that can write to the process, as one step of a
    session on it. *)
Inductive Op :=
| OpDetach (kill : bool)
| OpRequestManualStop
| OpSetBreakpoint (addr : Z)
| OpSetTempBreakpoint (addr : Z)
| OpClearBreakpoint (addr : Z)
| OpNext (fuel : nat)
| OpSetChanRecvBreakpoints
| OpContinue (fuel : nat)
| OpRunBreakpointConditions
| OpContinueOnce
| OpStep
| OpSwitchThread (tid : Z)
| OpSwitchGoroutine (gid : Z)
| OpGoroutinesInfo
| OpHalt
| OpCurrentBreakpoint
| OpPC
| OpClearTempBreakpoints
| OpHandleBreakpointOnThread (id : Z)
| OpFindGoroutine (gid : Z)
| OpConvertEvalScope (gid frame : Z)
| OpPostExit.

Definition perform (o : Op) : Process -> option Process :=
  match o with
  | OpDetach kill => state_after (Detach kill)
  | OpRequestManualStop => state_after RequestManualStop
  | OpSetBreakpoint addr => state_after (SetBreakpoint addr)
  | OpSetTempBreakpoint addr => state_after (SetTempBreakpoint addr)
  | OpClearBreakpoint addr => state_after (ClearBreakpoint addr)
  | OpNext fuel => state_after (Next fuel)
  | OpSetChanRecvBreakpoints => state_after setChanRecvBreakpoints
  | OpContinue fuel => state_after (Continue fuel)
  | OpRunBreakpointConditions => state_after runBreakpointConditions
  | OpContinueOnce => state_after continueOnce
  | OpStep => state_after Step
  | OpSwitchThread tid => state_after (SwitchThread tid)
  | OpSwitchGoroutine gid => state_after (SwitchGoroutine gid)
  | OpGoroutinesInfo => state_after GoroutinesInfo
  | OpHalt => state_after Halt
  | OpCurrentBreakpoint => state_after Process_CurrentBreakpoint
  | OpPC => state_after Process_PC
  | OpClearTempBreakpoints => state_after clearTempBreakpoints
  | OpHandleBreakpointOnThread id => state_after (handleBreakpointOnThread id)
  | OpFindGoroutine gid => state_after (FindGoroutine gid)
  | OpConvertEvalScope gid frame => state_after (ConvertEvalScope gid frame)
  | OpPostExit => state_after postExit
  end.

(** A session: the operations are performed one after the other, each on the
    process the one before returned with, whether it returned an error or
    not. *)
Fixpoint perform_all (ops : list Op) (p : Process) : option Process :=
  match ops with
  | [] => Some p
  | o :: ops' =>
      match perform o p with
      | Some p' => perform_all ops' p'
      | None => None
      end
  end.

End Core.

(** ** The enumeration, slot by slot

    What [GoroutinesInfo] computes, written without the loop: the goroutine
    of each slot of the array, and the slice that keeps the live ones. *)
Section Enumeration.

Context {W : Type} {pf : Platform W}.

(** The goroutine the loop holds at the end of round [i]: parsed from slot
    [i] of the array at [allgptr]; when [threadg] has a thread for its id,
    bound to that thread and placed at that thread's location. *)
Definition goroutine_at (p : Process W) (allgptr i : Z) : result G :=
  match parseG (CurrentThread p) (wrap64 (allgptr + wrap64 (i * wrap64 PtrSize)))
          true (tracee p) with
  | Err e => Err e
  | Ok g =>
      match threadg_of p !! Id g with
      | Some tid =>
          match Thread_Location tid (tracee p) with
          | Err e => Err e
          | Ok loc => Ok (attach_thread tid loc g)
          end
      | None => Ok g
      end
  end.

(** The goroutines of [n] slots from slot [i] on, up to the first one that
    cannot be read. *)
Fixpoint goroutines_from (p : Process W) (allgptr : Z) (n : nat) (i : Z) :
    result (list G) :=
  match n with
  | O => Ok []
  | S n' =>
      match goroutine_at p allgptr i with
      | Err e => Err e
      | Ok g =>
          match goroutines_from p allgptr n' (i + 1) with
          | Err e => Err e
          | Ok gs => Ok (g :: gs)
          end
      end
  end.

(** A slice grown by [append] from [nil]: [nil] as long as it is empty. *)
Definition slice_of {A : Type} (l : list A) : option (list A) :=
  match l with
  | [] => None
  | _ :: _ => Some l
  end.

(** The step of the loop on the slice: a dead goroutine is dropped, a live
    one appended. *)
Definition keep_live (allg : option (list G)) (g : G) : option (list G) :=
  if Status g =? Gdead then allg else append_G allg g.

End Enumeration.

(** ** Clearing, as the tracee sees it

    Taking a breakpoint out of the table and writing its original bytes back
    ([Breakpoint.Clear]) are two things; what the loop of
    [clearTempBreakpoints] does to the tracee is written here without the
    loop. *)
Section Clearing.

Context {W : Type} {pf : Platform W}.

(** The temporary breakpoints of the table, in the order in which the loop
    comes to them. *)
Definition temps_in_order (p : Process W) : list Breakpoint :=
  filter (fun bp : Breakpoint => Temp bp = true)
    (omap (fun k => Breakpoints p !! k) (range_keys (Breakpoints p))).

(** [Breakpoint.Clear] on each breakpoint of [bps] in turn, on behalf of
    thread [tid]: the tracee after the last call, if no call fails. *)
Fixpoint clear_each (tid : Z) (bps : list Breakpoint) (w : W) : option W :=
  match bps with
  | [] => Some w
  | bp :: rest =>
      match Breakpoint_Clear bp tid w with
      | (None, w') => clear_each tid rest w'
      | (Some _, _) => None
      end
  end.

(** No breakpoint lies one trap below a temporary one. *)
Definition temps_unshadowed (p : Process W) : Prop :=
  forall a bp, Breakpoints p !! a = Some bp -> Temp bp = true ->
    Breakpoints p !! wrap64 (a - wrap64 BreakpointSize) = None.

End Clearing.

(** ** The Go version and the linker

    [getGoInformation] evaluates [runtime.buildVersion] and walks the compile
    units of the DWARF data.  What it consumes from other files and
    packages: *)
Class VersionTools := {
  GoVersion : Type;
  (** The zero [GoVersion], the value of the named result [ver] until it is
      assigned. *)
  GoVersion_zero : GoVersion;
  parseVersionString : string -> GoVersion * bool;
  (** [constant.Value] with [constant.StringVal], and what [%v] prints for
      a value and for an error. *)
  ConstValue : Type;
  StringVal : ConstValue -> string;
  show_value : ConstValue -> string;
  show_error : error -> string
}.

Section GoInformation.

Context {vt : VersionTools}.

(** The two fields of [Variable] the function reads. *)
Record PkgVariable := { Unreadable : option error; Value : ConstValue }.

(** A [dwarf.Entry], as far as the function looks into it:
    [entry.Val(dwarf.AttrProducer).(string)], [None] when the attribute is
    missing or is no string. *)
Record DwarfEntry := { AttrProducer : option string }.

(** The loop over the compile units.  [units] lists what the successive calls
    of [rdr.NextCompileUnit] return; a reader that has run out of them
    returns a nil entry.  The [err] of the loop is a variable of the [for]
    statement: it shadows the named result, so that the bare [return] after
    the loop returns the [err] of the function, which is nil there. *)
Fixpoint compile_units (units : list (option DwarfEntry * option error)) :
    bool * option error :=
  match units with
  | [] => (false, None)
  | (None, _) :: _ => (false, None)
  | (Some _, Some e) :: _ => (false, Some e)
  | (Some entry, None) :: rest =>
      match AttrProducer entry with
      | Some prod =>
          if String.prefix "GNU AS" prod then (true, None) else compile_units rest
      | None => compile_units rest
      end
  end.

(** [Process.getGoInformation], from what [EvalPackageVariable] returned for
    [runtime.buildVersion] and from the compile units of the reader. *)
Definition getGoInformation (vv : result PkgVariable)
    (units : list (option DwarfEntry * option error)) :
    GoVersion * bool * option error :=
  match vv with
  | Err e =>
      (GoVersion_zero, false,
       Some (Errorf "Could not determine version number: %v\n" [ArgStr (show_error e)]))
  | Ok vv =>
      match Unreadable vv with
      | Some e =>
          (GoVersion_zero, false,
           Some (Errorf "Unreadable version number: %v\n" [ArgStr (show_error e)]))
      | None =>
          let '(ver, ok) := parseVersionString (StringVal (Value vv)) in
          if negb ok then
            (ver, false,
             Some (Errorf "Could not parse version number: %v\n"
                     [ArgStr (show_value (Value vv))]))
          else
            let '(isextld, err) := compile_units units in
            (ver, isextld, err)
      end
  end.

(** A compile unit the loop passes over: read without error, and not
    produced by the GNU assembler. *)
Definition passed_over (u : option DwarfEntry * option error) : Prop :=
  exists entry,
    u = (Some entry, None) /\
    match AttrProducer entry with
    | Some prod => String.prefix "GNU AS" prod = false
    | None => True
    end.

End GoInformation.



(** A hypothesis on the code outside [proc.go], not a fact about it.  The
    halt flag is a field of [Process], so the thread and platform methods in
    [M] can write it, and neither the source at hand nor the specification
    says whether they do.  [PlatformKeepsHalt] singles out the collaborators
    that return with the flag as they found it; what is proved under it
    tells what the statements of [proc.go] themselves do to the flag, and
    nothing about a platform that resets it. *)
Class PlatformKeepsHalt {W : Type} (pf : Platform W) : Prop := {
  Thread_Step_halt : forall tid, keeps_halt (Thread_Step tid);
  Thread_resume_halt : forall tid, keeps_halt (Thread_resume tid);
  Thread_Halt_halt : forall tid, keeps_halt (Thread_Halt tid);
  SetCurrentBreakpoint_halt : forall tid, keeps_halt (SetCurrentBreakpoint tid);
  setNextBreakpoints_halt : forall tid, keeps_halt (setNextBreakpoints tid);
  Thread_Scope_halt : forall tid, keeps_halt (Thread_Scope tid);
  setBreakpoint_halt : forall tid addr temp, keeps_halt (setBreakpoint tid addr temp);
  requestManualStop_halt : keeps_halt requestManualStop;
  trapWait_halt : forall pid, keeps_halt (trapWait pid);
  setExtraBreakpoints_halt : keeps_halt setExtraBreakpoints;
  exitGuard_halt : forall e, keeps_halt (exitGuard e);
  GoroutineStacktrace_halt : forall g depth, keeps_halt (GoroutineStacktrace g depth)
}.

(** ** A small platform to run the model on

    One architecture with one-byte traps, a symbol table with two functions,
    and a tracee that is a script: the wait events still to come, the
    goroutine each thread runs, the words of memory the enumeration reads and
    the goroutines found there.  [restored] logs the addresses whose original
    bytes [Breakpoint.Clear] wrote back. *)
Record World := {
  pending : list (Z * Z);
  thread_g : list (Z * G);
  memory : list (Z * (list byte * option error));
  goroutines : list (Z * G);
  next_line_addr : Z;
  restored : list Z
}.

Definition set_pending (l : list (Z * Z)) (w : World) : World :=
  {| pending := l; thread_g := thread_g w; memory := memory w;
     goroutines := goroutines w; next_line_addr := next_line_addr w;
     restored := restored w |}.

Definition assoc {A : Type} (k : Z) (l : list (Z * A)) : option A :=
  snd <$> List.find (fun e => fst e =? k) l.

Definition demo_main : Func := {| Name := "main.main"; Entry := 4096 |}.
Definition demo_closure : Func := {| Name := "main.main.func1"; Entry := 4112 |}.
Definition demo_other : Func := {| Name := "main.helper"; Entry := 4192 |}.

Definition demo_LookupFunc (name : string) : option Func :=
  if String.eqb name "main.main" then Some demo_main
  else if String.eqb name "main.helper" then Some demo_other
  else None.

Definition demo_PCToLine (pc : Z) : string * Z * option Func :=
  if pc =? 4096 then ("main.go"%string, 10, Some demo_main)
  else if pc =? 4192 then ("helper.s"%string, 3, Some demo_other)
  else (EmptyString, 0, None).

Definition demo_LineToPC (file : string) (line : Z) : Z * option Func * option error :=
  if negb (String.eqb file "main.go") then (0, None, Some (OtherError 1))
  else if line =? 10 then (4096, Some demo_main, None)
  else if line =? 12 then (4112, Some demo_closure, None)
  else if line =? 13 then (4128, Some demo_main, None)
  else if line =? 20 then (4192, Some demo_other, None)
  else (0, None, Some (OtherError 2)).

Definition demo_AddrFor (pos : Z) (name : string) : result Z * Z :=
  if String.eqb name "runtime.allglen" then (Ok 256, 1)
  else if String.eqb name "runtime.allgs" then (Ok 264, 2)
  else (Err (OtherError 3), 9).

Definition demo_readMemory (tid addr size : Z) (w : World) : list byte * option error :=
  default ([], Some (OtherError 4)) (assoc addr (memory w)).

Definition demo_lookup_G (k : Z) (l : list (Z * G)) : result G :=
  match assoc k l with
  | Some g => Ok g
  | None => Err (OtherError 5)
  end.

Definition demo_Location (tid : Z) (w : World) : result Location :=
  Ok {| PC := tid; File := "main.go"; Line := 10; Fn := Some demo_main |}.

Definition demo_Clear (bp : Breakpoint) (tid : Z) (w : World) : option error * World :=
  (None, {| pending := pending w; thread_g := thread_g w; memory := memory w;
            goroutines := goroutines w; next_line_addr := next_line_addr w;
            restored := Addr bp :: restored w |}).

(** Modelled from the spec: [Process.setBreakpoint] is defined in another file
    (section 4.4.1: fails with BreakpointExists if the address is in the
    table; otherwise takes the next id of the user or of the temporary
    counter and inserts the breakpoint). *)
Definition demo_setBreakpoint (tid addr : Z) (temp : bool) : M World Breakpoint :=
  fun p =>
    match Breakpoints p !! addr with
    | Some _ => Done (Err (BreakpointExistsError addr)) p
    | None =>
        let id := (if temp then tempBreakpointIDCounter p
                   else breakpointIDCounter p) + 1 in
        let bp := {| Addr := addr; OriginalData := []; ID := id;
                     Temp := temp; Cond := None |} in
        Done (Ok bp)
          {| Pid := Pid p; Breakpoints := <[addr := bp]> (Breakpoints p);
             Threads := Threads p; CurrentThread := CurrentThread p;
             SelectedGoroutine := SelectedGoroutine p; allGCache := allGCache p;
             breakpointIDCounter :=
               (if temp then breakpointIDCounter p else id);
             tempBreakpointIDCounter :=
               (if temp then id else tempBreakpointIDCounter p);
             halt := halt p; exited := exited p; tracee := tracee p |}
    end.

(** The next wait event of the script: the thread that stops and its pc; the
    thread is latched on the breakpoint at that pc, if the table has one. *)
Definition demo_trapWait (pid : Z) : M World Z :=
  fun p =>
    match pending (tracee p) with
    | [] => Done (Err (OtherError 6)) p
    | (tid, pc) :: rest =>
        Done (Ok tid)
          (set_tracee (set_pending rest (tracee p))
             (set_Threads
                (alter (set_CurrentBreakpoint (Breakpoints p !! pc)) tid (Threads p))
                p))
    end.

Definition demo_setNextBreakpoints (tid : Z) : M World unit :=
  fun p =>
    match demo_setBreakpoint tid (next_line_addr (tracee p)) true p with
    | Done (Ok _) p' => Done (Ok tt) p'
    | Done (Err e) p' => Done (Err e) p'
    | Panic => Panic
    | OutOfFuel => OutOfFuel
    end.

#[local] Instance demo : Platform World := {|
  BreakpointSize := 1;
  PtrSize := 8;
  Gdead := 6;
  range_keys := fun A (m : gmap Z A) => (map_to_list m).*1;
  range_keys_perm := fun A (m : gmap Z A) => Permutation_refl _;
  LookupFunc := demo_LookupFunc;
  PCToLine := demo_PCToLine;
  LineToPC := demo_LineToPC;
  PCToFunc := fun pc => snd (demo_PCToLine pc);
  AddrFor := demo_AddrFor;
  Breakpoint_Clear := demo_Clear;
  GetG := fun tid w => demo_lookup_G tid (thread_g w);
  Thread_Location := demo_Location;
  Thread_PC := fun tid w => Ok tid;
  blocked := fun _ _ => false;
  readMemory := demo_readMemory;
  parseG := fun _ addr _ w => demo_lookup_G addr (goroutines w);
  ChanRecvBlocked := fun _ => false;
  chanRecvReturnAddr := fun _ _ => Err NullAddrError;
  Thread_Step := fun _ => ret tt;
  Thread_resume := fun _ => ret tt;
  Thread_Halt := fun _ => ret tt;
  SetCurrentBreakpoint := fun _ => ret tt;
  setNextBreakpoints := demo_setNextBreakpoints;
  Thread_Scope := fun tid => ret {| ScopeThread := tid; ScopePC := 0; ScopeCFA := 0 |};
  setBreakpoint := demo_setBreakpoint;
  requestManualStop := ret tt;
  trapWait := demo_trapWait;
  setExtraBreakpoints := ret tt;
  exitGuard := fun e => raise e;
  GoroutineStacktrace := fun _ _ => ret [];
  PtraceDetach := fun _ w => (None, w);
  Kill := fun _ w => (None, w)
|}.


(** A second platform, the small one with three changes: goroutines in
    status 4 are blocked on a channel receive, goroutine 9 with a null return
    address and the others returning to address 48; and halting a thread
    that the next event of the script reports stopped consumes that event and
    latches the thread on the breakpoint at its pc. *)
Definition busy_Halt (tid : Z) : M World unit :=
  fun p =>
    match pending (tracee p) with
    | [] => Done (Ok tt) p
    | (t, pc) :: rest =>
        if t =? tid then
          Done (Ok tt)
            (set_tracee (set_pending rest (tracee p))
               (set_Threads
                  (alter (set_CurrentBreakpoint (Breakpoints p !! pc)) tid (Threads p))
                  p))
        else Done (Ok tt) p
    end.

Definition demo_busy : Platform World := {|
  BreakpointSize := 1;
  PtrSize := 8;
  Gdead := 6;
  range_keys := fun A (m : gmap Z A) => (map_to_list m).*1;
  range_keys_perm := fun A (m : gmap Z A) => Permutation_refl _;
  LookupFunc := demo_LookupFunc;
  PCToLine := demo_PCToLine;
  LineToPC := demo_LineToPC;
  PCToFunc := fun pc => snd (demo_PCToLine pc);
  AddrFor := demo_AddrFor;
  Breakpoint_Clear := demo_Clear;
  GetG := fun tid w => demo_lookup_G tid (thread_g w);
  Thread_Location := demo_Location;
  Thread_PC := fun tid w => Ok tid;
  blocked := fun _ _ => false;
  readMemory := demo_readMemory;
  parseG := fun _ addr _ w => demo_lookup_G addr (goroutines w);
  ChanRecvBlocked := fun g => Status g =? 4;
  chanRecvReturnAddr := fun g _ => if Id g =? 9 then Err NullAddrError else Ok 48;
  Thread_Step := fun _ => ret tt;
  Thread_resume := fun _ => ret tt;
  Thread_Halt := busy_Halt;
  SetCurrentBreakpoint := fun _ => ret tt;
  setNextBreakpoints := demo_setNextBreakpoints;
  Thread_Scope := fun tid => ret {| ScopeThread := tid; ScopePC := 0; ScopeCFA := 0 |};
  setBreakpoint := demo_setBreakpoint;
  requestManualStop := ret tt;
  trapWait := demo_trapWait;
  setExtraBreakpoints := ret tt;
  exitGuard := fun e => raise e;
  GoroutineStacktrace := fun _ _ => ret [];
  PtraceDetach := fun _ w => (None, w);
  Kill := fun _ w => (None, w)
|}.

(** States of the small platform. *)
Definition demo_loc : Location := {| PC := 0; File := "main.go"; Line := 10; Fn := Some demo_main |}.

Definition demo_g (id status : Z) (th : option Z) : G :=
  {| Id := id; Status := status; thread := th; CurrentLoc := demo_loc |}.

Definition demo_thread : Thread :=
  {| running := false; CurrentBreakpoint := None; BreakpointConditionMet := false |}.

Definition demo_userbp : Breakpoint :=
  {| Addr := 48; OriginalData := []; ID := 1; Temp := false; Cond := None |}.

Definition demo_tempbp : Breakpoint :=
  {| Addr := 32; OriginalData := []; ID := 1; Temp := true; Cond := Some 7 |}.

(** One thread running goroutine 7; the next line of the current statement is
    at address 32; the script holds the stops to come. *)
Definition demo_world (stops : list (Z * Z)) : World :=
  {| pending := stops;
     thread_g := [(1, demo_g 7 2 (Some 1)); (2, demo_g 8 2 (Some 2))];
     memory := []; goroutines := []; next_line_addr := 32; restored := [] |}.

(** A stopped process with a user breakpoint at address 48. *)
Definition demo_process (stops : list (Z * Z)) : Process World :=
  {| Pid := 1; Breakpoints := {[ 48 := demo_userbp ]};
     Threads := {[ 1 := demo_thread ]}; CurrentThread := 1;
     SelectedGoroutine := None; allGCache := Some [demo_g 7 2 (Some 1)];
     breakpointIDCounter := 1; tempBreakpointIDCounter := 0;
     halt := false; exited := false; tracee := demo_world stops |}.

(** The same process in the middle of a [Next]: a temporary breakpoint is
    still in the table. *)
Definition demo_nexting : Process World :=
  set_Breakpoints (<[32 := demo_tempbp]> {[ 48 := demo_userbp ]}) (demo_process []).

(** A tracee for the enumeration: [len] is what reading [runtime.allglen]
    gives, [ptr] what reading [runtime.allgs] gives; three goroutines lie at
    512, 520 and 528, the second one dead. *)
Definition le64 (b0 b1 : byte) : list byte := [b0; b1; x00; x00; x00; x00; x00; x00].

Definition demo_heap (len ptr : list byte * option error) : World :=
  {| pending := [];
     thread_g := [(1, demo_g 7 2 (Some 1)); (2, demo_g 8 2 (Some 2))];
     memory := [(256, len); (264, ptr)];
     goroutines := [(512, demo_g 7 2 None); (520, demo_g 8 6 None);
                    (528, demo_g 9 4 None)];
     next_line_addr := 32; restored := [] |}.

(** A stopped process whose goroutine cache is empty. *)
Definition demo_fresh (len ptr : list byte * option error) : Process World :=
  {| Pid := 1; Breakpoints := ∅; Threads := {[ 1 := demo_thread ]};
     CurrentThread := 1; SelectedGoroutine := None; allGCache := None;
     breakpointIDCounter := 0; tempBreakpointIDCounter := 0;
     halt := false; exited := false; tracee := demo_heap len ptr |}.

(** Two threads; thread 1 is current, the selected goroutine is a snapshot
    of goroutine 8 on thread 2 taken at an earlier pc. *)
Definition demo_stale_g : G :=
  {| Id := 8; Status := 2; thread := Some 2;
     CurrentLoc := {| PC := 99; File := "main.go"; Line := 9; Fn := Some demo_main |} |}.

(** One thread; the selected goroutine is a snapshot of its goroutine taken
    before the last single step. *)
Definition demo_after_step : Process World :=
  {| Pid := 1; Breakpoints := ∅; Threads := {[ 1 := demo_thread ]};
     CurrentThread := 1;
     SelectedGoroutine :=
       Some {| Id := 7; Status := 2; thread := Some 1;
               CurrentLoc := {| PC := 99; File := "main.go"; Line := 9;
                                Fn := Some demo_main |} |};
     allGCache := None;
     breakpointIDCounter := 0; tempBreakpointIDCounter := 0;
     halt := false; exited := false; tracee := demo_world [] |}.

Definition demo_two_threads : Process World :=
  {| Pid := 1; Breakpoints := ∅;
     Threads := <[2 := demo_thread]> {[ 1 := demo_thread ]};
     CurrentThread := 1; SelectedGoroutine := Some demo_stale_g; allGCache := None;
     breakpointIDCounter := 0; tempBreakpointIDCounter := 0;
     halt := false; exited := false; tracee := demo_world [] |}.

(** A process in which a temporary breakpoint at 32 waits for goroutine 9,
    which is not the goroutine of thread 1. *)
Definition demo_foreign_temp : Breakpoint :=
  {| Addr := 32; OriginalData := []; ID := 1; Temp := true; Cond := Some 9 |}.

Definition demo_waiting (stops : list (Z * Z)) : Process World :=
  set_Breakpoints (<[32 := demo_foreign_temp]> {[ 48 := demo_userbp ]})
    (demo_process stops).

(** The enumeration of three goroutines: the count 3 and the array at 512. *)
Definition demo_three : Process World :=
  demo_fresh (le64 x03 x00, None) (le64 x00 x02, None).

(** A stop of two threads: thread 1, the current one, is latched on the user
    breakpoint; thread 2 on a temporary breakpoint that waits for goroutine
    8, which is the goroutine it runs. *)
Definition demo_latched (bp : Breakpoint) : Thread :=
  {| running := false; CurrentBreakpoint := Some bp; BreakpointConditionMet := false |}.

Definition demo_temp8 : Breakpoint :=
  {| Addr := 32; OriginalData := []; ID := 1; Temp := true; Cond := Some 8 |}.

Definition demo_two_latched : Process World :=
  {| Pid := 1; Breakpoints := <[32 := demo_temp8]> {[ 48 := demo_userbp ]};
     Threads := <[2 := demo_latched demo_temp8]> {[ 1 := demo_latched demo_userbp ]};
     CurrentThread := 1; SelectedGoroutine := None; allGCache := None;
     breakpointIDCounter := 1; tempBreakpointIDCounter := 1;
     halt := false; exited := false; tracee := demo_world [] |}.

(** A table that is not keyed by address: the temporary breakpoint for
    address 64 is filed under 32, and thread 1 is latched on it. *)
Definition demo_misfiled : Process World :=
  {| Pid := 1;
     Breakpoints :=
       {[ 32 := {| Addr := 64; OriginalData := []; ID := 1; Temp := true;
                   Cond := None |} ]};
     Threads := {[ 1 := demo_latched demo_temp8 ]};
     CurrentThread := 1; SelectedGoroutine := None; allGCache := None;
     breakpointIDCounter := 0; tempBreakpointIDCounter := 1;
     halt := false; exited := false; tracee := demo_world [] |}.

(** The process after a manual stop was requested. *)
Definition demo_halted : Process World := set_halt true (demo_process []).

(** A current thread that runs no goroutine the tracee knows. *)
Definition demo_lost_thread : Process World := set_CurrentThread 3 (demo_process []).

(** A manual stop that coincides with a breakpoint: the stop is reported on
    thread 1, at pc 100 where no breakpoint is, while thread 2 has run into
    the temporary breakpoint at 32, which waits for goroutine 9 and not for
    goroutine 8 that thread 2 runs. *)
Definition demo_manual : Process World :=
  {| Pid := 1; Breakpoints := {[ 32 := demo_foreign_temp ]};
     Threads := <[2 := demo_thread]> {[ 1 := demo_thread ]};
     CurrentThread := 1; SelectedGoroutine := None; allGCache := None;
     breakpointIDCounter := 0; tempBreakpointIDCounter := 1;
     halt := true; exited := false; tracee := demo_world [(1, 100); (2, 32)] |}.

(** A user breakpoint at 31, one trap below the temporary breakpoint at 32
    on which thread 1 is about to stop. *)
Definition demo_below : Breakpoint :=
  {| Addr := 31; OriginalData := []; ID := 2; Temp := false; Cond := None |}.

Definition demo_adjacent : Process World :=
  set_Breakpoints (<[31 := demo_below]> {[ 32 := demo_tempbp ]}) (demo_process [(1, 32)]).

(** Three cached goroutines: 9 and 10 are blocked on a channel receive, 7 is
    running; the table has the user breakpoint at 48. *)
Definition demo_blocked : Process World :=
  set_allGCache (Some [demo_g 9 4 None; demo_g 10 4 None; demo_g 7 2 (Some 1)])
    (demo_process []).

(** An enumeration of one slot, at 520, where the dead goroutine lies; the
    live goroutines at 512 and 528 are outside the array. *)
Definition demo_one_dead : Process World :=
  demo_fresh (le64 x01 x00, None) (le64 x08 x02, None).

(** The read of the array pointer fails, and returns eight bytes all the
    same. *)
Definition demo_failed_read : Process World :=
  demo_fresh (le64 x03 x00, None) (le64 x00 x02, Some (OtherError 4)).

(** Version tools for the examples: versions are minor numbers, and only
    "go1.5" and "go1.6" parse. *)
#[local] Instance demo_tools : VersionTools := {|
  GoVersion := Z;
  GoVersion_zero := 0;
  parseVersionString := fun s =>
    if String.eqb s "go1.5" then (5, true)
    else if String.eqb s "go1.6" then (6, true)
    else (0, false);
  ConstValue := string;
  StringVal := fun s => s;
  show_value := fun s => s;
  show_error := fun _ => "error"%string
|}.

Definition demo_unit (prod : string) : option DwarfEntry * option error :=
  (Some {| AttrProducer := Some prod |}, None).

(** * Properties *)

Section Properties.

Context {W : Type} {pf : Platform W}.

Local Abbreviation Process := (Process W).
Local Abbreviation M := (M W).

Lemma range_keys_elem {A : Type} (m : gmap Z A) (k : Z) :
  k ∈ range_keys m <-> is_Some (m !! k).
Proof.
  rewrite (range_keys_perm A m), list_elem_of_fmap. split.
  - intros [[k' a] [-> Hin]]. apply elem_of_map_to_list in Hin. eauto.
  - intros [a Ha]. exists (k, a). split; [done|]. by apply elem_of_map_to_list.
Qed.

(** Stepping back from [pc + BreakpointSize] lands on [pc]. *)
Lemma wrap64_post_trap pc size :
  0 <= pc < 2 ^ 64 -> wrap64 (wrap64 (pc + wrap64 size) - wrap64 size) = pc.
Proof.
  intros Hpc. unfold wrap64.
  rewrite Zminus_mod_idemp_l.
  replace (pc + size mod 2 ^ 64 - size mod 2 ^ 64) with pc by lia.
  apply Z.mod_small. lia.
Qed.

(** ** FindBreakpoint *)

(** C4 (as amended).  [FindBreakpoint pc] is the entry at [pc -
    BreakpointSize] when the table has one, else the entry at [pc], else
    nothing; and for an address [pc] that holds a breakpoint while [pc -
    BreakpointSize] holds none, [pc] and the post-trap address [pc +
    BreakpointSize] resolve to the same entry, the one at [pc]. *)
Theorem FindBreakpoint_resolves (p : Process) (pc : Z) :
  (forall bp, Breakpoints p !! wrap64 (pc - wrap64 BreakpointSize) = Some bp ->
     FindBreakpoint p pc = Some bp) /\
  (Breakpoints p !! wrap64 (pc - wrap64 BreakpointSize) = None ->
     FindBreakpoint p pc = Breakpoints p !! pc) /\
  (forall bp, 0 <= pc < 2 ^ 64 ->
     Breakpoints p !! pc = Some bp ->
     Breakpoints p !! wrap64 (pc - wrap64 BreakpointSize) = None ->
     FindBreakpoint p pc = Some bp /\
     FindBreakpoint p (wrap64 (pc + wrap64 BreakpointSize)) = Some bp).
Proof.
  unfold FindBreakpoint. split; [|split].
  - intros bp ->. reflexivity.
  - intros ->. reflexivity.
  - intros bp Hrange Hpc Hprev. split.
    + rewrite Hprev. exact Hpc.
    + rewrite wrap64_post_trap by exact Hrange. rewrite Hpc. reflexivity.
Qed.

(** ** ClearBreakpoint *)

(** An address that resolves to no breakpoint: [NoBreakpointError], and the
    process is as it was. *)
Lemma ClearBreakpoint_absent (p : Process) (addr : Z) :
  FindBreakpoint p addr = None ->
  ClearBreakpoint addr p = Done (Err (NoBreakpointError addr)) p.
Proof. intros H. unfold ClearBreakpoint, mbind, M_bind, bind, get. rewrite H. reflexivity. Qed.

(** What a call that finds a breakpoint does: the breakpoint found is handed
    to [Breakpoint.Clear], and the key deleted is [addr]. *)
Lemma ClearBreakpoint_found (p : Process) (addr : Z) (bp : Breakpoint) :
  FindBreakpoint p addr = Some bp ->
  ClearBreakpoint addr p =
    match Breakpoint_Clear bp (CurrentThread p) (tracee p) with
    | (None, w) =>
        Done (Ok bp) (set_Breakpoints (delete addr (Breakpoints p)) (set_tracee w p))
    | (Some e, w) => Done (Err e) (set_tracee w p)
    end.
Proof.
  intros H. unfold ClearBreakpoint, mbind, M_bind, bind, get, acts. rewrite H.
  destruct (Breakpoint_Clear bp (CurrentThread p) (tracee p)) as [[e|] w]; reflexivity.
Qed.

(** ** Next while nexting *)

Lemma nexting_true (p : Process) (a : Z) (bp : Breakpoint) :
  Breakpoints p !! a = Some bp -> Temp bp = true -> nexting p = true.
Proof.
  intros Ha Ht. unfold nexting. apply existsb_exists. exists a. split.
  - apply list_elem_of_In, range_keys_elem. eauto.
  - rewrite Ha. exact Ht.
Qed.

(** C6.  With a temporary breakpoint in the table, [Next] returns the error
    "next while nexting" at once, and the process it returns is the process
    it was called on: no table, no thread, no other field has changed. *)
Theorem Next_while_nexting (fuel : nat) (p : Process) (a : Z) (bp : Breakpoint) :
  Breakpoints p !! a = Some bp ->
  Temp bp = true ->
  Next fuel p = Done (Err (Errorf "next while nexting" [])) p.
Proof.
  intros Ha Ht.
  unfold Next, Next_prepare, mbind, M_bind, bind, get.
  rewrite (nexting_true p a bp Ha Ht). reflexivity.
Qed.

(** ** FindFunctionLocation *)

Lemma wrap_int_add_l (a b : Z) : wrap_int (wrap_int a + b) = wrap_int (a + b).
Proof.
  unfold wrap_int. f_equal.
  replace ((a + 2 ^ 63) mod 2 ^ 64 - 2 ^ 63 + b + 2 ^ 63)
    with ((a + 2 ^ 63) mod 2 ^ 64 + b) by lia.
  rewrite Zplus_mod_idemp_l. f_equal. lia.
Qed.

(** The loop passes over [k - 1] lines and decides at the [k]-th line after
    the entry line, provided it is given [k] rounds. *)
Lemma first_line_loop_run (filename funcName : string) (entry : Z) (k : nat) :
  forall (fuel : nat) (lineno pc : Z) (fn : Func) (e : option error),
    (0 < k <= fuel)%nat ->
    (forall j : nat, (0 < j < k)%nat ->
       line_skipped filename funcName (wrap_int (lineno + Z.of_nat j))) ->
    LineToPC filename (wrap_int (lineno + Z.of_nat k)) = (pc, Some fn, e) ->
    (Name fn = funcName \/ Contains (Name fn) funcName = false) ->
    first_line_loop fuel filename funcName lineno entry =
      Some (if String.eqb (Name fn) funcName then pc else entry).
Proof.
  induction k as [|k IH]; intros fuel lineno pc fn e Hk Hskip Hline Hdec; [lia|].
  destruct fuel as [|fuel]; [lia|]. cbn [first_line_loop].
  destruct (decide (k = 0%nat)) as [->|Hk0].
  - replace (lineno + 1) with (lineno + Z.of_nat 1) by lia.
    rewrite Hline.
    destruct (String.eqb (Name fn) funcName) eqn:Heq; cbn [negb]; [reflexivity|].
    destruct Hdec as [Hdec| ->]; [|reflexivity].
    apply String.eqb_neq in Heq. contradiction.
  - pose proof (Hskip 1%nat ltac:(lia)) as H1. unfold line_skipped in H1.
    replace (lineno + Z.of_nat 1) with (lineno + 1) in H1 by lia.
    assert (Hrec : first_line_loop fuel filename funcName (wrap_int (lineno + 1)) entry =
                   Some (if String.eqb (Name fn) funcName then pc else entry)).
    { apply (IH fuel (wrap_int (lineno + 1)) pc fn e); [lia| | |exact Hdec].
      - intros j Hj. rewrite wrap_int_add_l.
        replace (lineno + 1 + Z.of_nat j) with (lineno + Z.of_nat (S j)) by lia.
        apply Hskip. lia.
      - rewrite wrap_int_add_l.
        replace (lineno + 1 + Z.of_nat k) with (lineno + Z.of_nat (S k)) by lia.
        exact Hline. }
    destruct (LineToPC filename (wrap_int (lineno + 1))) as [[pc1 [fn1|]] e1];
      cbn [fst snd] in H1; [|exact Hrec].
    destruct H1 as [Hne Hcont].
    apply String.eqb_neq in Hne. rewrite Hne, Hcont. cbn [negb]. exact Hrec.
Qed.

(** C8.  For a function the symbol table knows, whose entry is at line
    [lineno] of [filename]:
    - [firstLine], the file is not a [.go] file: the entry;
    - [firstLine], a [.go] file: the lines after the entry line are resolved
      in turn; lines with no function, and lines of a function whose name
      only contains [funcName], are passed over; the first other line
      decides: its pc when its function is [funcName], the entry when it is
      another function.  The loop returns as soon as it is given as many
      rounds as lines it has to read;
    - no [firstLine], [lineOffset > 0]: what [LineToPC] answers for line
      [lineno + lineOffset] of the file;
    - no [firstLine], [lineOffset = 0]: the entry. *)
Theorem FindFunctionLocation_spec (funcName : string) (origfn : Func)
    (filename : string) (lineno : Z) (fn0 : option Func) :
  LookupFunc funcName = Some origfn ->
  PCToLine (Entry origfn) = (filename, lineno, fn0) ->
  (Ext filename <> ".go"%string ->
     forall fuel lineOffset,
       FindFunctionLocation fuel funcName true lineOffset = Some (Entry origfn, None)) /\
  (Ext filename = ".go"%string ->
     forall (k : nat) (pc : Z) (fn : Func) (e : option error),
       (0 < k)%nat ->
       (forall j : nat, (0 < j < k)%nat ->
          line_skipped filename funcName (wrap_int (lineno + Z.of_nat j))) ->
       LineToPC filename (wrap_int (lineno + Z.of_nat k)) = (pc, Some fn, e) ->
       forall fuel lineOffset, (k <= fuel)%nat ->
         (Name fn = funcName ->
            FindFunctionLocation fuel funcName true lineOffset = Some (pc, None)) /\
         (Name fn <> funcName -> Contains (Name fn) funcName = false ->
            FindFunctionLocation fuel funcName true lineOffset = Some (Entry origfn, None))) /\
  (forall fuel lineOffset, 0 < lineOffset ->
     FindFunctionLocation fuel funcName false lineOffset =
       Some (let '(pc, _, err) := LineToPC filename (wrap_int (lineno + lineOffset)) in
             (pc, err))) /\
  (forall fuel, FindFunctionLocation fuel funcName false 0 = Some (Entry origfn, None)).
Proof.
  intros Hlook Hentry. unfold FindFunctionLocation. rewrite Hlook, Hentry.
  split; [|split; [|split]].
  - intros Hext fuel off. apply String.eqb_neq in Hext. rewrite Hext. reflexivity.
  - intros Hext k pc fn e Hk Hskip Hline fuel off Hfuel.
    apply String.eqb_eq in Hext. rewrite Hext. cbn [negb].
    split.
    + intros Hname.
      rewrite (first_line_loop_run filename funcName (Entry origfn) k fuel lineno pc fn e)
        by (try lia; auto).
      apply String.eqb_eq in Hname. rewrite Hname. reflexivity.
    + intros Hname Hcont.
      rewrite (first_line_loop_run filename funcName (Entry origfn) k fuel lineno pc fn e)
        by (try lia; auto).
      apply String.eqb_neq in Hname. rewrite Hname. reflexivity.
  - intros fuel off Hoff. apply Z.ltb_lt in Hoff. rewrite Hoff.
    destruct (LineToPC filename (wrap_int (lineno + off))) as [[pc fn] err]. reflexivity.
  - intros fuel. reflexivity.
Qed.

(** ** GoroutinesInfo *)

Lemma Uint64_short (b : list byte) : (length b < 8)%nat -> Uint64 b = None.
Proof.
  intros H. do 8 (destruct b as [|? b]; [reflexivity|]). cbn [length] in H. lia.
Qed.

Lemma Uint64_long (b : list byte) : (8 <= length b)%nat -> is_Some (Uint64 b).
Proof.
  intros H. do 8 (destruct b as [|? b]; [cbn [length] in H; lia|]).
  cbn [Uint64]. eauto.
Qed.

Lemma GoroutinesInfo_cached (p : Process) (l : list G) :
  allGCache p = Some l -> GoroutinesInfo p = Done (Ok (Some l)) p.
Proof. intros H. unfold GoroutinesInfo, mbind, M_bind, bind, get. rewrite H. reflexivity. Qed.

(** The enumeration proper, when the cache is nil. *)
Lemma GoroutinesInfo_fresh (p : Process) :
  allGCache p = None ->
  GoroutinesInfo p =
    match allglen_of p with
    | None => Panic
    | Some (Err e) => Done (Err e) p
    | Some (Ok allglen) =>
        match allgptr_of p with
        | None => Panic
        | Some (Err e) => Done (Err e) p
        | Some (Ok allgptr) =>
            match allg_loop (Z.to_nat allglen) 0 (CurrentThread p) allgptr
                    (threadg_of p) (tracee p) None with
            | Err e => Done (Err e) p
            | Ok allg => Done (Ok allg) (set_allGCache allg p)
            end
        end
    end.
Proof.
  intros H. unfold GoroutinesInfo, mbind, M_bind, bind, get, inspect, of_result.
  rewrite H.
  destruct (allglen_of p) as [[n|e]|]; [|reflexivity|reflexivity].
  destruct (allgptr_of p) as [[ptr|e]|]; reflexivity.
Qed.

(** C9 (as amended).  In an enumeration that has read the count, whatever
    [readMemory] answers for the pointer at [runtime.allgs] (or
    [runtime.allg]), bytes [faddr] and error [err]: with fewer than eight
    bytes, as after a short read or a read that failed and returned no data,
    [GoroutinesInfo] panics and returns no error; with eight bytes or more,
    also after a read that failed, the bytes are decoded and the outcome is
    that of the loop over the decoded pointer, in which [err] does not
    occur. *)
Theorem GoroutinesInfo_unchecked_read (p : Process) (allglen a : Z)
    (faddr : list byte) (err : option error) :
  allGCache p = None ->
  allglen_of p = Some (Ok allglen) ->
  allgs_entry = Ok a ->
  readMemory (CurrentThread p) a PtrSize (tracee p) = (faddr, err) ->
  ((length faddr < 8)%nat -> GoroutinesInfo p = Panic) /\
  ((8 <= length faddr)%nat ->
     exists allgptr,
       Uint64 faddr = Some allgptr /\
       GoroutinesInfo p =
         match allg_loop (Z.to_nat allglen) 0 (CurrentThread p) allgptr
                 (threadg_of p) (tracee p) None with
         | Err e => Done (Err e) p
         | Ok allg => Done (Ok allg) (set_allGCache allg p)
         end).
Proof.
  intros Hcache Hlen Hentry Hread.
  rewrite (GoroutinesInfo_fresh p Hcache), Hlen.
  unfold allgptr_of. rewrite Hentry, Hread. split.
  - intros Hshort. rewrite (Uint64_short faddr Hshort). reflexivity.
  - intros Hlong. destruct (Uint64_long faddr Hlong) as [ptr Hptr].
    exists ptr. rewrite Hptr. split; reflexivity.
Qed.

Lemma append_G_live (allg : option (list G)) (g : G) :
  (forall x, x ∈ default [] allg -> Status x <> Gdead) ->
  Status g <> Gdead ->
  forall x, x ∈ default [] (append_G allg g) -> Status x <> Gdead.
Proof.
  intros Hall Hg x. destruct allg as [l|]; cbn.
  - rewrite elem_of_app, list_elem_of_singleton. intros [Hx| ->]; auto.
  - rewrite list_elem_of_singleton. intros ->. exact Hg.
Qed.

Lemma append_G_nonempty (allg : option (list G)) (g : G) :
  append_G allg g <> Some [].
Proof. destruct allg as [[|x l]|]; cbn; discriminate. Qed.

(** The loop keeps the live goroutines apart from the dead ones, and never
    turns the nil slice into an empty one. *)
Lemma allg_loop_live (cur allgptr : Z) (threadg : gmap Z Z) (w : W) (n : nat) :
  forall (i : Z) (acc r : option (list G)),
    allg_loop n i cur allgptr threadg w acc = Ok r ->
    (forall x, x ∈ default [] acc -> Status x <> Gdead) ->
    acc <> Some [] ->
    (forall x, x ∈ default [] r -> Status x <> Gdead) /\ r <> Some [].
Proof.
  induction n as [|n IH]; intros i acc r Hrun Hacc Hne; cbn [allg_loop] in Hrun.
  - injection Hrun as <-. auto.
  - destruct (parseG cur _ true w) as [g|e]; [|discriminate].
    assert (Hstep : forall g' : G,
      allg_loop n (i + 1) cur allgptr threadg w
        (if Status g' =? Gdead then acc else append_G acc g') = Ok r ->
      (forall x, x ∈ default [] r -> Status x <> Gdead) /\ r <> Some []).
    { intros g' Hg'. destruct (Status g' =? Gdead) eqn:Hd.
      - eapply IH; eauto.
      - apply Z.eqb_neq in Hd. eapply IH; [exact Hg'| |].
        + apply append_G_live; assumption.
        + apply append_G_nonempty. }
    destruct (threadg !! Id g) as [tid|]; [|eauto].
    destruct (Thread_Location tid w) as [loc|e]; [eauto|discriminate].
Qed.

(** When the goroutines of the [n] slots from slot [i] on are dead, the loop
    over these slots adds nothing. *)
Lemma allg_loop_slots_dead (cur allgptr : Z) (threadg : gmap Z Z) (w : W) (n : nat) :
  forall (i : Z) (acc r : option (list G)),
    (forall (j : nat) (g : G), (j < n)%nat ->
       parseG cur (wrap64 (allgptr + wrap64 ((i + Z.of_nat j) * wrap64 PtrSize))) true w
         = Ok g ->
       Status g = Gdead) ->
    allg_loop n i cur allgptr threadg w acc = Ok r -> r = acc.
Proof.
  induction n as [|n IH]; intros i acc r Hdead Hrun; cbn [allg_loop] in Hrun.
  - congruence.
  - assert (Hrest : forall acc', allg_loop n (i + 1) cur allgptr threadg w acc' = Ok r ->
                                 r = acc').
    { intros acc'. apply IH. intros j g Hj.
      replace (i + 1 + Z.of_nat j) with (i + Z.of_nat (S j)) by lia.
      apply Hdead. lia. }
    destruct (parseG cur _ true w) as [g|e] eqn:Hg; [|discriminate].
    assert (Hd : Status g = Gdead).
    { apply (Hdead 0%nat g); [lia|].
      replace (i + Z.of_nat 0) with i by lia. exact Hg. }
    destruct (threadg !! Id g) as [tid|].
    + destruct (Thread_Location tid w) as [loc|e]; [|discriminate].
      cbn [attach_thread Status] in Hrun. rewrite Hd, Z.eqb_refl in Hrun. auto.
    + rewrite Hd, Z.eqb_refl in Hrun. auto.
Qed.

(** C7 (as amended).  With a cache that holds no dead goroutine,
    [GoroutinesInfo] returns no dead goroutine and leaves such a cache.  An
    enumeration (nil cache) stores what it returns, and when it has no live
    goroutine to return -- the count is zero, or the goroutine of every
    slot it enumerates, slots [0 .. allglen - 1] of the array, is dead -- it
    returns the nil slice, not an empty non-nil list, and the cache stays
    nil. *)
Theorem GoroutinesInfo_skips_dead (p p' : Process) (r : option (list G)) :
  cache_live p ->
  GoroutinesInfo p = Done (Ok r) p' ->
  (forall g, g ∈ default [] r -> Status g <> Gdead) /\
  cache_live p' /\
  (allGCache p = None ->
     allGCache p' = r /\
     (default [] r = [] -> r = None) /\
     (allglen_of p = Some (Ok 0) -> r = None) /\
     (forall allglen allgptr,
        allglen_of p = Some (Ok allglen) ->
        allgptr_of p = Some (Ok allgptr) ->
        (forall (i : nat) (g : G), (i < Z.to_nat allglen)%nat ->
           parseG (CurrentThread p)
             (wrap64 (allgptr + wrap64 (Z.of_nat i * wrap64 PtrSize))) true (tracee p)
             = Ok g ->
           Status g = Gdead) ->
        r = None)).
Proof.
  intros Hlive Hrun. destruct (allGCache p) as [l|] eqn:Hcache.
  - rewrite (GoroutinesInfo_cached p l Hcache) in Hrun.
    injection Hrun as <- <-. split; [|split].
    + intros g Hg. exact (Hlive l g Hcache Hg).
    + exact Hlive.
    + discriminate.
  - rewrite (GoroutinesInfo_fresh p Hcache) in Hrun.
    destruct (allglen_of p) as [[n|e]|] eqn:Hn; try discriminate.
    destruct (allgptr_of p) as [[ptr|e]|] eqn:Hptr; try discriminate.
    destruct (allg_loop _ _ _ _ _ _ _) as [allg|e] eqn:Hloop; [|discriminate].
    injection Hrun as <- <-.
    destruct (allg_loop_live _ _ _ _ _ _ _ _ Hloop) as [Hall Hne].
    { cbn. intros x Hx. by apply elem_of_nil in Hx. }
    { discriminate. }
    split; [exact Hall|]. split.
    + intros l g Hl Hg. cbn in Hl. subst allg. exact (Hall g Hg).
    + intros _. split; [reflexivity|]. split; [|split].
      * intros Hempty. destruct allg as [[|x l]|]; [congruence|discriminate|reflexivity].
      * intros H0. injection H0 as ->. cbn [Z.to_nat allg_loop] in Hloop.
        injection Hloop as <-. reflexivity.
      * intros allglen allgptr [= <-] [= <-] Hdead.
        refine (allg_loop_slots_dead _ _ _ _ _ _ _ _ _ Hloop).
        intros j g Hj. rewrite Z.add_0_l. apply Hdead. exact Hj.
Qed.

(** ** SwitchGoroutine *)

(** [FindGoroutine] changes nothing but, possibly, the cache. *)
Lemma FindGoroutine_frame (gid : Z) (p p1 : Process) (r : result (option G)) :
  FindGoroutine gid p = Done r p1 ->
  CurrentThread p1 = CurrentThread p /\
  SelectedGoroutine p1 = SelectedGoroutine p /\
  Threads p1 = Threads p /\ tracee p1 = tracee p.
Proof.
  unfold FindGoroutine, mbind, M_bind, bind, get.
  destruct (gid =? -1).
  - intros [= <- <-]. auto.
  - destruct (allGCache p) as [l|] eqn:Hcache.
    + rewrite (GoroutinesInfo_cached p l Hcache).
      destruct (List.find _ _); intros [= <- <-]; auto.
    + rewrite (GoroutinesInfo_fresh p Hcache).
      destruct (allglen_of p) as [[n|e]|]; try discriminate;
        [|intros [= <- <-]; auto].
      destruct (allgptr_of p) as [[ptr|e]|]; try discriminate;
        [|intros [= <- <-]; auto].
      destruct (allg_loop _ _ _ _ _ _ _) as [allg|e]; [|intros [= <- <-]; auto].
      destruct (List.find _ _); intros [= <- <-]; auto.
Qed.

Lemma set_SelectedGoroutine_same (p : Process) :
  set_SelectedGoroutine (SelectedGoroutine p) p = p.
Proof. destruct p. reflexivity. Qed.

(** C5 (as amended).  [SwitchGoroutine gid]:
    - with [gid = -1] it is a no-op when no goroutine is selected, and when
      the selected goroutine has no backing thread;
    - when the goroutine it resolves (for [gid = -1], the selected one) is
      bound to a thread, it is [SwitchThread] on that thread's id;
    - when the goroutine it resolves has no backing thread, it stores that
      goroutine in [SelectedGoroutine] and returns, and [CurrentThread] is
      what it was. *)
Theorem SwitchGoroutine_cases (gid : Z) (p : Process) :
  (gid = -1 -> SelectedGoroutine p = None -> SwitchGoroutine gid p = Done (Ok tt) p) /\
  (forall g, gid = -1 -> SelectedGoroutine p = Some g -> thread g = None ->
     SwitchGoroutine gid p = Done (Ok tt) p) /\
  (forall g tid p1, FindGoroutine gid p = Done (Ok (Some g)) p1 ->
     thread g = Some tid ->
     SwitchGoroutine gid p = SwitchThread tid p1) /\
  (forall g p1, FindGoroutine gid p = Done (Ok (Some g)) p1 ->
     thread g = None ->
     SwitchGoroutine gid p = Done (Ok tt) (set_SelectedGoroutine (Some g) p1) /\
     CurrentThread (set_SelectedGoroutine (Some g) p1) = CurrentThread p).
Proof.
  split; [|split; [|split]].
  - intros -> Hsel. unfold SwitchGoroutine, FindGoroutine, mbind, M_bind, bind, get.
    cbn. rewrite Hsel. reflexivity.
  - intros g -> Hsel Hth. unfold SwitchGoroutine, FindGoroutine, mbind, M_bind, bind, get.
    cbn. rewrite Hsel, Hth. unfold modify. rewrite <- Hsel.
    rewrite set_SelectedGoroutine_same. reflexivity.
  - intros g tid p1 Hfind Hth. unfold SwitchGoroutine, mbind, M_bind, bind.
    rewrite Hfind, Hth. reflexivity.
  - intros g p1 Hfind Hth. split.
    + unfold SwitchGoroutine, mbind, M_bind, bind. rewrite Hfind, Hth. reflexivity.
    + cbn. exact (proj1 (FindGoroutine_frame gid p p1 _ Hfind)).
Qed.

(** ** The conditions of a stop *)

Lemma evaluate_condition_idemp (w : W) (k : Z) (th : Thread) :
  evaluate_condition w k (evaluate_condition w k th) = evaluate_condition w k th.
Proof.
  unfold evaluate_condition. destruct (CurrentBreakpoint th) as [bp|] eqn:Hbp; cbn.
  - rewrite Hbp. reflexivity.
  - rewrite Hbp. reflexivity.
Qed.

Lemma evaluate_condition_breakpoint (w : W) (k : Z) (th : Thread) :
  CurrentBreakpoint (evaluate_condition w k th) = CurrentBreakpoint th.
Proof.
  unfold evaluate_condition.
  destruct (CurrentBreakpoint th) as [bp|] eqn:Hbp; cbn; exact Hbp.
Qed.

(** The table of threads after the loop: the threads whose key was visited
    have had their condition evaluated. *)
Lemma conditions_loop_threads (w : W) (ks : list Z) :
  forall (ths : gmap Z Thread) (tr te : option Z) (k : Z),
    (conditions_loop ks w ths tr te).1.1 !! k =
      if bool_decide (k ∈ ks) then evaluate_condition w k <$> ths !! k else ths !! k.
Proof.
  induction ks as [|k0 ks IH]; intros ths tr te k.
  - cbn. reflexivity.
  - assert (Hstep : forall ths1 tr1 te1,
      ths1 !! k0 = evaluate_condition w k0 <$> ths !! k0 ->
      (forall j, j <> k0 -> ths1 !! j = ths !! j) ->
      (conditions_loop ks w ths1 tr1 te1).1.1 !! k =
        if bool_decide (k ∈ k0 :: ks)
        then evaluate_condition w k <$> ths !! k else ths !! k).
    { intros ths1 tr1 te1 H0 Hother. rewrite IH.
      destruct (decide (k = k0)) as [->|Hne].
      - rewrite (bool_decide_eq_true_2 (k0 ∈ k0 :: ks)) by (apply elem_of_cons; auto).
        rewrite H0. case_bool_decide; [|reflexivity].
        destruct (ths !! k0) as [th|]; cbn; [|reflexivity].
        rewrite evaluate_condition_idemp. reflexivity.
      - rewrite (Hother k Hne).
        assert (Hiff : k ∈ k0 :: ks <-> k ∈ ks).
        { rewrite elem_of_cons. tauto. }
        repeat case_bool_decide; tauto. }
    cbn [conditions_loop].
    destruct (ths !! k0) as [th|] eqn:Hk0.
    + destruct (CurrentBreakpoint th) as [bp|] eqn:Hbp.
      * assert (Heval : <[k0:=set_BreakpointConditionMet (checkCondition bp k0 w) th]> ths !! k0
                        = evaluate_condition w k0 <$> Some th).
        { rewrite lookup_insert_eq. cbn. unfold evaluate_condition.
          rewrite Hbp. reflexivity. }
        assert (Hother : forall j, j <> k0 ->
                  <[k0:=set_BreakpointConditionMet (checkCondition bp k0 w) th]> ths !! j
                  = ths !! j).
        { intros j Hj. apply lookup_insert_ne. congruence. }
        destruct (onTriggeredBreakpoint _); [destruct (onTriggeredTempBreakpoint _)|];
          apply Hstep; assumption.
      * apply Hstep; [|reflexivity].
        rewrite Hk0. cbn. unfold evaluate_condition. rewrite Hbp. reflexivity.
    + apply Hstep; [|reflexivity]. rewrite Hk0. reflexivity.
Qed.

Lemma onTriggeredTemp_triggered (th : Thread) :
  onTriggeredTempBreakpoint th = true -> onTriggeredBreakpoint th = true.
Proof.
  unfold onTriggeredTempBreakpoint, onTriggeredBreakpoint.
  destruct (CurrentBreakpoint th); [|discriminate].
  intros H. apply andb_true_iff in H. tauto.
Qed.

(** The threads the loop remembers are on a triggered breakpoint when the
    loop ends. *)
Lemma conditions_loop_picks (w : W) (ks : list Z) :
  forall (ths : gmap Z Thread) (tr te : option Z),
    (forall t, (conditions_loop ks w ths tr te).2 = Some t ->
       te = Some t \/
       exists th, (conditions_loop ks w ths tr te).1.1 !! t = Some th /\
                  onTriggeredTempBreakpoint th = true) /\
    (forall t, (conditions_loop ks w ths tr te).1.2 = Some t ->
       tr = Some t \/
       exists th, (conditions_loop ks w ths tr te).1.1 !! t = Some th /\
                  onTriggeredBreakpoint th = true).
Proof.
  induction ks as [|k0 ks IH]; intros ths tr te.
  - cbn. auto.
  - cbn [conditions_loop].
    destruct (ths !! k0) as [th|] eqn:Hk0; [|apply IH].
    destruct (CurrentBreakpoint th) as [bp|] eqn:Hbp; [|apply IH].
    set (th' := set_BreakpointConditionMet (checkCondition bp k0 w) th).
    assert (Hth' : evaluate_condition w k0 th' = th').
    { replace th' with (evaluate_condition w k0 th).
      - apply evaluate_condition_idemp.
      - unfold evaluate_condition. rewrite Hbp. reflexivity. }
    assert (Hkept : forall tr1 te1,
      (conditions_loop ks w (<[k0:=th']> ths) tr1 te1).1.1 !! k0 = Some th').
    { intros tr1 te1. rewrite conditions_loop_threads, lookup_insert_eq. cbn.
      rewrite Hth'. case_bool_decide; reflexivity. }
    destruct (onTriggeredBreakpoint th') eqn:Htrig; [|apply IH].
    destruct (onTriggeredTempBreakpoint th') eqn:Htemp.
    + destruct (IH (<[k0:=th']> ths) tr
                 (match te with None => Some k0 | Some _ => te end)) as [IHte IHtr].
      split; [|exact IHtr].
      intros t Ht. destruct (IHte t Ht) as [Hprev|Hnew]; [|auto].
      destruct te as [t0|]; [auto|].
      injection Hprev as <-. right. exists th'. auto.
    + destruct (IH (<[k0:=th']> ths)
                 (match tr with None => Some k0 | Some _ => tr end) te) as [IHte IHtr].
      split; [exact IHte|].
      intros t Ht. destruct (IHtr t Ht) as [Hprev|Hnew]; [|auto].
      destruct tr as [t0|]; [auto|].
      injection Hprev as <-. right. exists th'. auto.
Qed.

Lemma SwitchThread_unfold (tid : Z) (p : Process) :
  SwitchThread tid p =
    match Threads p !! tid with
    | Some _ =>
        Done (Ok tt)
          (set_SelectedGoroutine
             (match GetG tid (tracee p) with Ok g => Some g | Err _ => None end)
             (set_CurrentThread tid p))
    | None => Done (Err (Errorf "thread %d does not exist" [ArgInt tid])) p
    end.
Proof.
  unfold SwitchThread, mbind, M_bind, bind, get.
  destruct (Threads p !! tid); [|reflexivity]. cbn.
  destruct (GetG tid (tracee p)); reflexivity.
Qed.

(** What [runBreakpointConditions] leaves when it returns nil: every thread
    has had its condition evaluated, nothing else of the tables has changed,
    and the current thread either is the one it was or is a thread on a
    triggered breakpoint. *)
Lemma runBreakpointConditions_ok (q1 q : Process) :
  runBreakpointConditions q1 = Done (Ok tt) q ->
  (forall k, Threads q !! k = evaluate_condition (tracee q1) k <$> Threads q1 !! k) /\
  tracee q = tracee q1 /\
  Breakpoints q = Breakpoints q1 /\
  halt q = halt q1 /\
  (CurrentThread q = CurrentThread q1 \/
   exists th, Threads q !! CurrentThread q = Some th /\
              onTriggeredBreakpoint th = true).
Proof.
  unfold runBreakpointConditions, mbind, M_bind, bind, get.
  pose proof (conditions_loop_threads (tracee q1) (range_keys (Threads q1))
                (Threads q1) None None) as Hths.
  pose proof (conditions_loop_picks (tracee q1) (range_keys (Threads q1))
                (Threads q1) None None) as [Hte Htr].
  destruct (conditions_loop _ _ _ _ _) as [[ths tr] te]. cbn [fst snd] in *.
  assert (Hall : forall k, ths !! k = evaluate_condition (tracee q1) k <$> Threads q1 !! k).
  { intros k. rewrite Hths. case_bool_decide as Hin; [reflexivity|].
    rewrite range_keys_elem in Hin.
    destruct (Threads q1 !! k) eqn:Hk; [|reflexivity].
    exfalso. apply Hin. eauto. }
  unfold deref. simpl.
  destruct te as [t|]; simpl.
  - destruct (ths !! CurrentThread q1) as [cth|]; [|simpl; intros Hp; discriminate Hp].
    destruct (onTriggeredTempBreakpoint cth); simpl.
    + intros [= <-]. simpl. auto 10.
    + rewrite SwitchThread_unfold. simpl.
      destruct (Hte t eq_refl) as [?|[th [Ht Htemp]]]; [done|].
      rewrite Ht. intros [= <-]. simpl. repeat split; auto.
      right. exists th. split; [exact Ht|].
      apply onTriggeredTemp_triggered. exact Htemp.
  - destruct tr as [t|]; simpl.
    + destruct (ths !! CurrentThread q1) as [cth|]; [|simpl; intros Hp; discriminate Hp].
      destruct (onTriggeredBreakpoint cth); simpl.
      * intros [= <-]. simpl. auto 10.
      * rewrite SwitchThread_unfold. simpl.
        destruct (Htr t eq_refl) as [?|[th [Ht Htrig]]]; [done|].
        rewrite Ht. intros [= <-]. simpl. repeat split; auto.
        right. exists th. auto.
    + intros [= <-]. simpl. auto 10.
Qed.

(** A check that decides [table_keyed] on a given table. *)
Lemma table_keyed_check (p : Process) :
  forallb (fun e : Z * Breakpoint => Addr e.2 =? e.1) (map_to_list (Breakpoints p)) = true ->
  table_keyed p.
Proof.
  intros Hall a bp Ha. rewrite forallb_forall in Hall.
  apply elem_of_map_to_list, list_elem_of_In in Ha.
  apply Hall in Ha. apply Z.eqb_eq in Ha. exact Ha.
Qed.

(** A check that decides that no latched thread meets its condition. *)
Lemma conditions_false_check (q1 : Process) :
  forallb (fun e : Z * Thread =>
             match CurrentBreakpoint e.2 with
             | Some bp => negb (checkCondition bp e.1 (tracee q1))
             | None => true
             end) (map_to_list (Threads q1)) = true ->
  forall k th bp, Threads q1 !! k = Some th ->
    CurrentBreakpoint th = Some bp ->
    checkCondition bp k (tracee q1) = false.
Proof.
  intros Hall k th bp Hk Hbp. rewrite forallb_forall in Hall.
  apply elem_of_map_to_list, list_elem_of_In in Hk.
  apply Hall in Hk. simpl in Hk. rewrite Hbp in Hk.
  apply negb_true_iff in Hk. exact Hk.
Qed.

(** ** Clearing the temporary breakpoints *)

(** The first loop of [clearTempBreakpoints], over any list of keys: it only
    deletes entries, it deletes every temporary breakpoint whose key it
    visits, and it keeps the others. *)
Lemma clear_loop_ok (ks : list Z) :
  forall (p p' : Process) (r : option unit),
    for_keys Breakpoints ks clear_if_temp p = Done (Ok r) p' ->
    table_keyed p ->
    Threads p' = Threads p /\ CurrentThread p' = CurrentThread p /\
    halt p' = halt p /\
    (forall a bp, Breakpoints p' !! a = Some bp -> Breakpoints p !! a = Some bp) /\
    (forall a bp, a ∈ ks -> Breakpoints p' !! a = Some bp -> Temp bp = false) /\
    (forall a bp, Breakpoints p !! a = Some bp -> Temp bp = false ->
       Breakpoints p' !! a = Some bp).
Proof.
  induction ks as [|k0 ks IH]; intros p p' r Hrun Hkeyed.
  - cbn in Hrun. injection Hrun as <- <-. repeat split; auto.
    intros a bp Ha. by apply elem_of_nil in Ha.
  - cbn [for_keys] in Hrun. unfold mbind, M_bind, bind, get in Hrun.
    destruct (Breakpoints p !! k0) as [bp0|] eqn:Hk0.
    + unfold clear_if_temp in Hrun at 1.
      destruct (Temp bp0) eqn:Ht0; simpl in Hrun.
      * unfold mbind, M_bind, bind in Hrun.
        assert (Hfound : is_Some (FindBreakpoint p (Addr bp0))).
        { unfold FindBreakpoint. rewrite (Hkeyed k0 bp0 Hk0), Hk0.
          destruct (Breakpoints p !! wrap64 (k0 - wrap64 BreakpointSize));
            eexists; reflexivity. }
        destruct Hfound as [bpf Hfound].
        rewrite (ClearBreakpoint_found p (Addr bp0) bpf Hfound) in Hrun.
        destruct (Breakpoint_Clear bpf (CurrentThread p) (tracee p)) as [[e|] w];
          [discriminate Hrun|].
        simpl in Hrun. rewrite (Hkeyed k0 bp0 Hk0) in Hrun.
        apply IH in Hrun as (HT & HC & HH & Hsub & Hvis & Hkeep).
        2:{ intros a bp Ha. simpl in Ha. apply lookup_delete_Some in Ha as [_ Ha].
            exact (Hkeyed a bp Ha). }
        simpl in *. repeat split; auto.
        -- intros a bp Ha. apply Hsub in Ha.
           apply lookup_delete_Some in Ha as [_ Ha]. exact Ha.
        -- intros a bp Ha Hp'. apply elem_of_cons in Ha as [->|Ha]; [|eauto].
           apply Hsub in Hp'. rewrite lookup_delete_eq in Hp'. discriminate Hp'.
        -- intros a bp Ha Hnt. apply Hkeep; [|exact Hnt].
           apply lookup_delete_Some. split; [|exact Ha].
           intros <-. congruence.
      * apply IH in Hrun as (HT & HC & HH & Hsub & Hvis & Hkeep); [|exact Hkeyed].
        repeat split; auto.
        intros a bp Ha Hp'. apply elem_of_cons in Ha as [->|Ha]; [|eauto].
        apply Hsub in Hp'. congruence.
    + apply IH in Hrun as (HT & HC & HH & Hsub & Hvis & Hkeep); [|exact Hkeyed].
      repeat split; auto.
      intros a bp Ha Hp'. apply elem_of_cons in Ha as [->|Ha]; [|eauto].
      apply Hsub in Hp'. congruence.
Qed.

(** When [clearTempBreakpoints] returns nil on a table keyed by address, no
    temporary breakpoint is left, the other breakpoints are all there, and
    the threads latched on a temporary breakpoint are unlatched. *)
Lemma clearTempBreakpoints_ok (q p' : Process) :
  clearTempBreakpoints q = Done (Ok tt) p' ->
  table_keyed q ->
  no_temp p' /\
  (forall a bp, Breakpoints q !! a = Some bp -> Temp bp = false ->
     Breakpoints p' !! a = Some bp) /\
  Threads p' = unlatch_temp <$> Threads q /\
  CurrentThread p' = CurrentThread q /\ halt p' = halt q.
Proof.
  unfold clearTempBreakpoints, range, mbind, M_bind, bind, get.
  destruct (for_keys Breakpoints (range_keys (Breakpoints q)) clear_if_temp q)
    as [[r|e] p1| |] eqn:Hloop; try discriminate.
  simpl. intros [= <-] Hkeyed.
  destruct (clear_loop_ok _ _ _ _ Hloop Hkeyed) as (HT & HC & HH & Hsub & Hvis & Hkeep).
  simpl. rewrite HT. repeat split; auto.
  intros a bp Ha. simpl in Ha. apply (Hvis a bp); [|exact Ha].
  apply range_keys_elem. apply Hsub in Ha. eauto.
Qed.

Lemma ClearBreakpoint_threads (addr : Z) (p p' : Process) (r : result Breakpoint) :
  ClearBreakpoint addr p = Done r p' ->
  Threads p' = Threads p /\ CurrentThread p' = CurrentThread p.
Proof.
  destruct (FindBreakpoint p addr) as [bp|] eqn:Hfind.
  - rewrite (ClearBreakpoint_found p addr bp Hfind).
    destruct (Breakpoint_Clear bp (CurrentThread p) (tracee p)) as [[e|] w];
      intros [= <- <-]; auto.
  - rewrite (ClearBreakpoint_absent p addr Hfind). intros [= <- <-]. auto.
Qed.

Lemma clear_loop_threads (ks : list Z) :
  forall (p p' : Process) (r : result (option unit)),
    for_keys Breakpoints ks clear_if_temp p = Done r p' ->
    Threads p' = Threads p /\ CurrentThread p' = CurrentThread p.
Proof.
  induction ks as [|k0 ks IH]; intros p p' r Hrun.
  - cbn in Hrun. injection Hrun as <- <-. auto.
  - cbn [for_keys] in Hrun. unfold mbind, M_bind, bind, get in Hrun.
    destruct (Breakpoints p !! k0) as [bp0|]; [|eauto].
    unfold clear_if_temp in Hrun at 1.
    destruct (Temp bp0); simpl in Hrun; [|eauto].
    unfold mbind, M_bind, bind in Hrun.
    destruct (ClearBreakpoint (Addr bp0) p) as [[bp|e] p1| |] eqn:Hclear;
      try discriminate Hrun.
    + destruct (ClearBreakpoint_threads _ _ _ _ Hclear) as [HT HC].
      simpl in Hrun. apply IH in Hrun as [HT' HC']. split; congruence.
    + injection Hrun as <- <-. exact (ClearBreakpoint_threads _ _ _ _ Hclear).
Qed.

(** Whatever the table, a [clearTempBreakpoints] that returns nil has
    unlatched the threads that were on a temporary breakpoint. *)
Lemma clearTempBreakpoints_threads (q p' : Process) :
  clearTempBreakpoints q = Done (Ok tt) p' ->
  Threads p' = unlatch_temp <$> Threads q /\ CurrentThread p' = CurrentThread q.
Proof.
  unfold clearTempBreakpoints, range, mbind, M_bind, bind, get.
  destruct (for_keys Breakpoints (range_keys (Breakpoints q)) clear_if_temp q)
    as [[r|e] p1| |] eqn:Hloop; try discriminate.
  simpl. intros [= <-]. simpl.
  destruct (clear_loop_threads _ _ _ _ Hloop) as [HT HC].
  rewrite HT. auto.
Qed.

Lemma omap_lookup_delete (m : gmap Z Breakpoint) (k0 : Z) (ks : list Z) :
  k0 ∉ ks ->
  omap (fun k => delete k0 m !! k) ks = omap (fun k => m !! k) ks.
Proof.
  induction ks as [|k ks IH]; intros Hnot; [reflexivity|].
  apply not_elem_of_cons in Hnot as [Hne Hnot]. cbn [omap list_omap].
  rewrite lookup_delete_ne by congruence. rewrite (IH Hnot). reflexivity.
Qed.

(** The first loop of [clearTempBreakpoints] as the tracee sees it, over
    keys that are all different: on a table keyed by address in which no
    breakpoint lies one trap below a temporary one, [Breakpoint.Clear] is
    called on each temporary breakpoint the loop comes to, itself, in that
    order, and on nothing else. *)
Lemma clear_loop_tracee (ks : list Z) :
  forall (p p' : Process) (r : option unit),
    NoDup ks ->
    for_keys Breakpoints ks clear_if_temp p = Done (Ok r) p' ->
    table_keyed p ->
    temps_unshadowed p ->
    clear_each (CurrentThread p)
      (filter (fun bp : Breakpoint => Temp bp = true)
         (omap (fun k => Breakpoints p !! k) ks))
      (tracee p) = Some (tracee p').
Proof.
  induction ks as [|k0 ks IH]; intros p p' r Hnd Hrun Hkeyed Hfree.
  - cbn in Hrun. injection Hrun as <- <-. reflexivity.
  - apply NoDup_cons in Hnd as [Hnot Hnd].
    cbn [for_keys] in Hrun. unfold mbind, M_bind, bind, get in Hrun.
    cbn [omap list_omap].
    destruct (Breakpoints p !! k0) as [bp0|] eqn:Hk0; [|eauto].
    rewrite filter_cons. unfold clear_if_temp in Hrun at 1.
    destruct (Temp bp0) eqn:Ht; simpl in Hrun.
    + rewrite decide_True by reflexivity.
      assert (Hfound : FindBreakpoint p (Addr bp0) = Some bp0).
      { rewrite (Hkeyed k0 bp0 Hk0). unfold FindBreakpoint.
        rewrite (Hfree k0 bp0 Hk0 Ht). exact Hk0. }
      unfold mbind, M_bind, bind in Hrun.
      rewrite (ClearBreakpoint_found p (Addr bp0) bp0 Hfound) in Hrun.
      cbn [clear_each].
      destruct (Breakpoint_Clear bp0 (CurrentThread p) (tracee p)) as [[e|] w];
        [discriminate Hrun|].
      simpl in Hrun. rewrite (Hkeyed k0 bp0 Hk0) in Hrun.
      apply IH in Hrun; [|exact Hnd| |].
      * simpl in Hrun. rewrite (omap_lookup_delete _ _ _ Hnot) in Hrun. exact Hrun.
      * intros a bp Ha. simpl in Ha. apply lookup_delete_Some in Ha as [_ Ha].
        exact (Hkeyed a bp Ha).
      * intros a bp Ha Hta. simpl in Ha |- *. apply lookup_delete_Some in Ha as [_ Ha].
        apply lookup_delete_None. right. exact (Hfree a bp Ha Hta).
    + rewrite decide_False by discriminate. eauto.
Qed.

Lemma range_keys_NoDup {A : Type} (m : gmap Z A) : NoDup (range_keys m).
Proof.
  rewrite (range_keys_perm A m). apply NoDup_fst_map_to_list.
Qed.

(** [clearTempBreakpoints], on such a table: when it returns nil, the tracee
    is the one [Breakpoint.Clear] leaves after it was called on every
    temporary breakpoint of the table. *)
Lemma clearTempBreakpoints_clears (q p' : Process) :
  clearTempBreakpoints q = Done (Ok tt) p' ->
  table_keyed q ->
  temps_unshadowed q ->
  clear_each (CurrentThread q) (temps_in_order q) (tracee q) = Some (tracee p').
Proof.
  unfold clearTempBreakpoints, range, mbind, M_bind, bind, get.
  destruct (for_keys Breakpoints (range_keys (Breakpoints q)) clear_if_temp q)
    as [[r|e] p1| |] eqn:Hloop; try discriminate.
  simpl. intros [= <-] Hkeyed Hfree. simpl.
  exact (clear_loop_tracee _ _ _ _ (range_keys_NoDup _) Hloop Hkeyed Hfree).
Qed.

(** ** Continue *)

Lemma Continue_unfold (n : nat) (p : Process) :
  Continue (S n) p =
    match continueOnce p with
    | Done (Ok _) q1 =>
        match Threads q1 !! CurrentThread q1 with
        | None => Panic
        | Some c1 =>
            match runBreakpointConditions q1 with
            | Done (Ok _) q =>
                match Threads q !! CurrentThread q with
                | None => Panic
                | Some c =>
                    if onTriggeredBreakpoint c then
                      if onTriggeredTempBreakpoint c
                      then clearTempBreakpoints q
                      else Done (Ok tt) q
                    else if bool_decide (CurrentBreakpoint c1 = None)
                         then Done (Ok tt) q
                         else Continue n q
                end
            | Done (Err e) q => Done (Err e) q
            | Panic => Panic
            | OutOfFuel => OutOfFuel
            end
        end
    | Done (Err e) q1 => Done (Err e) q1
    | Panic => Panic
    | OutOfFuel => OutOfFuel
    end.
Proof.
  cbn [Continue]. unfold mbind, M_bind, bind, get, deref.
  destruct (continueOnce p) as [[[]|e] q1| |]; try reflexivity.
  destruct (Threads q1 !! CurrentThread q1) as [c1|]; [|reflexivity].
  destruct (runBreakpointConditions q1) as [[[]|e] q| |]; try reflexivity.
  destruct (Threads q !! CurrentThread q) as [c|]; [|reflexivity].
  destruct (onTriggeredBreakpoint c).
  - destruct (onTriggeredTempBreakpoint c); reflexivity.
  - destruct (bool_decide (CurrentBreakpoint c1 = None)); reflexivity.
Qed.

(** The round in which [Continue] returns nil: the stop [q1] that
    [continueOnce] produced, the process [q] after the conditions were
    evaluated, and the branch of the loop that returned. *)
Lemma Continue_last_round (fuel : nat) :
  forall p p' : Process,
    Continue fuel p = Done (Ok tt) p' ->
    exists (p0 q1 q : Process) (c1 c : Thread),
      continueOnce p0 = Done (Ok tt) q1 /\
      Threads q1 !! CurrentThread q1 = Some c1 /\
      runBreakpointConditions q1 = Done (Ok tt) q /\
      Threads q !! CurrentThread q = Some c /\
      (if onTriggeredBreakpoint c then
         if onTriggeredTempBreakpoint c
         then clearTempBreakpoints q = Done (Ok tt) p'
         else p' = q
       else CurrentBreakpoint c1 = None /\ p' = q).
Proof.
  induction fuel as [|n IH]; intros p p' Hrun; [discriminate Hrun|].
  rewrite Continue_unfold in Hrun.
  destruct (continueOnce p) as [[[]|e] q1| |] eqn:Honce; try discriminate Hrun.
  destruct (Threads q1 !! CurrentThread q1) as [c1|] eqn:Hc1; [|discriminate Hrun].
  destruct (runBreakpointConditions q1) as [[[]|e] q| |] eqn:Hcond;
    try discriminate Hrun.
  destruct (Threads q !! CurrentThread q) as [c|] eqn:Hc; [|discriminate Hrun].
  destruct (onTriggeredBreakpoint c) eqn:Htrig.
  - exists p, q1, q, c1, c. rewrite Htrig.
    destruct (onTriggeredTempBreakpoint c); repeat split; auto. congruence.
  - case_bool_decide as Hnil.
    + exists p, q1, q, c1, c. rewrite Htrig. repeat split; auto. congruence.
    + exact (IH q p' Hrun).
Qed.

(** A stop at which no thread is on a triggered breakpoint: the conditions
    are stored, and the current thread stays. *)
Lemma runBreakpointConditions_quiet (q1 : Process) :
  (forall k th, Threads q1 !! k = Some th ->
     onTriggeredBreakpoint (evaluate_condition (tracee q1) k th) = false) ->
  exists ths,
    (forall k, ths !! k = evaluate_condition (tracee q1) k <$> Threads q1 !! k) /\
    runBreakpointConditions q1 = Done (Ok tt) (set_Threads ths q1).
Proof.
  intros Hquiet.
  unfold runBreakpointConditions, mbind, M_bind, bind, get.
  pose proof (conditions_loop_threads (tracee q1) (range_keys (Threads q1))
                (Threads q1) None None) as Hths.
  pose proof (conditions_loop_picks (tracee q1) (range_keys (Threads q1))
                (Threads q1) None None) as [Hte Htr].
  destruct (conditions_loop _ _ _ _ _) as [[ths tr] te]. cbn [fst snd] in *.
  assert (Hall : forall k, ths !! k = evaluate_condition (tracee q1) k <$> Threads q1 !! k).
  { intros k. rewrite Hths. case_bool_decide as Hin; [reflexivity|].
    rewrite range_keys_elem in Hin.
    destruct (Threads q1 !! k) eqn:Hk; [|reflexivity].
    exfalso. apply Hin. eauto. }
  assert (Hnone : forall t th, ths !! t = Some th -> onTriggeredBreakpoint th = false).
  { intros t th Ht. rewrite Hall in Ht.
    destruct (Threads q1 !! t) as [th0|] eqn:Ht0; [|discriminate Ht].
    injection Ht as <-. eauto. }
  exists ths. split; [exact Hall|].
  destruct te as [t|].
  { destruct (Hte t eq_refl) as [Habs|[th [Ht Htemp]]]; [discriminate Habs|].
    apply onTriggeredTemp_triggered in Htemp. rewrite (Hnone t th Ht) in Htemp.
    discriminate Htemp. }
  destruct tr as [t|].
  { destruct (Htr t eq_refl) as [Habs|[th [Ht Htrig]]]; [discriminate Habs|].
    rewrite (Hnone t th Ht) in Htrig. discriminate Htrig. }
  reflexivity.
Qed.

(** C2 (as amended).  When [Continue] returns nil, it does so in a round
    whose stop [q1] came from [continueOnce] and whose conditions were
    evaluated into [q], and with [c] the current thread of [q] one of these
    holds:
    - [c] is latched on a breakpoint whose condition was evaluated and is
      true; if that breakpoint is temporary, [clearTempBreakpoints] has run to
      its end on [q]: the table being keyed by address, no temporary
      breakpoint is left in it, and when moreover no breakpoint lies one trap
      below a temporary one, the tracee is the one [Breakpoint.Clear] leaves
      after it was called on each temporary breakpoint; otherwise [q] is
      returned as it is;
    - the stop carried no breakpoint: the current thread had none after
      [continueOnce], it is still the current thread and still has none.
    In the process returned the current thread is then latched on that
    breakpoint, with its condition met, when the breakpoint is a user
    breakpoint, and has no current breakpoint otherwise (the clearing drops
    the latch on a temporary one).
    And a stop at which the current thread is latched while the condition of
    every latched thread is false returns nothing: [Continue] goes round
    again from the process with the conditions stored. *)
Theorem Continue_returns_or_loops :
  (forall (fuel : nat) (p p' : Process),
     Continue fuel p = Done (Ok tt) p' ->
     exists (p0 q1 q : Process) (c : Thread),
       continueOnce p0 = Done (Ok tt) q1 /\
       runBreakpointConditions q1 = Done (Ok tt) q /\
       Threads q !! CurrentThread q = Some c /\
       ((exists bp,
           CurrentBreakpoint c = Some bp /\
           BreakpointConditionMet c = true /\
           checkCondition bp (CurrentThread q) (tracee q) = true /\
           if Temp bp
           then clearTempBreakpoints q = Done (Ok tt) p' /\
                (table_keyed q -> no_temp p') /\
                (table_keyed q -> temps_unshadowed q ->
                 clear_each (CurrentThread q) (temps_in_order q) (tracee q) =
                   Some (tracee p'))
           else p' = q) \/
        (CurrentBreakpoint c = None /\
         (exists c1, Threads q1 !! CurrentThread q1 = Some c1 /\
                     CurrentBreakpoint c1 = None) /\
         CurrentThread q = CurrentThread q1 /\
         p' = q)) /\
       (exists c', Threads p' !! CurrentThread p' = Some c' /\
          (CurrentBreakpoint c' = None \/
           exists bp, CurrentBreakpoint c' = Some bp /\
                      BreakpointConditionMet c' = true /\
                      Temp bp = false))) /\
  (forall (fuel : nat) (p q1 : Process) (c1 : Thread),
     continueOnce p = Done (Ok tt) q1 ->
     Threads q1 !! CurrentThread q1 = Some c1 ->
     CurrentBreakpoint c1 <> None ->
     (forall k th bp, Threads q1 !! k = Some th ->
        CurrentBreakpoint th = Some bp ->
        checkCondition bp k (tracee q1) = false) ->
     exists q,
       runBreakpointConditions q1 = Done (Ok tt) q /\
       Continue (S fuel) p = Continue fuel q).
Proof.
  split.
  - intros fuel p p' Hrun.
    destruct (Continue_last_round fuel p p' Hrun)
      as (p0 & q1 & q & c1 & c & Honce & Hc1 & Hcond & Hc & Hbranch).
    exists p0, q1, q, c. split; [exact Honce|]. split; [exact Hcond|].
    split; [exact Hc|].
    destruct (runBreakpointConditions_ok q1 q Hcond)
      as (Hths & Htr & Hbps & _ & Hcur).
    pose proof (Hths (CurrentThread q)) as Hlook. rewrite Hc in Hlook.
    destruct (Threads q1 !! CurrentThread q) as [c0|] eqn:Hc0; [|discriminate Hlook].
    injection Hlook as Hceq.
    destruct (onTriggeredBreakpoint c) eqn:Htrig.
    + unfold onTriggeredBreakpoint, onTriggeredTempBreakpoint in *.
      destruct (CurrentBreakpoint c) as [bp|] eqn:Hbp; [|discriminate Htrig].
      assert (Hcheck : checkCondition bp (CurrentThread q) (tracee q) = true).
      { rewrite Htr. rewrite Hceq in Hbp, Htrig.
        rewrite evaluate_condition_breakpoint in Hbp.
        unfold evaluate_condition in Htrig. rewrite Hbp in Htrig. exact Htrig. }
      rewrite Htrig in Hbranch. simpl in Hbranch.
      destruct (Temp bp) eqn:Htemp.
      * split.
        -- left. exists bp. rewrite Htemp. repeat split; auto.
           ++ intros Hkeyed. exact (proj1 (clearTempBreakpoints_ok q p' Hbranch Hkeyed)).
           ++ exact (clearTempBreakpoints_clears q p' Hbranch).
        -- destruct (clearTempBreakpoints_threads q p' Hbranch) as [HT HC].
           exists (unlatch_temp c). rewrite HT, HC, lookup_fmap, Hc. split; [reflexivity|].
           left. unfold unlatch_temp. rewrite Hbp, Htemp. reflexivity.
      * subst p'. split.
        -- left. exists bp. rewrite Htemp. repeat split; auto.
        -- exists c. split; [exact Hc|]. right. exists bp. auto.
    + destruct Hbranch as [Hnil ->].
      destruct Hcur as [Hsame|[th [Hth Habs]]]; [|congruence].
      rewrite Hsame in Hc0. assert (c0 = c1) as -> by congruence.
      assert (Hcnil : CurrentBreakpoint c = None).
      { rewrite Hceq, evaluate_condition_breakpoint. exact Hnil. }
      split.
      * right. repeat split; eauto.
      * exists c. auto.
  - intros fuel p q1 c1 Honce Hc1 Hlatched Hfalse.
    destruct (runBreakpointConditions_quiet q1) as (ths & Hths & Hcond).
    { intros k th Hk. unfold evaluate_condition, onTriggeredBreakpoint.
      destruct (CurrentBreakpoint th) as [bp|] eqn:Hbp; simpl.
      - rewrite Hbp. exact (Hfalse k th bp Hk Hbp).
      - rewrite Hbp. reflexivity. }
    exists (set_Threads ths q1). split; [exact Hcond|].
    rewrite Continue_unfold, Honce, Hc1, Hcond. simpl.
    rewrite Hths, Hc1. simpl.
    destruct (CurrentBreakpoint c1) as [bp|] eqn:Hbp; [|congruence].
    unfold evaluate_condition, onTriggeredBreakpoint. rewrite Hbp. simpl.
    rewrite Hbp, (Hfalse _ c1 bp Hc1 Hbp).
    reflexivity.
Qed.

(** ** Next *)

(** [Continue] returns from its last stop: after clearing the temporary
    breakpoints when the current thread is on a triggered temporary
    breakpoint, at once otherwise. *)
Lemma Continue_from_last_stop (fuel : nat) :
  forall (p q : Process) (c : Thread),
    last_stop fuel p = Some q ->
    Threads q !! CurrentThread q = Some c ->
    Continue fuel p =
      if onTriggeredTempBreakpoint c then clearTempBreakpoints q else Done (Ok tt) q.
Proof.
  induction fuel as [|n IH]; intros p q c Hstop Hc; [discriminate Hstop|].
  cbn [last_stop] in Hstop. rewrite Continue_unfold.
  destruct (continueOnce p) as [[[]|e] q1| |]; try discriminate Hstop.
  destruct (Threads q1 !! CurrentThread q1) as [c1|]; [|discriminate Hstop].
  destruct (runBreakpointConditions q1) as [[[]|e] q'| |]; try discriminate Hstop.
  destruct (Threads q' !! CurrentThread q') as [c'|] eqn:Hc'; [|discriminate Hstop].
  destruct (onTriggeredBreakpoint c') eqn:Htrig; simpl in Hstop.
  - injection Hstop as ->. assert (c' = c) as -> by congruence. reflexivity.
  - destruct (bool_decide (CurrentBreakpoint c1 = None)).
    + injection Hstop as ->. assert (c' = c) as -> by congruence.
      destruct (onTriggeredTempBreakpoint c) eqn:Htemp; [|reflexivity].
      apply onTriggeredTemp_triggered in Htemp. congruence.
    + exact (IH q' q c Hstop Hc).
Qed.

(** Every nil return of [Continue] comes from such a stop. *)
Lemma Continue_nil_last_stop (fuel : nat) :
  forall p p' : Process,
    Continue fuel p = Done (Ok tt) p' ->
    exists q c, last_stop fuel p = Some q /\ Threads q !! CurrentThread q = Some c.
Proof.
  induction fuel as [|n IH]; intros p p' Hrun; [discriminate Hrun|].
  rewrite Continue_unfold in Hrun. cbn [last_stop].
  destruct (continueOnce p) as [[[]|e] q1| |]; try discriminate Hrun.
  destruct (Threads q1 !! CurrentThread q1) as [c1|]; [|discriminate Hrun].
  destruct (runBreakpointConditions q1) as [[[]|e] q| |]; try discriminate Hrun.
  destruct (Threads q !! CurrentThread q) as [c|] eqn:Hc; [|discriminate Hrun].
  destruct (onTriggeredBreakpoint c); simpl; [eauto|].
  destruct (bool_decide (CurrentBreakpoint c1 = None)); eauto.
Qed.


(** ** The halt flag *)

Section Halt.

Context {laws : PlatformKeepsHalt pf}.

Lemma keeps_halt_ret {A} (a : A) : keeps_halt (mret a : M A).
Proof. intros p r p' [= <- <-]. reflexivity. Qed.

Lemma keeps_halt_raise {A} (e : error) : keeps_halt (raise e : M A).
Proof. intros p r p' [= <- <-]. reflexivity. Qed.

Lemma keeps_halt_panic {A} : keeps_halt (panic : M A).
Proof. intros p r p' H. discriminate H. Qed.

Lemma keeps_halt_get : keeps_halt (get : M Process).
Proof. intros p r p' [= <- <-]. reflexivity. Qed.

Lemma keeps_halt_modify (f : Process -> Process) :
  (forall p, halt (f p) = halt p) -> keeps_halt (modify f).
Proof. intros Hf p r p' [= <- <-]. apply Hf. Qed.

Lemma keeps_halt_reads {A} (f : W -> result A) : keeps_halt (reads f).
Proof. intros p r p' [= <- <-]. reflexivity. Qed.

Lemma keeps_halt_acts (f : W -> option error * W) : keeps_halt (acts f).
Proof.
  intros p r p'. unfold acts. destruct (f (tracee p)) as [[e|] w];
    intros [= <- <-]; reflexivity.
Qed.

Lemma keeps_halt_of_result {A} (x : result A) : keeps_halt (of_result x : M A).
Proof. intros p r p' [= <- <-]. reflexivity. Qed.

Lemma keeps_halt_inspect {A} (f : Process -> option (result A)) :
  keeps_halt (inspect f).
Proof.
  intros p r p'. unfold inspect. destruct (f p); [|discriminate].
  intros [= <- <-]. reflexivity.
Qed.

Lemma keeps_halt_or_panic {A} (o : option A) : keeps_halt (or_panic o : M A).
Proof. destruct o; [apply keeps_halt_ret|apply keeps_halt_panic]. Qed.

Lemma keeps_halt_deref (tid : Z) : keeps_halt (deref tid : M Thread).
Proof.
  intros p r p'. unfold deref. destruct (Threads p !! tid); [|discriminate].
  intros [= <- <-]. reflexivity.
Qed.

Lemma keeps_halt_bind {A B} (m : M A) (k : A -> M B) :
  keeps_halt m -> (forall a, keeps_halt (k a)) -> keeps_halt (m ≫= k).
Proof.
  intros Hm Hk p r p'. unfold mbind, M_bind, bind.
  destruct (m p) as [[a|e] p1| |] eqn:Hmp; try discriminate.
  - intros Hka. rewrite (Hk a p1 r p' Hka). exact (Hm p _ p1 Hmp).
  - intros [= <- <-]. exact (Hm p _ p1 Hmp).
Qed.

Lemma keeps_halt_attempt {A} (m : M A) : keeps_halt m -> keeps_halt (attempt m).
Proof.
  intros Hm p r p'. unfold attempt.
  destruct (m p) as [x p1| |] eqn:Hmp; try discriminate.
  intros [= <- <-]. exact (Hm p _ p1 Hmp).
Qed.

Lemma keeps_halt_for_keys {A R} (tbl : Process -> gmap Z A) (ks : list Z)
    (body : Z -> A -> M (option R)) :
  (forall k a, keeps_halt (body k a)) -> keeps_halt (for_keys tbl ks body).
Proof.
  intros Hbody. induction ks as [|k ks IH]; cbn [for_keys].
  - apply keeps_halt_ret.
  - apply keeps_halt_bind; [apply keeps_halt_get|]. intros p.
    destruct (tbl p !! k) as [a|]; [|exact IH].
    apply keeps_halt_bind; [apply Hbody|]. intros [x|]; [apply keeps_halt_ret|exact IH].
Qed.

Lemma keeps_halt_range {A R} (tbl : Process -> gmap Z A)
    (body : Z -> A -> M (option R)) :
  (forall k a, keeps_halt (body k a)) -> keeps_halt (range tbl body).
Proof.
  intros Hbody. unfold range.
  apply keeps_halt_bind; [apply keeps_halt_get|]. intros p.
  apply keeps_halt_for_keys. exact Hbody.
Qed.

(** One step of a proof that a method keeps the flag: through a bind, into a
    branch, or closed by a lemma above or by a law of the platform. *)
Ltac halt_step :=
  first
    [ progress intros
    | match goal with
      | H : context [keeps_halt] |- keeps_halt _ => apply H
      end
    | apply keeps_halt_range
    | apply keeps_halt_for_keys
    | apply keeps_halt_attempt
    | apply keeps_halt_ret
    | apply keeps_halt_raise
    | apply keeps_halt_get
    | apply keeps_halt_reads
    | apply keeps_halt_acts
    | apply keeps_halt_of_result
    | apply keeps_halt_inspect
    | apply keeps_halt_or_panic
    | apply keeps_halt_deref
    | apply keeps_halt_modify; intros; reflexivity
    | apply Thread_Step_halt
    | apply Thread_resume_halt
    | apply Thread_Halt_halt
    | apply SetCurrentBreakpoint_halt
    | apply setNextBreakpoints_halt
    | apply Thread_Scope_halt
    | apply setBreakpoint_halt
    | apply requestManualStop_halt
    | apply trapWait_halt
    | apply setExtraBreakpoints_halt
    | apply exitGuard_halt
    | apply GoroutineStacktrace_halt
    | match goal with
      | |- keeps_halt (match ?x with _ => _ end) => destruct x
      end
    | apply keeps_halt_bind ].

Ltac halt_tac := repeat halt_step.

Lemma ClearBreakpoint_halt (addr : Z) : keeps_halt (ClearBreakpoint addr).
Proof. unfold ClearBreakpoint. halt_tac. Qed.

Lemma clearTempBreakpoints_halt : keeps_halt clearTempBreakpoints.
Proof.
  pose proof ClearBreakpoint_halt.
  unfold clearTempBreakpoints, clear_if_temp. halt_tac.
Qed.

Lemma SetBreakpoint_halt (addr : Z) : keeps_halt (SetBreakpoint addr).
Proof. unfold SetBreakpoint. halt_tac. Qed.

Lemma SetTempBreakpoint_halt (addr : Z) : keeps_halt (SetTempBreakpoint addr).
Proof. unfold SetTempBreakpoint. halt_tac. Qed.

Lemma Halt_halt : keeps_halt Halt.
Proof. unfold Halt. halt_tac. Qed.

Lemma SwitchThread_halt (tid : Z) : keeps_halt (SwitchThread tid).
Proof. unfold SwitchThread. halt_tac. Qed.

Lemma GoroutinesInfo_halt : keeps_halt GoroutinesInfo.
Proof. unfold GoroutinesInfo. halt_tac. Qed.

Lemma FindGoroutine_halt (gid : Z) : keeps_halt (FindGoroutine gid).
Proof. pose proof GoroutinesInfo_halt. unfold FindGoroutine. halt_tac. Qed.

Lemma SwitchGoroutine_halt (gid : Z) : keeps_halt (SwitchGoroutine gid).
Proof.
  pose proof FindGoroutine_halt. pose proof SwitchThread_halt.
  unfold SwitchGoroutine. halt_tac.
Qed.

Lemma run_halt (fn : M unit) : keeps_halt fn -> keeps_halt (run fn).
Proof. intros Hfn. unfold run. halt_tac. Qed.

Lemma wait_for_stop_halt : keeps_halt wait_for_stop.
Proof.
  pose proof Halt_halt. pose proof SwitchThread_halt.
  unfold wait_for_stop. halt_tac.
Qed.

Lemma continueOnce_halt : keeps_halt continueOnce.
Proof.
  pose proof (run_halt _ wait_for_stop_halt).
  unfold continueOnce, update_thread. halt_tac.
Qed.

Lemma runBreakpointConditions_halt : keeps_halt runBreakpointConditions.
Proof. pose proof SwitchThread_halt. unfold runBreakpointConditions. halt_tac. Qed.

Lemma Continue_halt (fuel : nat) : keeps_halt (Continue fuel).
Proof.
  pose proof continueOnce_halt. pose proof runBreakpointConditions_halt.
  pose proof clearTempBreakpoints_halt.
  induction fuel as [|n IH]; cbn [Continue].
  - intros p r p' Hrun. discriminate Hrun.
  - halt_tac.
Qed.

Lemma Step_halt : keeps_halt Step.
Proof. unfold Step. apply run_halt. halt_tac. Qed.

Lemma chan_recv_loop_halt (gs : list G) :
  forall count, keeps_halt (chan_recv_loop gs count).
Proof.
  pose proof SetTempBreakpoint_halt.
  induction gs as [|g gs IH]; intros count; cbn [chan_recv_loop]; halt_tac.
Qed.

Lemma setChanRecvBreakpoints_halt : keeps_halt setChanRecvBreakpoints.
Proof.
  pose proof GoroutinesInfo_halt. pose proof chan_recv_loop_halt.
  unfold setChanRecvBreakpoints. halt_tac.
Qed.

Lemma Next_halt (fuel : nat) : keeps_halt (Next fuel).
Proof.
  pose proof setChanRecvBreakpoints_halt. pose proof clearTempBreakpoints_halt.
  pose proof Continue_halt.
  unfold Next, Next_prepare. halt_tac.
Qed.

Lemma handleBreakpointOnThread_halt (id : Z) : keeps_halt (handleBreakpointOnThread id).
Proof. unfold handleBreakpointOnThread. halt_tac. Qed.

Lemma Detach_halt (kill : bool) : keeps_halt (Detach kill).
Proof.
  pose proof Halt_halt. pose proof ClearBreakpoint_halt.
  unfold Detach. halt_tac.
Qed.

Lemma ConvertEvalScope_halt (gid frame : Z) : keeps_halt (ConvertEvalScope gid frame).
Proof. pose proof FindGoroutine_halt. unfold ConvertEvalScope. halt_tac. Qed.

Lemma state_after_halt {A} (m : M A) (p p' : Process) :
  keeps_halt m -> state_after m p = Some p' -> halt p' = halt p.
Proof.
  intros Hm. unfold state_after. destruct (m p) as [r p1| |] eqn:Hmp; try discriminate.
  intros [= <-]. exact (Hm p r p1 Hmp).
Qed.

(** [RequestManualStop] is the one operation that writes the flag, and it
    writes [true]. *)
Lemma RequestManualStop_sets_halt (p0 p : Process) (r : result unit) :
  RequestManualStop p0 = Done r p -> halt p = true.
Proof.
  unfold RequestManualStop, mbind, M_bind, bind, modify. intros Hrun.
  destruct (requestManualStop (set_halt true p0)) as [[[]|e] p1| |] eqn:Hreq;
    try discriminate Hrun.
  - injection Hrun as <- <-. exact (requestManualStop_halt _ _ _ Hreq).
  - injection Hrun as <- <-. exact (requestManualStop_halt _ _ _ Hreq).
Qed.

(** No operation of the file takes the flag from [true] to [false]. *)
Lemma perform_keeps_halt_set (o : Op) (p p' : Process) :
  perform o p = Some p' -> halt p = true -> halt p' = true.
Proof.
  destruct o; cbn [perform]; intros Hrun Hset.
  2:{ unfold state_after in Hrun.
      destruct (RequestManualStop p) as [r p1| |] eqn:Hreq; try discriminate Hrun.
      injection Hrun as <-. exact (RequestManualStop_sets_halt p p1 r Hreq). }
  all: rewrite <- Hset; eapply state_after_halt; [|exact Hrun].
  - apply Detach_halt.
  - apply SetBreakpoint_halt.
  - apply SetTempBreakpoint_halt.
  - apply ClearBreakpoint_halt.
  - apply Next_halt.
  - apply setChanRecvBreakpoints_halt.
  - apply Continue_halt.
  - apply runBreakpointConditions_halt.
  - apply continueOnce_halt.
  - apply Step_halt.
  - apply SwitchThread_halt.
  - apply SwitchGoroutine_halt.
  - apply GoroutinesInfo_halt.
  - apply Halt_halt.
  - unfold Process_CurrentBreakpoint. halt_tac.
  - unfold Process_PC. halt_tac.
  - apply clearTempBreakpoints_halt.
  - apply handleBreakpointOnThread_halt.
  - apply FindGoroutine_halt.
  - apply ConvertEvalScope_halt.
  - unfold postExit. halt_tac.
Qed.

Lemma perform_all_keeps_halt_set (ops : list Op) :
  forall p p', perform_all ops p = Some p' -> halt p = true -> halt p' = true.
Proof.
  induction ops as [|o ops IH]; intros p p' Hrun Hset; cbn [perform_all] in Hrun.
  - congruence.
  - destruct (perform o p) as [p1|] eqn:Ho; [|discriminate Hrun].
    exact (IH p1 p' Hrun (perform_keeps_halt_set o p p1 Ho Hset)).
Qed.

(** X26.  The statements of [proc.go] write the halt flag once, in
    [RequestManualStop], and write [true].  So, on a platform whose thread and
    platform methods return with the flag as they found it (the hypothesis
    [PlatformKeepsHalt]): after [RequestManualStop] has returned, whatever
    operations of the file follow, the halt flag is true; and in that process
    [handleBreakpointOnThread], for a thread of the table on which
    [SetCurrentBreakpoint] succeeds, returns that thread and no error, also
    when the thread has no current breakpoint. *)
Theorem halt_kept_by_the_file (p0 p p' : Process) (r : result unit) (ops : list Op) :
  RequestManualStop p0 = Done r p ->
  perform_all ops p = Some p' ->
  halt p' = true /\
  (forall (id : Z) (q : Process) (th : Thread),
     is_Some (Threads p' !! id) ->
     SetCurrentBreakpoint id p' = Done (Ok tt) q ->
     Threads q !! id = Some th ->
     CurrentBreakpoint th = None ->
     handleBreakpointOnThread id p' = Done (Ok id) q).
Proof.
  intros Hreq Hops.
  assert (Hhalt : halt p' = true).
  { exact (perform_all_keeps_halt_set ops p p' Hops
             (RequestManualStop_sets_halt p0 p r Hreq)). }
  split; [exact Hhalt|].
  intros id q th [th0 Hid] Hset Hth Hnil.
  unfold handleBreakpointOnThread, mbind, M_bind, bind, get, deref.
  rewrite Hid, Hset, Hth.
  rewrite (SetCurrentBreakpoint_halt id p' _ q Hset), Hhalt.
  rewrite orb_true_r. reflexivity.
Qed.

End Halt.

(** * Further properties of the file *)

(** ** The enumeration of goroutines *)

(** An entry of [threadg] is a thread of the table that is not blocked and
    that runs a goroutine with that id. *)
Lemma threadg_of_entry (p : Process) (gid tid : Z) :
  threadg_of p !! gid = Some tid ->
  is_Some (Threads p !! tid) /\
  blocked tid (tracee p) = false /\
  exists g, GetG tid (tracee p) = Ok g /\ Id g = gid.
Proof.
  unfold threadg_of.
  assert (Hks : forall k, k ∈ range_keys (Threads p) -> is_Some (Threads p !! k)).
  { intros k. apply range_keys_elem. }
  revert Hks. generalize (range_keys (Threads p)) as ks.
  assert (Hgen : forall (ks : list Z) (acc : gmap Z Z),
    (forall k, k ∈ ks -> is_Some (Threads p !! k)) ->
    (forall gid tid, acc !! gid = Some tid ->
       is_Some (Threads p !! tid) /\ blocked tid (tracee p) = false /\
       exists g, GetG tid (tracee p) = Ok g /\ Id g = gid) ->
    forall gid tid,
      foldl (fun (acc : gmap Z Z) (i : Z) =>
               if blocked i (tracee p) then acc
               else match GetG i (tracee p) with
                    | Ok g => <[Id g := i]> acc
                    | Err _ => acc
                    end) acc ks !! gid = Some tid ->
      is_Some (Threads p !! tid) /\ blocked tid (tracee p) = false /\
      exists g, GetG tid (tracee p) = Ok g /\ Id g = gid).
  { induction ks as [|k ks IH]; intros acc Hks Hacc gid' tid'; cbn [foldl].
    - apply Hacc.
    - apply IH.
      + intros k' Hk'. apply Hks. apply elem_of_cons. auto.
      + destruct (blocked k (tracee p)) eqn:Hb; [exact Hacc|].
        destruct (GetG k (tracee p)) as [g|e] eqn:Hg; [|exact Hacc].
        intros gid0 tid0 Hlook.
        destruct (decide (Id g = gid0)) as [<-|Hne].
        * rewrite lookup_insert_eq in Hlook. injection Hlook as <-.
          split; [apply Hks, elem_of_cons; auto|]. split; [exact Hb|]. eauto.
        * rewrite lookup_insert_ne in Hlook by exact Hne. exact (Hacc _ _ Hlook). }
  intros ks Hks. apply Hgen; [exact Hks|].
  intros gid0 tid0 Hempty. rewrite lookup_empty in Hempty. discriminate Hempty.
Qed.

Lemma allg_loop_collect (p : Process) (allgptr : Z) (n : nat) :
  forall (i : Z) (acc : option (list G)),
    allg_loop n i (CurrentThread p) allgptr (threadg_of p) (tracee p) acc =
      match goroutines_from p allgptr n i with
      | Err e => Err e
      | Ok gs => Ok (foldl keep_live acc gs)
      end.
Proof.
  induction n as [|n IH]; intros i acc; cbn [allg_loop goroutines_from].
  - reflexivity.
  - unfold goroutine_at.
    destruct (parseG (CurrentThread p) _ true (tracee p)) as [g|e]; [|reflexivity].
    destruct (threadg_of p !! Id g) as [tid|].
    + destruct (Thread_Location tid (tracee p)) as [loc|e]; [|reflexivity].
      rewrite IH. destruct (goroutines_from p allgptr n (i + 1)); reflexivity.
    + rewrite IH. destruct (goroutines_from p allgptr n (i + 1)); reflexivity.
Qed.

Lemma foldl_keep_live (gs : list G) :
  forall acc : option (list G),
    acc <> Some [] ->
    foldl keep_live acc gs =
      slice_of (default [] acc ++ filter (fun g => Status g <> Gdead) gs).
Proof.
  induction gs as [|g gs IH]; intros acc Hacc; cbn [foldl].
  - rewrite filter_nil, app_nil_r. destruct acc as [[|x l]|]; [congruence| |]; reflexivity.
  - rewrite filter_cons. unfold keep_live at 2.
    destruct (Status g =? Gdead) eqn:Hd.
    + apply Z.eqb_eq in Hd. rewrite decide_False by (intros Hn; exact (Hn Hd)).
      apply IH. exact Hacc.
    + apply Z.eqb_neq in Hd. rewrite decide_True by exact Hd.
      rewrite IH by apply append_G_nonempty.
      f_equal. destruct acc as [l|]; cbn.
      * rewrite <- app_assoc. reflexivity.
      * reflexivity.
Qed.

(** X1.  An enumeration that has read the count [allglen] and the array
    pointer returns the goroutines of slots [0 .. allglen - 1] in that order,
    each bound to the thread that runs it, without the dead ones, as a slice
    that is nil when none is live, and stores that slice in the cache; the
    first slot that cannot be read makes the whole call fail with that slot's
    error, with the process as it was. *)
Theorem GoroutinesInfo_enumerates (p : Process) (allglen allgptr : Z) :
  allGCache p = None ->
  allglen_of p = Some (Ok allglen) ->
  allgptr_of p = Some (Ok allgptr) ->
  GoroutinesInfo p =
    match goroutines_from p allgptr (Z.to_nat allglen) 0 with
    | Err e => Done (Err e) p
    | Ok gs =>
        let allg := slice_of (filter (fun g => Status g <> Gdead) gs) in
        Done (Ok allg) (set_allGCache allg p)
    end.
Proof.
  intros Hcache Hlen Hptr.
  rewrite (GoroutinesInfo_fresh p Hcache), Hlen, Hptr, allg_loop_collect.
  destruct (goroutines_from p allgptr (Z.to_nat allglen) 0) as [gs|e]; [|reflexivity].
  rewrite foldl_keep_live by discriminate. reflexivity.
Qed.

Lemma goroutines_from_elem (p : Process) (allgptr : Z) (n : nat) :
  forall (i : Z) (gs : list G) (g : G),
    goroutines_from p allgptr n i = Ok gs ->
    g ∈ gs ->
    exists j, goroutine_at p allgptr j = Ok g.
Proof.
  induction n as [|n IH]; intros i gs g Hrun Hg; cbn [goroutines_from] in Hrun.
  - injection Hrun as <-. by apply elem_of_nil in Hg.
  - destruct (goroutine_at p allgptr i) as [g0|e] eqn:Hat; [|discriminate Hrun].
    destruct (goroutines_from p allgptr n (i + 1)) as [gs'|e] eqn:Hrest;
      [|discriminate Hrun].
    injection Hrun as <-. apply elem_of_cons in Hg as [->|Hg]; eauto.
Qed.

Lemma slice_of_default {A : Type} (l : list A) : default [] (slice_of l) = l.
Proof. destruct l; reflexivity. Qed.

(** X2.  When [parseG] hands back goroutines that are bound to no thread,
    every goroutine an enumeration returns bound to a thread is bound to a
    thread of the table that is not blocked, whose own goroutine has the same
    id, and carries that thread's location. *)
Theorem GoroutinesInfo_bound_threads (p p' : Process) (r : option (list G)) :
  allGCache p = None ->
  (forall a g, parseG (CurrentThread p) a true (tracee p) = Ok g -> thread g = None) ->
  GoroutinesInfo p = Done (Ok r) p' ->
  forall g tid,
    g ∈ default [] r ->
    thread g = Some tid ->
    is_Some (Threads p !! tid) /\
    blocked tid (tracee p) = false /\
    Thread_Location tid (tracee p) = Ok (CurrentLoc g) /\
    exists g', GetG tid (tracee p) = Ok g' /\ Id g' = Id g.
Proof.
  intros Hcache Hparse Hrun g tid Hg Htid.
  rewrite (GoroutinesInfo_fresh p Hcache) in Hrun.
  destruct (allglen_of p) as [[n|e]|]; try discriminate Hrun.
  destruct (allgptr_of p) as [[ptr|e]|]; try discriminate Hrun.
  rewrite allg_loop_collect in Hrun.
  destruct (goroutines_from p ptr (Z.to_nat n) 0) as [gs|e] eqn:Hgs;
    [|discriminate Hrun].
  injection Hrun as <- <-.
  rewrite foldl_keep_live in Hg by discriminate.
  rewrite slice_of_default in Hg. cbn in Hg.
  apply list_elem_of_filter in Hg as [_ Hg].
  destruct (goroutines_from_elem p ptr _ _ _ _ Hgs Hg) as [j Hat].
  unfold goroutine_at in Hat.
  destruct (parseG (CurrentThread p) _ true (tracee p)) as [g0|e] eqn:Hp0;
    [|discriminate Hat].
  destruct (threadg_of p !! Id g0) as [tid0|] eqn:Htg.
  - destruct (Thread_Location tid0 (tracee p)) as [loc|e] eqn:Hloc; [|discriminate Hat].
    injection Hat as <-. cbn in Htid. injection Htid as <-. cbn.
    destruct (threadg_of_entry p _ _ Htg) as (Hin & Hb & g' & Hg' & Hid).
    repeat split; auto. eauto.
  - injection Hat as <-. rewrite (Hparse _ _ Hp0) in Htid. discriminate Htid.
Qed.

(** X3.  [GoroutinesInfo] writes nothing but the cache: the tables, the
    current thread, the selected goroutine, the flags and the tracee are what
    they were, and a call that fails leaves the whole process as it was. *)
Theorem GoroutinesInfo_only_writes_cache (p p' : Process)
    (r : result (option (list G))) :
  GoroutinesInfo p = Done r p' ->
  Breakpoints p' = Breakpoints p /\ Threads p' = Threads p /\
  CurrentThread p' = CurrentThread p /\
  SelectedGoroutine p' = SelectedGoroutine p /\
  halt p' = halt p /\ exited p' = exited p /\ tracee p' = tracee p /\
  (forall e, r = Err e -> p' = p).
Proof.
  destruct (allGCache p) as [l|] eqn:Hcache.
  - rewrite (GoroutinesInfo_cached p l Hcache). intros [= <- <-].
    repeat split; auto; discriminate.
  - rewrite (GoroutinesInfo_fresh p Hcache).
    destruct (allglen_of p) as [[n|e]|]; try discriminate;
      [|intros [= <- <-]; repeat split; auto].
    destruct (allgptr_of p) as [[ptr|e]|]; try discriminate;
      [|intros [= <- <-]; repeat split; auto].
    destruct (allg_loop _ _ _ _ _ _ _) as [allg|e]; intros [= <- <-];
      repeat split; auto; discriminate.
Qed.

Lemma set_allGCache_same (p : Process) : set_allGCache (allGCache p) p = p.
Proof. destruct p. reflexivity. Qed.


(** X5.  [FindGoroutine] for an id other than -1 searches the slice
    [GoroutinesInfo] returns: it answers with a goroutine of that slice that
    has the id asked for, never with nil, and fails with "Unknown goroutine"
    exactly when the slice has no goroutine with that id. *)
Theorem FindGoroutine_searches (gid : Z) (p p1 : Process) (r : option (list G)) :
  gid <> -1 ->
  GoroutinesInfo p = Done (Ok r) p1 ->
  (forall og p', FindGoroutine gid p = Done (Ok og) p' ->
     p' = p1 /\ exists g, og = Some g /\ Id g = gid /\ g ∈ default [] r) /\
  ((forall g, g ∈ default [] r -> Id g <> gid) <->
   FindGoroutine gid p = Done (Err (Errorf "Unknown goroutine %d" [ArgInt gid])) p1).
Proof.
  intros Hgid Hinfo.
  assert (Hunfold : FindGoroutine gid p =
    match List.find (fun g => Id g =? gid) (default [] r) with
    | Some g => Done (Ok (Some g)) p1
    | None => Done (Err (Errorf "Unknown goroutine %d" [ArgInt gid])) p1
    end).
  { unfold FindGoroutine, mbind, M_bind, bind.
    apply Z.eqb_neq in Hgid. rewrite Hgid, Hinfo.
    destruct (List.find _ _); reflexivity. }
  rewrite Hunfold. split.
  - intros og p'. destruct (List.find _ _) as [g|] eqn:Hfind; [|discriminate].
    intros [= <- <-]. split; [reflexivity|]. exists g.
    apply find_some in Hfind as [Hin Hid]. apply Z.eqb_eq in Hid.
    split; [reflexivity|]. split; [exact Hid|]. apply list_elem_of_In. exact Hin.
  - split.
    + intros Hnone. destruct (List.find _ _) as [g|] eqn:Hfind; [|reflexivity].
      apply find_some in Hfind as [Hin Hid]. apply Z.eqb_eq in Hid.
      apply list_elem_of_In in Hin. exfalso. exact (Hnone g Hin Hid).
    + destruct (List.find _ _) as [g|] eqn:Hfind; [discriminate|].
      intros _ g Hg Hid. apply list_elem_of_In in Hg.
      pose proof (find_none _ _ Hfind g Hg) as Hn. cbn in Hn.
      apply Z.eqb_neq in Hn. exact (Hn Hid).
Qed.

(** ** Breakpoints *)

(** X6.  [ClearBreakpoint] called with the address of a breakpoint, no other
    breakpoint lying one trap below it: when [Breakpoint.Clear] succeeds the
    breakpoint is returned, its entry and no other is removed, and the address
    resolves to nothing afterwards; when [Breakpoint.Clear] fails its error is
    returned and the table is what it was. *)
Theorem ClearBreakpoint_own_address (p : Process) (addr : Z) (bp : Breakpoint) :
  Breakpoints p !! addr = Some bp ->
  Breakpoints p !! wrap64 (addr - wrap64 BreakpointSize) = None ->
  match Breakpoint_Clear bp (CurrentThread p) (tracee p) with
  | (None, w) =>
      exists p',
        ClearBreakpoint addr p = Done (Ok bp) p' /\
        Breakpoints p' = delete addr (Breakpoints p) /\
        FindBreakpoint p' addr = None /\
        (forall a, a <> addr -> Breakpoints p' !! a = Breakpoints p !! a) /\
        tracee p' = w
  | (Some e, w) =>
      exists p',
        ClearBreakpoint addr p = Done (Err e) p' /\
        Breakpoints p' = Breakpoints p /\ tracee p' = w
  end.
Proof.
  intros Haddr Hbelow.
  assert (Hfind : FindBreakpoint p addr = Some bp).
  { unfold FindBreakpoint. rewrite Hbelow. exact Haddr. }
  rewrite (ClearBreakpoint_found p addr bp Hfind).
  destruct (Breakpoint_Clear bp (CurrentThread p) (tracee p)) as [[e|] w].
  - eexists. split; [reflexivity|]. split; reflexivity.
  - eexists. split; [reflexivity|]. simpl. split; [reflexivity|]. split; [|split].
    + unfold FindBreakpoint. simpl. rewrite lookup_delete_eq.
      destruct (decide (wrap64 (addr - wrap64 BreakpointSize) = addr)) as [->|Hne].
      * rewrite lookup_delete_eq. reflexivity.
      * rewrite lookup_delete_ne by congruence. rewrite Hbelow. reflexivity.
    + intros a Ha. apply lookup_delete_ne. congruence.
    + reflexivity.
Qed.

Lemma ClearBreakpoint_subset (addr : Z) (p p' : Process) (r : result Breakpoint) :
  ClearBreakpoint addr p = Done r p' ->
  forall a bp, Breakpoints p' !! a = Some bp -> Breakpoints p !! a = Some bp.
Proof.
  destruct (FindBreakpoint p addr) as [bp0|] eqn:Hfind.
  - rewrite (ClearBreakpoint_found p addr bp0 Hfind).
    destruct (Breakpoint_Clear bp0 (CurrentThread p) (tracee p)) as [[e|] w];
      intros [= <- <-] a bp; simpl; [auto|].
    intros Ha. apply lookup_delete_Some in Ha. tauto.
  - rewrite (ClearBreakpoint_absent p addr Hfind). intros [= <- <-]. auto.
Qed.

Lemma clear_loop_subset (ks : list Z) :
  forall (p p' : Process) (r : result (option unit)),
    for_keys Breakpoints ks clear_if_temp p = Done r p' ->
    forall a bp, Breakpoints p' !! a = Some bp -> Breakpoints p !! a = Some bp.
Proof.
  induction ks as [|k0 ks IH]; intros p p' r Hrun.
  - cbn in Hrun. injection Hrun as <- <-. auto.
  - cbn [for_keys] in Hrun. unfold mbind, M_bind, bind, get in Hrun.
    destruct (Breakpoints p !! k0) as [bp0|]; [|eauto].
    unfold clear_if_temp in Hrun at 1.
    destruct (Temp bp0); simpl in Hrun; [|eauto].
    unfold mbind, M_bind, bind in Hrun.
    destruct (ClearBreakpoint (Addr bp0) p) as [[bp|e] p1| |] eqn:Hclear;
      try discriminate Hrun.
    + simpl in Hrun. intros a bp' Ha.
      eapply ClearBreakpoint_subset; [exact Hclear|]. eapply IH; eauto.
    + injection Hrun as <- <-. eapply ClearBreakpoint_subset; exact Hclear.
Qed.

(** X7.  On a table keyed by address, a [clearTempBreakpoints] that returns
    nil has removed the temporary breakpoints and nothing else: the table is
    the old one filtered on [Temp = false]; the threads latched on a temporary
    breakpoint are unlatched and the others are as they were. *)
Theorem clearTempBreakpoints_filters (q p' : Process) :
  table_keyed q ->
  clearTempBreakpoints q = Done (Ok tt) p' ->
  Breakpoints p' = filter (fun e : Z * Breakpoint => Temp e.2 = false) (Breakpoints q) /\
  Threads p' = unlatch_temp <$> Threads q /\
  CurrentThread p' = CurrentThread q.
Proof.
  intros Hkeyed Hrun. pose proof Hrun as Hrun'.
  unfold clearTempBreakpoints, range, mbind, M_bind, bind, get in Hrun.
  destruct (for_keys Breakpoints (range_keys (Breakpoints q)) clear_if_temp q)
    as [[r|e] p1| |] eqn:Hloop; try discriminate Hrun.
  simpl in Hrun. injection Hrun as <-.
  destruct (clear_loop_ok _ _ _ _ Hloop Hkeyed) as (HT & HC & HH & Hsub & Hvis & Hkeep).
  simpl. rewrite HT. split; [|auto].
  apply map_eq. intros a. apply option_eq. intros bp.
  rewrite map_lookup_filter_Some. simpl. split.
  - intros Ha. split; [exact (Hsub a bp Ha)|].
    apply (Hvis a bp); [|exact Ha]. apply range_keys_elem. apply Hsub in Ha. eauto.
  - intros [Ha Ht]. exact (Hkeep a bp Ha Ht).
Qed.

(** X8.  A [clearTempBreakpoints] that fails has stopped at the breakpoint it
    could not clear: the threads keep their latches, temporary ones included,
    and the table has lost entries at most. *)
Theorem clearTempBreakpoints_failure (q p' : Process) (e : error) :
  clearTempBreakpoints q = Done (Err e) p' ->
  Threads p' = Threads q /\
  CurrentThread p' = CurrentThread q /\
  (forall a bp, Breakpoints p' !! a = Some bp -> Breakpoints q !! a = Some bp).
Proof.
  unfold clearTempBreakpoints, range, mbind, M_bind, bind, get.
  destruct (for_keys Breakpoints (range_keys (Breakpoints q)) clear_if_temp q)
    as [[r|e0] p1| |] eqn:Hloop; try discriminate.
  intros [= <- <-].
  destruct (clear_loop_threads _ _ _ _ Hloop) as [HT HC].
  split; [exact HT|]. split; [exact HC|].
  exact (clear_loop_subset _ _ _ _ Hloop).
Qed.

(** X9.  [FindBreakpointByID] answers with a breakpoint of the table that
    has the id asked for, and with nothing exactly when no breakpoint of the
    table has that id, whatever the order in which the table is walked. *)
Theorem FindBreakpointByID_searches (p : Process) (id : Z) :
  (forall bp, FindBreakpointByID p id = Some bp ->
     ID bp = id /\ exists a, Breakpoints p !! a = Some bp) /\
  (FindBreakpointByID p id = None <->
   forall a bp, Breakpoints p !! a = Some bp -> ID bp <> id).
Proof.
  unfold FindBreakpointByID.
  set (l := omap (fun k => Breakpoints p !! k) (range_keys (Breakpoints p))).
  assert (Hl : forall bp, bp ∈ l <-> exists a, Breakpoints p !! a = Some bp).
  { intros bp. unfold l. rewrite list_elem_of_omap. split.
    - intros (a & _ & Ha). eauto.
    - intros (a & Ha). exists a. split; [|exact Ha].
      apply range_keys_elem. eauto. }
  split.
  - intros bp Hfind.
    destruct (list_find (fun bp0 : Breakpoint => ID bp0 = id) l) as [[i x]|] eqn:Hlf;
      [|discriminate Hfind].
    cbn in Hfind. injection Hfind as ->.
    apply list_find_Some in Hlf as (Hi & Hid & _).
    split; [exact Hid|]. apply Hl. eapply list_elem_of_lookup_2. exact Hi.
  - split.
    + intros Hnone a bp Ha Hid.
      destruct (list_find (fun bp0 : Breakpoint => ID bp0 = id) l) as [[i x]|] eqn:Hlf;
        [discriminate Hnone|].
      rewrite list_find_None, Forall_forall in Hlf.
      apply (Hlf bp); [|exact Hid]. apply Hl. eauto.
    + intros Hall.
      destruct (list_find (fun bp0 : Breakpoint => ID bp0 = id) l) as [[i x]|] eqn:Hlf;
        [|reflexivity].
      apply list_find_Some in Hlf as (Hi & Hid & _).
      apply list_elem_of_lookup_2 in Hi. apply Hl in Hi as [a Ha].
      exfalso. exact (Hall a x Ha Hid).
Qed.

(** ** Detach *)

(** The loop of [Detach] over any list of keys, on a table keyed by address:
    it deletes every entry whose key it visits. *)
Lemma detach_loop_ok (ks : list Z) :
  forall (p p' : Process) (r : option unit),
    for_keys Breakpoints ks
      (fun (_ : Z) (bp : Breakpoint) => ClearBreakpoint (Addr bp);; mret None) p
      = Done (Ok r) p' ->
    table_keyed p ->
    Threads p' = Threads p /\ CurrentThread p' = CurrentThread p /\
    Pid p' = Pid p /\
    (forall a bp, Breakpoints p' !! a = Some bp -> Breakpoints p !! a = Some bp) /\
    (forall a, a ∈ ks -> Breakpoints p' !! a = None).
Proof.
  induction ks as [|k0 ks IH]; intros p p' r Hrun Hkeyed.
  - cbn in Hrun. injection Hrun as <- <-. repeat split; auto.
    intros a Ha. by apply elem_of_nil in Ha.
  - cbn [for_keys] in Hrun. unfold mbind, M_bind, bind, get in Hrun.
    destruct (Breakpoints p !! k0) as [bp0|] eqn:Hk0.
    + assert (Hfound : is_Some (FindBreakpoint p (Addr bp0))).
      { unfold FindBreakpoint. rewrite (Hkeyed k0 bp0 Hk0), Hk0.
        destruct (Breakpoints p !! wrap64 (k0 - wrap64 BreakpointSize));
          eexists; reflexivity. }
      destruct Hfound as [bpf Hfound].
      rewrite (ClearBreakpoint_found p (Addr bp0) bpf Hfound) in Hrun.
      destruct (Breakpoint_Clear bpf (CurrentThread p) (tracee p)) as [[e|] w];
        [discriminate Hrun|].
      simpl in Hrun. rewrite (Hkeyed k0 bp0 Hk0) in Hrun.
      apply IH in Hrun as (HT & HC & HP & Hsub & Hvis).
      2:{ intros a bp Ha. simpl in Ha. apply lookup_delete_Some in Ha as [_ Ha].
          exact (Hkeyed a bp Ha). }
      simpl in *. repeat split; auto.
      * intros a bp Ha. apply Hsub in Ha.
        apply lookup_delete_Some in Ha as [_ Ha]. exact Ha.
      * intros a Ha. apply elem_of_cons in Ha as [->|Ha]; [|auto].
        destruct (Breakpoints p' !! k0) as [bp|] eqn:Hp'; [|reflexivity].
        apply Hsub in Hp'. rewrite lookup_delete_eq in Hp'. discriminate Hp'.
    + apply IH in Hrun as (HT & HC & HP & Hsub & Hvis); [|exact Hkeyed].
      repeat split; auto.
      intros a Ha. apply elem_of_cons in Ha as [->|Ha]; [|auto].
      destruct (Breakpoints p' !! k0) as [bp|] eqn:Hp'; [|reflexivity].
      apply Hsub in Hp'. congruence.
Qed.

Lemma Running_false_Halt_skipped (p : Process) (kill : bool) :
  Running p = false ->
  Detach kill p =
    ((if kill then mret tt
      else
        range (R := unit) Breakpoints
          (fun (_ : Z) (bp : Breakpoint) => ClearBreakpoint (Addr bp);; mret None);;
        mret tt);;
     p ← get;
     acts (PtraceDetach (Pid p));;
     if kill then acts (Kill (Pid p)) else mret tt) p.
Proof.
  intros Hrun. unfold Detach. unfold mbind at 1, M_bind at 1, bind at 1, get at 1.
  rewrite Hrun. reflexivity.
Qed.

(** X10.  [Detach] without kill from a process that is not running: when it
    returns nil, on a table keyed by address, every breakpoint has been
    cleared and the table is empty; the threads are untouched. *)
Theorem Detach_clears_every_breakpoint (p p' : Process) :
  Running p = false ->
  table_keyed p ->
  Detach false p = Done (Ok tt) p' ->
  Breakpoints p' = ∅ /\ Threads p' = Threads p /\ CurrentThread p' = CurrentThread p.
Proof.
  intros Hnot Hkeyed. rewrite (Running_false_Halt_skipped p false Hnot).
  unfold range, mbind, M_bind, bind, get.
  destruct (for_keys Breakpoints (range_keys (Breakpoints p)) _ p)
    as [[r|e] p1| |] eqn:Hloop; try discriminate.
  simpl. unfold acts.
  destruct (PtraceDetach (Pid p1) (tracee p1)) as [[e|] w]; [discriminate|].
  simpl. intros [= <-]. simpl.
  destruct (detach_loop_ok _ _ _ _ Hloop Hkeyed) as (HT & HC & HP & Hsub & Hvis).
  split; [|auto]. apply map_eq. intros a. rewrite lookup_empty.
  destruct (Breakpoints p1 !! a) as [bp|] eqn:Ha; [|reflexivity].
  rewrite Hvis in Ha; [discriminate Ha|].
  apply range_keys_elem. apply Hsub in Ha. eauto.
Qed.


(** ** The thread a stop is reported on *)

Lemma onTriggered_evaluate (w : W) (k : Z) (th : Thread) :
  onTriggeredBreakpoint (evaluate_condition w k th) =
    match CurrentBreakpoint th with
    | Some bp => checkCondition bp k w
    | None => false
    end.
Proof.
  unfold evaluate_condition, onTriggeredBreakpoint.
  destruct (CurrentBreakpoint th) as [bp|] eqn:Hbp; simpl; rewrite Hbp; reflexivity.
Qed.

Lemma onTriggeredTemp_evaluate (w : W) (k : Z) (th : Thread) :
  onTriggeredTempBreakpoint (evaluate_condition w k th) =
    match CurrentBreakpoint th with
    | Some bp => checkCondition bp k w && Temp bp
    | None => false
    end.
Proof.
  unfold evaluate_condition, onTriggeredTempBreakpoint.
  destruct (CurrentBreakpoint th) as [bp|] eqn:Hbp; simpl; rewrite Hbp; reflexivity.
Qed.

(** A thread the loop has remembered stays remembered. *)
Lemma conditions_loop_keeps_picks (w : W) (ks : list Z) :
  forall (ths : gmap Z Thread) (tr te : option Z),
    (is_Some te -> is_Some (conditions_loop ks w ths tr te).2) /\
    (is_Some tr -> is_Some (conditions_loop ks w ths tr te).1.2).
Proof.
  induction ks as [|k0 ks IH]; intros ths tr te.
  - cbn. auto.
  - cbn [conditions_loop].
    destruct (ths !! k0) as [th|]; [|apply IH].
    destruct (CurrentBreakpoint th) as [bp|]; [|apply IH].
    destruct (onTriggeredBreakpoint _); [|apply IH].
    destruct (onTriggeredTempBreakpoint _);
      split; intros Hsome; apply IH; try exact Hsome.
    + destruct te; eauto.
    + destruct tr; eauto.
Qed.

(** The loop misses no thread: when it ends with a thread on a triggered
    breakpoint, it has remembered one of that kind. *)
Lemma conditions_loop_complete (w : W) (ks : list Z) :
  forall (ths : gmap Z Thread) (tr te : option Z) (k : Z) (th : Thread),
    k ∈ ks ->
    (conditions_loop ks w ths tr te).1.1 !! k = Some th ->
    onTriggeredBreakpoint th = true ->
    if onTriggeredTempBreakpoint th
    then is_Some (conditions_loop ks w ths tr te).2
    else is_Some (conditions_loop ks w ths tr te).1.2.
Proof.
  induction ks as [|k0 ks IH]; intros ths tr te k th Hin Hk Htrig.
  - by apply elem_of_nil in Hin.
  - destruct (decide (k ∈ ks)) as [Hks|Hnew].
    { revert Hk. cbn [conditions_loop].
      destruct (ths !! k0) as [th0|]; [|intros; eapply IH; eauto].
      destruct (CurrentBreakpoint th0) as [bp|]; [|intros; eapply IH; eauto].
      set (th' := set_BreakpointConditionMet (checkCondition bp k0 w) th0).
      destruct (onTriggeredBreakpoint th'); [|intros; eapply IH; eauto].
      destruct (onTriggeredTempBreakpoint th'); intros; eapply IH; eauto. }
    apply elem_of_cons in Hin as [->|Hin]; [|contradiction].
    revert Hk. cbn [conditions_loop].
    destruct (ths !! k0) as [th0|] eqn:Hk0.
    2:{ rewrite conditions_loop_threads, Hk0. case_bool_decide; discriminate. }
    destruct (CurrentBreakpoint th0) as [bp|] eqn:Hbp.
    2:{ rewrite conditions_loop_threads, Hk0, (bool_decide_eq_false_2 _ Hnew).
        intros [= <-]. unfold onTriggeredBreakpoint in Htrig.
        rewrite Hbp in Htrig. discriminate Htrig. }
    set (th' := set_BreakpointConditionMet (checkCondition bp k0 w) th0).
    destruct (onTriggeredBreakpoint th') eqn:Ht';
      [destruct (onTriggeredTempBreakpoint th') eqn:Htt'|];
      rewrite conditions_loop_threads, lookup_insert_eq, (bool_decide_eq_false_2 _ Hnew);
      intros [= <-].
    + rewrite Htt'. apply conditions_loop_keeps_picks. destruct te; eauto.
    + rewrite Htt'. apply conditions_loop_keeps_picks. destruct tr; eauto.
    + congruence.
Qed.

(** [runBreakpointConditions] returns nil whenever the current thread is in
    the table, and the thread it leaves current is on a triggered breakpoint
    when some thread is, on a temporary one when some thread is. *)
Lemma runBreakpointConditions_returns (q1 : Process) (c1 : Thread) :
  Threads q1 !! CurrentThread q1 = Some c1 ->
  exists q c,
    runBreakpointConditions q1 = Done (Ok tt) q /\
    Threads q !! CurrentThread q = Some c /\
    (forall k, Threads q !! k = evaluate_condition (tracee q1) k <$> Threads q1 !! k) /\
    ((exists k th, Threads q !! k = Some th /\ onTriggeredTempBreakpoint th = true) ->
       onTriggeredTempBreakpoint c = true) /\
    ((exists k th, Threads q !! k = Some th /\ onTriggeredBreakpoint th = true) ->
       onTriggeredBreakpoint c = true) /\
    (onTriggeredBreakpoint c = false -> CurrentThread q = CurrentThread q1).
Proof.
  intros Hc1.
  unfold runBreakpointConditions, mbind, M_bind, bind, get.
  pose proof (conditions_loop_threads (tracee q1) (range_keys (Threads q1))
                (Threads q1) None None) as Hths.
  pose proof (conditions_loop_picks (tracee q1) (range_keys (Threads q1))
                (Threads q1) None None) as [Hte Htr].
  pose proof (conditions_loop_complete (tracee q1) (range_keys (Threads q1))
                (Threads q1) None None) as Hcomp.
  destruct (conditions_loop _ _ _ _ _) as [[ths tr] te]. cbn [fst snd] in *.
  assert (Hall : forall k, ths !! k = evaluate_condition (tracee q1) k <$> Threads q1 !! k).
  { intros k. rewrite Hths. case_bool_decide as Hin; [reflexivity|].
    rewrite range_keys_elem in Hin.
    destruct (Threads q1 !! k) eqn:Hk; [|reflexivity].
    exfalso. apply Hin. eauto. }
  assert (Hkeys : forall k th, ths !! k = Some th -> k ∈ range_keys (Threads q1)).
  { intros k th Hk. apply range_keys_elem. rewrite Hall in Hk.
    destruct (Threads q1 !! k); [eauto|discriminate Hk]. }
  assert (H1 : forall k th, ths !! k = Some th ->
            onTriggeredTempBreakpoint th = true -> is_Some te).
  { intros k th Hk Htemp.
    pose proof (Hcomp k th (Hkeys k th Hk) Hk (onTriggeredTemp_triggered th Htemp)) as H.
    rewrite Htemp in H. exact H. }
  assert (H2 : forall k th, ths !! k = Some th ->
            onTriggeredBreakpoint th = true -> is_Some te \/ is_Some tr).
  { intros k th Hk Htrig.
    pose proof (Hcomp k th (Hkeys k th Hk) Hk Htrig) as H.
    destruct (onTriggeredTempBreakpoint th); auto. }
  assert (Hcur : ths !! CurrentThread q1 =
                 Some (evaluate_condition (tracee q1) (CurrentThread q1) c1)).
  { rewrite Hall, Hc1. reflexivity. }
  unfold deref. simpl.
  destruct te as [t|]; simpl.
  - rewrite Hcur.
    destruct (onTriggeredTempBreakpoint _) eqn:Hct; simpl.
    + eexists _, _. split; [reflexivity|]. simpl.
      split; [exact Hcur|]. split; [exact Hall|]. split; [auto|].
      split; [intros _; apply onTriggeredTemp_triggered; exact Hct|]. auto.
    + rewrite SwitchThread_unfold. simpl.
      destruct (Hte t eq_refl) as [?|[th [Ht Htemp]]]; [done|].
      rewrite Ht. eexists _, _. split; [reflexivity|]. simpl.
      split; [exact Ht|]. split; [exact Hall|]. split; [auto|].
      split; [intros _; apply onTriggeredTemp_triggered; exact Htemp|].
      intros Hf. apply onTriggeredTemp_triggered in Htemp. congruence.
  - assert (Hnotemp : (exists k th, ths !! k = Some th /\
                         onTriggeredTempBreakpoint th = true) -> False).
    { intros (k & th & Hk & Htemp). destruct (H1 k th Hk Htemp) as [x Hx].
      discriminate Hx. }
    destruct tr as [t|]; simpl.
    + rewrite Hcur.
      destruct (onTriggeredBreakpoint _) eqn:Hct; simpl.
      * eexists _, _. split; [reflexivity|]. simpl.
        split; [exact Hcur|]. split; [exact Hall|].
        split; [intros H; destruct (Hnotemp H)|]. split; [auto|]. auto.
      * rewrite SwitchThread_unfold. simpl.
        destruct (Htr t eq_refl) as [?|[th [Ht Htrig]]]; [done|].
        rewrite Ht. eexists _, _. split; [reflexivity|]. simpl.
        split; [exact Ht|]. split; [exact Hall|].
        split; [intros H; destruct (Hnotemp H)|]. split; [auto|].
        intros Hf. congruence.
    + eexists _, _. split; [reflexivity|]. simpl.
      split; [exact Hcur|]. split; [exact Hall|].
      split; [intros H; destruct (Hnotemp H)|].
      split; [|auto].
      intros (k & th & Hk & Htrig).
      destruct (H2 k th Hk Htrig) as [[x Hx]|[x Hx]]; discriminate Hx.
Qed.

(** X12.  A stop whose current thread is in the table: [runBreakpointConditions]
    returns nil, and of the threads latched on a breakpoint whose condition
    holds it makes current one on a temporary breakpoint if there is one, one
    on any breakpoint otherwise; when no condition holds the current thread
    stays. *)
Theorem runBreakpointConditions_prefers_temp (q1 : Process) (c1 : Thread) :
  Threads q1 !! CurrentThread q1 = Some c1 ->
  exists q c,
    runBreakpointConditions q1 = Done (Ok tt) q /\
    Threads q !! CurrentThread q = Some c /\
    ((exists k th bp, Threads q1 !! k = Some th /\ CurrentBreakpoint th = Some bp /\
        Temp bp = true /\ checkCondition bp k (tracee q1) = true) ->
     exists bp, CurrentBreakpoint c = Some bp /\ Temp bp = true /\
                BreakpointConditionMet c = true) /\
    ((exists k th bp, Threads q1 !! k = Some th /\ CurrentBreakpoint th = Some bp /\
        checkCondition bp k (tracee q1) = true) ->
     exists bp, CurrentBreakpoint c = Some bp /\ BreakpointConditionMet c = true) /\
    ((forall k th bp, Threads q1 !! k = Some th -> CurrentBreakpoint th = Some bp ->
        checkCondition bp k (tracee q1) = false) ->
     CurrentThread q = CurrentThread q1).
Proof.
  intros Hc1.
  destruct (runBreakpointConditions_returns q1 c1 Hc1)
    as (q & c & Hrun & Hc & Hall & Htemp & Htrig & Hstay).
  exists q, c. split; [exact Hrun|]. split; [exact Hc|]. split; [|split].
  - intros (k & th & bp & Hk & Hbp & Ht & Hcheck).
    assert (Hon : onTriggeredTempBreakpoint c = true).
    { apply Htemp. exists k, (evaluate_condition (tracee q1) k th).
      rewrite Hall, Hk. split; [reflexivity|].
      rewrite onTriggeredTemp_evaluate, Hbp, Hcheck, Ht. reflexivity. }
    unfold onTriggeredTempBreakpoint in Hon.
    destruct (CurrentBreakpoint c) as [bpc|]; [|discriminate Hon].
    apply andb_true_iff in Hon as [Hmet Htmp]. eauto.
  - intros (k & th & bp & Hk & Hbp & Hcheck).
    assert (Hon : onTriggeredBreakpoint c = true).
    { apply Htrig. exists k, (evaluate_condition (tracee q1) k th).
      rewrite Hall, Hk. split; [reflexivity|].
      rewrite onTriggered_evaluate, Hbp. exact Hcheck. }
    unfold onTriggeredBreakpoint in Hon.
    destruct (CurrentBreakpoint c) as [bpc|]; [|discriminate Hon]. eauto.
  - intros Hfalse. apply Hstay.
    pose proof (Hall (CurrentThread q)) as Hlook. rewrite Hc in Hlook.
    destruct (Threads q1 !! CurrentThread q) as [c0|] eqn:Hc0; [|discriminate Hlook].
    injection Hlook as ->. rewrite onTriggered_evaluate.
    destruct (CurrentBreakpoint c0) as [bp|] eqn:Hbp; [|reflexivity].
    exact (Hfalse _ c0 bp Hc0 Hbp).
Qed.

(** X13.  [Continue] returns in the round of a stop at which the current
    thread has no breakpoint (a manual stop, a single step), and in the round
    of a stop at which some thread is latched on a breakpoint whose condition
    holds: it needs no further round, and it ends with [clearTempBreakpoints]
    exactly when the thread it reports is on a triggered temporary
    breakpoint. *)
Theorem Continue_returns_at_stop (n : nat) (p q1 : Process) (c1 : Thread) :
  continueOnce p = Done (Ok tt) q1 ->
  Threads q1 !! CurrentThread q1 = Some c1 ->
  (CurrentBreakpoint c1 = None \/
   exists k th bp, Threads q1 !! k = Some th /\ CurrentBreakpoint th = Some bp /\
                   checkCondition bp k (tracee q1) = true) ->
  exists q c,
    runBreakpointConditions q1 = Done (Ok tt) q /\
    Threads q !! CurrentThread q = Some c /\
    Continue (S n) p =
      if onTriggeredTempBreakpoint c then clearTempBreakpoints q else Done (Ok tt) q.
Proof.
  intros Honce Hc1 Hwhy.
  destruct (runBreakpointConditions_returns q1 c1 Hc1)
    as (q & c & Hrun & Hc & Hall & Htemp & Htrig & Hstay).
  exists q, c. split; [exact Hrun|]. split; [exact Hc|].
  rewrite Continue_unfold, Honce, Hc1, Hrun, Hc.
  destruct (onTriggeredBreakpoint c) eqn:Hon; [reflexivity|].
  assert (Hnt : onTriggeredTempBreakpoint c = false).
  { destruct (onTriggeredTempBreakpoint c) eqn:Ht; [|reflexivity].
    apply onTriggeredTemp_triggered in Ht. congruence. }
  rewrite Hnt.
  destruct Hwhy as [Hnil|(k & th & bp & Hk & Hbp & Hcheck)].
  - rewrite bool_decide_eq_true_2 by exact Hnil. reflexivity.
  - exfalso. assert (Habs : false = true); [|discriminate Habs].
    apply Htrig. exists k, (evaluate_condition (tracee q1) k th).
    rewrite Hall, Hk. split; [reflexivity|].
    rewrite onTriggered_evaluate, Hbp. exact Hcheck.
Qed.

(** ** The preparation of Next *)

Lemma nexting_no_temp (p : Process) : nexting p = false <-> no_temp p.
Proof.
  split.
  - intros Hn a bp Ha. destruct (Temp bp) eqn:Ht; [|reflexivity].
    rewrite (nexting_true p a bp Ha Ht) in Hn. discriminate Hn.
  - intros Hno. apply not_true_is_false. intros H. unfold nexting in H.
    apply existsb_exists in H as (i & _ & Hi).
    destruct (Breakpoints p !! i) as [bp|] eqn:Hbp; [|discriminate Hi].
    rewrite (Hno i bp Hbp) in Hi. discriminate Hi.
Qed.

Lemma stamped_temps (m : gmap Z Breakpoint) (id a : Z) (bp : Breakpoint) :
  ((fun bp => if Temp bp then set_Cond (Some id) bp else bp) <$> m) !! a = Some bp ->
  Temp bp = true -> Cond bp = Some id.
Proof.
  rewrite lookup_fmap. destruct (m !! a) as [bp0|]; [|discriminate].
  simpl. intros [= <-]. destruct (Temp bp0) eqn:Ht; simpl; [reflexivity|].
  intros Habs. congruence.
Qed.

(** X14.  When the preparation of [Next] returns nil, the table held no
    temporary breakpoint before the call, the goroutine [g] of the current
    thread could be read, and every temporary breakpoint now in the table
    carries the condition "goroutine [g]" -- unless [setNextBreakpoints]
    reported that [g] itself is exiting, in which case the process is left as
    [setNextBreakpoints] returned it. *)
Theorem Next_prepare_stamps (p p1 : Process) :
  Next_prepare p = Done (Ok tt) p1 ->
  no_temp p /\
  exists g, GetG (CurrentThread p) (tracee p) = Ok g /\
    ((forall a bp, Breakpoints p1 !! a = Some bp -> Temp bp = true ->
        Cond bp = Some (Id g)) \/
     (exists n p2,
        setChanRecvBreakpoints p = Done (Ok n) p2 /\
        setNextBreakpoints (CurrentThread p) p2 =
          Done (Err (GoroutineExitingError (Id g))) p1)).
Proof.
  unfold Next_prepare, mbind, M_bind, bind, get, reads.
  destruct (nexting p) eqn:Hn; [discriminate|].
  intros Hrun. split; [apply nexting_no_temp; exact Hn|].
  destruct (GetG (CurrentThread p) (tracee p)) as [g|e]; [|discriminate Hrun].
  exists g. split; [reflexivity|].
  destruct (setChanRecvBreakpoints p) as [[n|e] p2| |]; try discriminate Hrun.
  unfold attempt in Hrun.
  destruct (setNextBreakpoints (CurrentThread p) p2) as [[[]|e] p3| |] eqn:Hset;
    try discriminate Hrun.
  - simpl in Hrun. injection Hrun as <-. left. intros a bp. apply stamped_temps.
  - destruct e; simpl in Hrun;
      try (destruct (clearTempBreakpoints p3) as [[[]|e'] p4| |];
           discriminate Hrun);
      try (injection Hrun as <-; left; intros a bp; apply stamped_temps).
    destruct (goid =? Id g) eqn:Hg; simpl in Hrun; injection Hrun as <-.
    + apply Z.eqb_eq in Hg. subst goid. right. eauto.
    + left. intros a bp. apply stamped_temps.
Qed.

(** X15.  The ways [Next] fails before it resumes the process, from a table
    without temporary breakpoints: an unreadable goroutine returns its error
    with the process untouched; a failure of [setChanRecvBreakpoints] returns
    its error with the process as that call left it (no breakpoint is
    cleared); an error of [setNextBreakpoints] other than [ThreadBlockedError],
    [NoReturnAddr] and [GoroutineExitingError] is returned after
    [clearTempBreakpoints] has run, whatever the clearing itself returns. *)
Theorem Next_error_paths (fuel : nat) (p : Process) :
  no_temp p ->
  (forall e, GetG (CurrentThread p) (tracee p) = Err e ->
     Next fuel p = Done (Err e) p) /\
  (forall g e p2, GetG (CurrentThread p) (tracee p) = Ok g ->
     setChanRecvBreakpoints p = Done (Err e) p2 ->
     Next fuel p = Done (Err e) p2) /\
  (forall g n p2 e p3 r p4, GetG (CurrentThread p) (tracee p) = Ok g ->
     setChanRecvBreakpoints p = Done (Ok n) p2 ->
     setNextBreakpoints (CurrentThread p) p2 = Done (Err e) p3 ->
     e <> ThreadBlockedError -> e <> NoReturnAddr ->
     (forall goid, e <> GoroutineExitingError goid) ->
     clearTempBreakpoints p3 = Done r p4 ->
     Next fuel p = Done (Err e) p4 /\
     (r = Ok tt -> table_keyed p3 -> no_temp p4)).
Proof.
  intros Hno. apply nexting_no_temp in Hno.
  split; [|split].
  - intros e Hg. unfold Next, Next_prepare, mbind, M_bind, bind, get, reads.
    rewrite Hno, Hg. reflexivity.
  - intros g e p2 Hg Hchan.
    unfold Next, Next_prepare, mbind, M_bind, bind, get, reads.
    rewrite Hno, Hg, Hchan. reflexivity.
  - intros g n p2 e p3 r p4 Hg Hchan Hset H1 H2 H3 Hclear. split.
    + unfold Next, Next_prepare, mbind, M_bind, bind, get, reads, attempt.
      rewrite Hno, Hg, Hchan, Hset.
      destruct e; try congruence; simpl; rewrite Hclear; reflexivity.
    + intros -> Hkeyed. exact (proj1 (clearTempBreakpoints_ok p3 p4 Hclear Hkeyed)).
Qed.

Lemma chan_recv_loop_skips (p1 : Process) (gs : list G) :
  forall count : Z,
    (forall g, g ∈ gs -> ChanRecvBlocked g = true ->
       chanRecvReturnAddr g (tracee p1) = Err NullAddrError \/
       exists addr a, chanRecvReturnAddr g (tracee p1) = Ok addr /\
         SetTempBreakpoint addr p1 = Done (Err (BreakpointExistsError a)) p1) ->
    chan_recv_loop gs count p1 = Done (Ok count) p1.
Proof.
  induction gs as [|g gs IH]; intros count Hall; cbn [chan_recv_loop].
  - reflexivity.
  - assert (Hrest : chan_recv_loop gs count p1 = Done (Ok count) p1).
    { apply IH. intros g' Hg'. apply Hall. apply elem_of_cons. auto. }
    destruct (ChanRecvBlocked g) eqn:Hb; [|exact Hrest].
    unfold mbind, M_bind, bind, attempt, reads.
    destruct (Hall g ltac:(apply elem_of_cons; auto) Hb)
      as [Hnull|(addr & a & Haddr & Hset)].
    + rewrite Hnull. exact Hrest.
    + rewrite Haddr, Hset. exact Hrest.
Qed.

(** X16.  [setChanRecvBreakpoints] passes over a goroutine blocked on a
    channel receive whose return address is null ([NullAddrError]) and over
    one whose return address already has a breakpoint
    ([BreakpointExistsError]): when every blocked goroutine is of one of
    these kinds -- in particular when none is blocked -- it returns the count
    0 and no error, and nothing but the goroutine cache has changed. *)
Theorem setChanRecvBreakpoints_skips (p p1 : Process) (allg : option (list G)) :
  GoroutinesInfo p = Done (Ok allg) p1 ->
  (forall g, g ∈ default [] allg -> ChanRecvBlocked g = true ->
     chanRecvReturnAddr g (tracee p1) = Err NullAddrError \/
     exists addr a, chanRecvReturnAddr g (tracee p1) = Ok addr /\
       SetTempBreakpoint addr p1 = Done (Err (BreakpointExistsError a)) p1) ->
  setChanRecvBreakpoints p = Done (Ok 0) p1.
Proof.
  intros Hinfo Hall. unfold setChanRecvBreakpoints, mbind, M_bind, bind.
  rewrite Hinfo. apply chan_recv_loop_skips. exact Hall.
Qed.

(** ** Threads, goroutines and scopes *)

Lemma set_CurrentThread_twice (t1 t2 : Z) (g1 g2 : option G) (p : Process) :
  set_SelectedGoroutine g2
    (set_CurrentThread t2 (set_SelectedGoroutine g1 (set_CurrentThread t1 p))) =
  set_SelectedGoroutine g2 (set_CurrentThread t2 p).
Proof. destruct p. reflexivity. Qed.

(** X17.  Of two calls of [SwitchThread] in a row, the first to a thread of
    the table: when the second thread is in the table too, only the second
    call shows -- current thread and selected goroutine are those of a single
    switch to it; when it is not, the second call fails and the process stays
    as the first call left it. *)
Theorem SwitchThread_last_wins (t1 t2 : Z) (p : Process) :
  is_Some (Threads p !! t1) ->
  (is_Some (Threads p !! t2) ->
     (SwitchThread t1;; SwitchThread t2) p = SwitchThread t2 p) /\
  (Threads p !! t2 = None ->
     exists p1,
       SwitchThread t1 p = Done (Ok tt) p1 /\
       (SwitchThread t1;; SwitchThread t2) p =
         Done (Err (Errorf "thread %d does not exist" [ArgInt t2])) p1).
Proof.
  intros [th1 H1]. unfold mbind, M_bind, bind.
  rewrite (SwitchThread_unfold t1), H1, !(SwitchThread_unfold t2). simpl.
  split.
  - intros [th2 H2]. rewrite H2, set_CurrentThread_twice. reflexivity.
  - intros H2. rewrite H2. eexists. split; reflexivity.
Qed.

(** The goroutines of a fresh enumeration come from the slots of the array. *)
Lemma GoroutinesInfo_fresh_slots (p p' : Process) (r : option (list G)) :
  allGCache p = None ->
  GoroutinesInfo p = Done (Ok r) p' ->
  forall g, g ∈ default [] r -> exists ptr j, goroutine_at p ptr j = Ok g.
Proof.
  intros Hcache Hrun g Hg.
  rewrite (GoroutinesInfo_fresh p Hcache) in Hrun.
  destruct (allglen_of p) as [[n|e]|]; try discriminate Hrun.
  destruct (allgptr_of p) as [[ptr|e]|]; try discriminate Hrun.
  rewrite allg_loop_collect in Hrun.
  destruct (goroutines_from p ptr (Z.to_nat n) 0) as [gs|e] eqn:Hgs;
    [|discriminate Hrun].
  injection Hrun as <- <-.
  rewrite foldl_keep_live in Hg by discriminate.
  rewrite slice_of_default in Hg. cbn in Hg.
  apply list_elem_of_filter in Hg as [_ Hg].
  destruct (goroutines_from_elem p ptr _ _ _ _ Hgs Hg) as [j Hat]. eauto.
Qed.

Lemma goroutine_at_bound (p : Process) (ptr j : Z) (g : G) (tid : Z) :
  (forall a g, parseG (CurrentThread p) a true (tracee p) = Ok g -> thread g = None) ->
  goroutine_at p ptr j = Ok g ->
  thread g = Some tid ->
  is_Some (Threads p !! tid) /\
  exists g', GetG tid (tracee p) = Ok g' /\ Id g' = Id g.
Proof.
  intros Hparse Hat Htid. unfold goroutine_at in Hat.
  destruct (parseG (CurrentThread p) _ true (tracee p)) as [g0|e] eqn:Hp0;
    [|discriminate Hat].
  destruct (threadg_of p !! Id g0) as [tid0|] eqn:Htg.
  - destruct (Thread_Location tid0 (tracee p)) as [loc|e]; [|discriminate Hat].
    injection Hat as <-. cbn in Htid. injection Htid as <-. cbn.
    destruct (threadg_of_entry p _ _ Htg) as (Hin & _ & g' & Hg' & Hid). eauto.
  - injection Hat as <-. rewrite (Hparse _ _ Hp0) in Htid. discriminate Htid.
Qed.

Lemma FindGoroutine_found (gid : Z) (p p1 : Process) (og : option G) :
  gid <> -1 ->
  FindGoroutine gid p = Done (Ok og) p1 ->
  exists r g,
    GoroutinesInfo p = Done (Ok r) p1 /\ og = Some g /\ Id g = gid /\
    g ∈ default [] r.
Proof.
  intros Hgid. unfold FindGoroutine, mbind, M_bind, bind.
  apply Z.eqb_neq in Hgid. rewrite Hgid.
  destruct (GoroutinesInfo p) as [[r|e] p0| |]; try discriminate.
  destruct (List.find _ _) as [g|] eqn:Hfind; [|discriminate].
  intros [= <- <-]. exists r, g.
  apply find_some in Hfind as [Hin Hid]. apply Z.eqb_eq in Hid.
  apply list_elem_of_In in Hin. auto.
Qed.

(** X18.  [SwitchGoroutine] to a goroutine id other than -1, on a process
    whose goroutines have to be enumerated ([parseG] handing back goroutines
    bound to no thread): when it returns nil, the selected goroutine has the
    id asked for, and either the current thread is now the thread that runs
    that goroutine, or the current thread is the one it was. *)
Theorem SwitchGoroutine_selects (gid : Z) (p p' : Process) :
  allGCache p = None ->
  (forall a g, parseG (CurrentThread p) a true (tracee p) = Ok g -> thread g = None) ->
  gid <> -1 ->
  SwitchGoroutine gid p = Done (Ok tt) p' ->
  exists g,
    SelectedGoroutine p' = Some g /\ Id g = gid /\
    (GetG (CurrentThread p') (tracee p') = Ok g \/
     CurrentThread p' = CurrentThread p).
Proof.
  intros Hcache Hparse Hgid. unfold SwitchGoroutine, mbind, M_bind, bind.
  destruct (FindGoroutine gid p) as [[og|e] p1| |] eqn:Hfind; try discriminate.
  destruct (FindGoroutine_frame gid p p1 _ Hfind) as (HC & HS & HT & HW).
  destruct (FindGoroutine_found gid p p1 og Hgid Hfind)
    as (r & g & Hinfo & -> & Hid & Hin).
  destruct (thread g) as [tid|] eqn:Hth.
  - destruct (GoroutinesInfo_fresh_slots p p1 r Hcache Hinfo g Hin) as (ptr & j & Hat).
    destruct (goroutine_at_bound p ptr j g tid Hparse Hat Hth)
      as ([th Htid] & g' & Hg' & Hid').
    rewrite SwitchThread_unfold, HT, Htid, HW, Hg'. intros [= <-]. simpl.
    exists g'. split; [reflexivity|]. split; [congruence|]. left.
    rewrite HW. exact Hg'.
  - unfold modify. intros [= <-]. simpl. exists g. auto.
Qed.

(** X19.  A [SwitchGoroutine] that fails -- the enumeration failed, the id is
    unknown, or the goroutine's thread is no longer in the table -- has
    switched nothing: current thread, selected goroutine and threads are what
    they were. *)
Theorem SwitchGoroutine_failure (gid : Z) (p p' : Process) (e : error) :
  SwitchGoroutine gid p = Done (Err e) p' ->
  CurrentThread p' = CurrentThread p /\
  SelectedGoroutine p' = SelectedGoroutine p /\
  Threads p' = Threads p.
Proof.
  unfold SwitchGoroutine, mbind, M_bind, bind.
  destruct (FindGoroutine gid p) as [[og|e0] p1| |] eqn:Hfind; try discriminate.
  - destruct (FindGoroutine_frame gid p p1 _ Hfind) as (HC & HS & HT & HW).
    destruct og as [g|]; [|discriminate].
    destruct (thread g) as [tid|]; [|discriminate].
    rewrite SwitchThread_unfold.
    destruct (Threads p1 !! tid); [discriminate|].
    intros [= <- <-]. auto.
  - intros [= <- <-].
    destruct (FindGoroutine_frame gid p p1 _ Hfind) as (HC & HS & HT & HW). auto.
Qed.

(** X20.  [ConvertEvalScope] for a goroutine that is found, with the stack
    [GoroutineStacktrace] returns: a frame at or above the length of the stack
    is refused with "Frame %d does not exist in goroutine %d"; a frame within
    the stack gives the scope of that frame, on the goroutine's thread or, if
    it has none, on the current thread; a negative frame indexes the stack
    out of range. *)
Theorem ConvertEvalScope_frames (gid frame : Z) (p p1 p2 : Process) (g : G)
    (locs : list Stackframe) :
  FindGoroutine gid p = Done (Ok (Some g)) p1 ->
  GoroutineStacktrace g frame p1 = Done (Ok locs) p2 ->
  (Z.of_nat (length locs) <= frame ->
     ConvertEvalScope gid frame p =
       Done (Err (Errorf "Frame %d does not exist in goroutine %d"
                    [ArgInt frame; ArgInt gid])) p2) /\
  (0 <= frame < Z.of_nat (length locs) ->
     exists loc,
       locs !! Z.to_nat frame = Some loc /\
       ConvertEvalScope gid frame p =
         Done (Ok {| ScopeThread := default (CurrentThread p) (thread g);
                     ScopePC := FramePC loc; ScopeCFA := FrameCFA loc |}) p2) /\
  (frame < 0 -> ConvertEvalScope gid frame p = Panic).
Proof.
  intros Hfind Hstack.
  destruct (FindGoroutine_frame gid p p1 _ Hfind) as (HC & _).
  assert (Hunfold : ConvertEvalScope gid frame p =
    if Z.of_nat (length locs) <=? frame
    then Done (Err (Errorf "Frame %d does not exist in goroutine %d"
                      [ArgInt frame; ArgInt gid])) p2
    else match (if frame <? 0 then None else locs !! Z.to_nat frame) with
         | Some loc =>
             Done (Ok {| ScopeThread := default (CurrentThread p) (thread g);
                         ScopePC := FramePC loc; ScopeCFA := FrameCFA loc |}) p2
         | None => Panic
         end).
  { unfold ConvertEvalScope, mbind, M_bind, bind, get. rewrite Hfind, Hstack, HC.
    destruct (Z.of_nat (length locs) <=? frame); [reflexivity|].
    unfold or_panic. destruct (if frame <? 0 then None else locs !! Z.to_nat frame);
      reflexivity. }
  rewrite Hunfold. split; [|split].
  - intros Hge. apply Z.leb_le in Hge. rewrite Hge. reflexivity.
  - intros [H0 Hlt].
    destruct (lookup_lt_is_Some_2 locs (Z.to_nat frame) ltac:(lia)) as [loc Hloc].
    exists loc. split; [exact Hloc|].
    rewrite (proj2 (Z.leb_gt _ _)) by lia.
    rewrite (proj2 (Z.ltb_ge _ _)) by lia. rewrite Hloc. reflexivity.
  - intros Hneg.
    rewrite (proj2 (Z.leb_gt _ _)) by lia.
    rewrite (proj2 (Z.ltb_lt _ _)) by lia. reflexivity.
Qed.

(** ** Stops and exits *)

(** X21.  [handleBreakpointOnThread] accepts a trap on a thread of the table
    in three cases only, and then answers with that thread: the thread is
    latched on a breakpoint; a manual stop was requested; or the thread is
    inside [runtime.breakpoint], and it has been stepped twice. *)
Theorem handleBreakpointOnThread_accepts (id r : Z) (p p' : Process) :
  handleBreakpointOnThread id p = Done (Ok r) p' ->
  r = id /\ is_Some (Threads p !! id) /\
  exists p1 th,
    SetCurrentBreakpoint id p = Done (Ok tt) p1 /\
    Threads p1 !! id = Some th /\
    ((CurrentBreakpoint th <> None /\ p' = p1) \/
     (CurrentBreakpoint th = None /\ halt p1 = true /\ p' = p1) \/
     (CurrentBreakpoint th = None /\ halt p1 = false /\
      exists pc fn,
        Thread_PC id (tracee p1) = Ok pc /\ PCToFunc pc = Some fn /\
        Name fn = "runtime.breakpoint"%string /\
        (Thread_Step id;; Thread_Step id) p1 = Done (Ok tt) p')).
Proof.
  unfold handleBreakpointOnThread, mbind, M_bind, bind, get, deref, reads.
  destruct (Threads p !! id) as [th0|]; [|discriminate].
  destruct (SetCurrentBreakpoint id p) as [[[]|e] p1| |]; try discriminate.
  destruct (Threads p1 !! id) as [th|] eqn:Hth; [|discriminate].
  case_bool_decide as Hbp; simpl.
  - intros [= <- <-]. split; [reflexivity|]. split; [eauto|].
    exists p1, th. auto.
  - assert (Hnil : CurrentBreakpoint th = None).
    { destruct (CurrentBreakpoint th); [discriminate Hbp|reflexivity]. }
    destruct (halt p1) eqn:Hhalt.
    + intros [= <- <-]. split; [reflexivity|]. split; [eauto|].
      exists p1, th. auto 10.
    + destruct (Thread_PC id (tracee p1)) as [pc|e] eqn:Hpc; [|discriminate].
      destruct (PCToFunc pc) as [fn|] eqn:Hfn; [|discriminate].
      destruct (String.eqb (Name fn) "runtime.breakpoint") eqn:Hname; [|discriminate].
      apply String.eqb_eq in Hname.
      destruct (Thread_Step id p1) as [[[]|e] p2| |] eqn:Hs1; try discriminate.
      destruct (Thread_Step id p2) as [[[]|e] p3| |] eqn:Hs2; try discriminate.
      intros [= <- <-]. split; [reflexivity|]. split; [eauto|].
      exists p1, th. split; [reflexivity|]. split; [exact Hth|].
      right. right. split; [exact Hnil|]. split; [exact Hhalt|].
      exists pc, fn. rewrite Hs1. auto.
Qed.

(** Once [postExit] has run the process cannot be resumed: [run], with
    whatever function, and so [Step], fail with "process has already exited",
    having reset the goroutine cache and touched nothing else -- no thread is
    unlatched, none is stepped. *)
Lemma run_after_postExit (p : Process) :
  (forall fn : M unit,
     (postExit;; run fn) p =
       Done (Err (Errorf "process has already exited" []))
            (set_allGCache None (set_exited true p))) /\
  (postExit;; Step) p =
    Done (Err (Errorf "process has already exited" []))
         (set_allGCache None (set_exited true p)).
Proof.
  split; [intros fn|]; reflexivity.
Qed.

(** X25.  [Running] answers true exactly when some thread of the table is
    marked running, in whatever order the table is walked. *)
Theorem Running_iff (p : Process) :
  Running p = true <-> exists k th, Threads p !! k = Some th /\ running th = true.
Proof.
  unfold Running. rewrite existsb_exists. split.
  - intros (k & _ & Hk). destruct (Threads p !! k) as [th|] eqn:Hth; [|discriminate Hk].
    eauto.
  - intros (k & th & Hth & Hr). exists k. split.
    + apply list_elem_of_In, range_keys_elem. eauto.
    + rewrite Hth. exact Hr.
Qed.

(** ** The first line of a function *)

Lemma first_line_loop_skipping (filename funcName : string) (entry : Z) :
  forall (fuel k : nat) (lineno : Z),
    (fuel <= k)%nat ->
    (forall j : nat, (0 < j <= k)%nat ->
       line_skipped filename funcName (wrap_int (lineno + Z.of_nat j))) ->
    first_line_loop fuel filename funcName lineno entry = None.
Proof.
  induction fuel as [|fuel IH]; intros k lineno Hk Hskip; [reflexivity|].
  cbn [first_line_loop].
  pose proof (Hskip 1%nat ltac:(lia)) as H1. unfold line_skipped in H1.
  replace (lineno + Z.of_nat 1) with (lineno + 1) in H1 by lia.
  assert (Hrec : first_line_loop fuel filename funcName (wrap_int (lineno + 1)) entry = None).
  { apply (IH (k - 1)%nat); [lia|].
    intros j Hj. rewrite wrap_int_add_l.
    replace (lineno + 1 + Z.of_nat j) with (lineno + Z.of_nat (S j)) by lia.
    apply Hskip. lia. }
  destruct (LineToPC filename (wrap_int (lineno + 1))) as [[pc1 [fn1|]] e1];
    cbn [fst snd] in H1; [|exact Hrec].
  destruct H1 as [Hne Hcont].
  apply String.eqb_neq in Hne. rewrite Hne, Hcont. cbn [negb]. exact Hrec.
Qed.

(** X22.  The search for the first line has no bound of its own: as long as
    the lines after the entry line resolve to no function, or to functions
    whose name only contains [funcName], it goes on -- after [k] such lines
    it has not returned within [k] rounds.  When every line after the entry
    line is of that kind, it does not return at all. *)
Theorem FindFunctionLocation_runs_on (funcName : string) (origfn : Func)
    (filename : string) (lineno : Z) (fn0 : option Func) (k : nat) :
  LookupFunc funcName = Some origfn ->
  PCToLine (Entry origfn) = (filename, lineno, fn0) ->
  Ext filename = ".go"%string ->
  (forall j : nat, (0 < j <= k)%nat ->
     line_skipped filename funcName (wrap_int (lineno + Z.of_nat j))) ->
  forall fuel lineOffset, (fuel <= k)%nat ->
    FindFunctionLocation fuel funcName true lineOffset = None.
Proof.
  intros Hlook Hentry Hext Hskip fuel off Hfuel.
  unfold FindFunctionLocation. rewrite Hlook, Hentry.
  apply String.eqb_eq in Hext. rewrite Hext. cbn [negb].
  rewrite (first_line_loop_skipping filename funcName (Entry origfn) fuel k lineno Hfuel Hskip).
  reflexivity.
Qed.

End Properties.

(** * getGoInformation *)

Section GoInformationProperties.

Context {vt : VersionTools}.

Lemma compile_units_passed_over (pre rest : list (option DwarfEntry * option error)) :
  Forall passed_over pre ->
  compile_units (pre ++ rest) = compile_units rest.
Proof.
  induction 1 as [|u pre Hu _ IH]; [reflexivity|].
  destruct Hu as (entry & -> & Hprod). cbn.
  destruct (AttrProducer entry) as [prod|]; [|exact IH].
  rewrite Hprod. exact IH.
Qed.

(** X23.  [getGoInformation], once the version is read and parsed as [ver],
    walks the compile units up to the first one it does not pass over, and
    answers with [ver] and:
    - external linking and no error, when that unit is read without error
      and its producer starts with "GNU AS";
    - the reader's error, when that unit comes with an entry and an error;
    - internal linking and no error, when the reader returns a nil entry --
      even when it returns it with an error, which is dropped -- and when
      the units run out. *)
Theorem getGoInformation_linker (v : PkgVariable) (ver : GoVersion)
    (pre rest : list (option DwarfEntry * option error)) :
  Unreadable v = None ->
  parseVersionString (StringVal (Value v)) = (ver, true) ->
  Forall passed_over pre ->
  (forall entry prod,
     AttrProducer entry = Some prod -> String.prefix "GNU AS" prod = true ->
     getGoInformation (Ok v) (pre ++ (Some entry, None) :: rest) = (ver, true, None)) /\
  (forall entry e,
     getGoInformation (Ok v) (pre ++ (Some entry, Some e) :: rest) = (ver, false, Some e)) /\
  (forall oe,
     getGoInformation (Ok v) (pre ++ (None, oe) :: rest) = (ver, false, None)) /\
  getGoInformation (Ok v) pre = (ver, false, None).
Proof.
  intros Hread Hparse Hpre. unfold getGoInformation. rewrite Hread, Hparse. cbn [negb].
  split; [|split; [|split]].
  - intros entry prod Hprod Hgnu.
    rewrite (compile_units_passed_over pre _ Hpre). cbn. rewrite Hprod, Hgnu. reflexivity.
  - intros entry e. rewrite (compile_units_passed_over pre _ Hpre). reflexivity.
  - intros oe. rewrite (compile_units_passed_over pre _ Hpre). reflexivity.
  - rewrite <- (app_nil_r pre), (compile_units_passed_over pre [] Hpre). reflexivity.
Qed.

(** X24.  [getGoInformation] reports external linking only without an
    error, and only when a compile unit whose producer starts with "GNU AS"
    was read, every unit before it having been read without error. *)
Theorem getGoInformation_isextld (vv : result PkgVariable)
    (units : list (option DwarfEntry * option error)) (ver : GoVersion)
    (err : option error) :
  getGoInformation vv units = (ver, true, err) ->
  err = None /\
  exists (i : nat) entry prod,
    units !! i = Some (Some entry, None) /\
    AttrProducer entry = Some prod /\
    String.prefix "GNU AS" prod = true /\
    forall j, (j < i)%nat -> exists u, units !! j = Some u /\ passed_over u.
Proof.
  unfold getGoInformation.
  destruct vv as [v|e]; [|discriminate].
  destruct (Unreadable v); [discriminate|].
  destruct (parseVersionString (StringVal (Value v))) as [ver0 ok].
  destruct ok; cbn [negb]; [|discriminate].
  destruct (compile_units units) as [isextld err0] eqn:Hloop.
  intros [= -> -> ->]. clear v ver.
  revert Hloop. induction units as [|[[entry|] [e|]] units IH]; cbn;
    try discriminate.
  destruct (AttrProducer entry) as [prod|] eqn:Hprod.
  - destruct (String.prefix "GNU AS" prod) eqn:Hgnu.
    + intros [= <-]. split; [reflexivity|].
      exists 0%nat, entry, prod. repeat split; auto. intros j Hj. lia.
    + intros Hrest. destruct (IH Hrest) as (Herr & i & en & pr & Hi & Hp & Hg & Hbefore).
      split; [exact Herr|]. exists (S i), en, pr. repeat split; auto.
      intros [|j] Hj.
      * eexists. split; [reflexivity|]. exists entry. rewrite Hprod. auto.
      * apply Hbefore. lia.
  - intros Hrest. destruct (IH Hrest) as (Herr & i & en & pr & Hi & Hp & Hg & Hbefore).
    split; [exact Herr|]. exists (S i), en, pr. repeat split; auto.
    intros [|j] Hj.
    + eexists. split; [reflexivity|]. exists entry. rewrite Hprod. auto.
    + apply Hbefore. lia.
Qed.

End GoInformationProperties.


(** * The model on the small platform *)

Example Ext_go : Ext "proc/main.go" = ".go"%string.
Proof. reflexivity. Qed.

Example Ext_last_element : Ext "a.b/c" = EmptyString.
Proof. reflexivity. Qed.

Example Contains_closure : Contains "main.main.func1" "main.main" = true.
Proof. reflexivity. Qed.

Example Contains_other : Contains "main.helper" "main.main" = false.
Proof. reflexivity. Qed.

Example Uint64_le : Uint64 (le64 x00 x02) = Some 512.
Proof. reflexivity. Qed.

Example Uint64_nil : Uint64 [] = None.
Proof. reflexivity. Qed.

Example wrap64_underflow : wrap64 (0 - 1) = 18446744073709551615.
Proof. reflexivity. Qed.

Example FindBreakpoint_at : FindBreakpoint (demo_process []) 48 = Some demo_userbp.
Proof. reflexivity. Qed.

Example FindBreakpoint_before : FindBreakpoint (demo_process []) 47 = None.
Proof. reflexivity. Qed.

Example FindFunctionLocation_entry :
  FindFunctionLocation 0 "main.main" false 0 = Some (4096, None).
Proof. reflexivity. Qed.

Example FindFunctionLocation_offset :
  FindFunctionLocation 0 "main.main" false 2 = Some (4112, None).
Proof. reflexivity. Qed.

Example FindFunctionLocation_assembly :
  FindFunctionLocation 0 "main.helper" true 0 = Some (4192, None).
Proof. reflexivity. Qed.

Example FindFunctionLocation_out_of_fuel :
  FindFunctionLocation 2 "main.main" true 0 = None.
Proof. reflexivity. Qed.


(** C4, the claim as stated fails: address 47 resolves to nothing, the
    address one trap further resolves to the breakpoint at 48. *)
Lemma FindBreakpoint_shift_counterexample :
  ~ (forall (p : Process World) (pc : Z),
       FindBreakpoint p (wrap64 (pc + wrap64 BreakpointSize)) = FindBreakpoint p pc).
Proof.
  intros H. specialize (H (demo_process []) 47).
  vm_compute in H. discriminate H.
Qed.

Lemma FindBreakpoint_resolves_witness :
  FindBreakpoint (demo_process []) 48 = Some demo_userbp /\
  FindBreakpoint (demo_process []) (wrap64 (48 + wrap64 BreakpointSize)) = Some demo_userbp.
Proof.
  apply (proj2 (proj2 (FindBreakpoint_resolves (demo_process []) 48)) demo_userbp).
  - lia.
  - reflexivity.
  - reflexivity.
Defined.

(** C3, the failing run.  The table holds one breakpoint, at 48.
    [ClearBreakpoint 49] finds it through the post-trap lookup, writes its
    original bytes back and reports it cleared, but deletes key 49: the
    breakpoint found is still in the table. *)
Theorem ClearBreakpoint_post_trap_keeps_entry :
  exists p',
    FindBreakpoint (demo_process []) 49 = Some demo_userbp /\
    ClearBreakpoint 49 (demo_process []) = Done (Ok demo_userbp) p' /\
    restored (tracee p') = [48] /\
    Breakpoints p' !! 48 = Some demo_userbp.
Proof. eexists. repeat split. Qed.

Lemma Next_while_nexting_witness :
  Next 0 demo_nexting = Done (Err (Errorf "next while nexting" [])) demo_nexting.
Proof.
  apply (Next_while_nexting 0 demo_nexting 32 demo_tempbp).
  - reflexivity.
  - reflexivity.
Defined.

Lemma FindFunctionLocation_spec_witness :
  FindFunctionLocation 3 "main.main" true 0 = Some (4128, None).
Proof.
  refine (proj1 (proj1 (proj2 (FindFunctionLocation_spec "main.main" demo_main
            "main.go" 10 (Some demo_main) _ _)) _ 3%nat 4128 demo_main None _ _ _
            3%nat 0 _) _).
  - reflexivity.
  - reflexivity.
  - reflexivity.
  - lia.
  - intros j Hj. assert (Hcases : j = 1%nat \/ j = 2%nat) by lia.
    destruct Hcases as [-> | ->]; vm_compute; auto.
    split; [discriminate|reflexivity].
  - reflexivity.
  - lia.
  - reflexivity.
Defined.

Lemma GoroutinesInfo_unchecked_read_witness :
  GoroutinesInfo (demo_fresh (le64 x03 x00, None) ([], Some (OtherError 4))) = Panic.
Proof.
  refine (proj1 (GoroutinesInfo_unchecked_read
            (demo_fresh (le64 x03 x00, None) ([], Some (OtherError 4)))
            3 264 [] (Some (OtherError 4)) _ _ _ _) _).
  - reflexivity.
  - reflexivity.
  - reflexivity.
  - reflexivity.
  - cbn. lia.
Defined.

(** C9, the claim as stated fails for a failed read: the read of the array
    pointer returns the error 4 together with eight bytes, and
    [GoroutinesInfo] neither panics nor returns the error; it decodes the
    bytes and enumerates the goroutines at the pointer they spell. *)
Lemma GoroutinesInfo_failed_read_counterexample :
  exists (r : option (list G)) (p' : Process World),
    readMemory (CurrentThread demo_failed_read) 264 PtrSize (tracee demo_failed_read) =
      (le64 x00 x02, Some (OtherError 4)) /\
    GoroutinesInfo demo_failed_read = Done (Ok r) p' /\
    length (default [] r) = 2%nat.
Proof.
  eexists. eexists. split; [reflexivity|]. split; [vm_compute; reflexivity|reflexivity].
Qed.

(** C7, the claim as stated fails: with a count of zero the enumeration
    returns the nil slice. *)
Lemma GoroutinesInfo_nil_counterexample :
  exists p',
    GoroutinesInfo (demo_fresh (le64 x00 x00, None) (le64 x00 x02, None)) =
      Done (Ok None) p' /\
    allGCache p' = None.
Proof. eexists. split; [vm_compute; reflexivity|reflexivity]. Qed.

Lemma GoroutinesInfo_skips_dead_witness :
  (exists (r : option (list G)) (p' : Process World),
     GoroutinesInfo (demo_fresh (le64 x03 x00, None) (le64 x00 x02, None)) =
       Done (Ok r) p' /\
     length (default [] r) = 2%nat /\
     (forall g, g ∈ default [] r -> Status g <> Gdead)) /\
  (exists (r : option (list G)) (p' : Process World),
     GoroutinesInfo demo_one_dead = Done (Ok r) p' /\
     parseG (CurrentThread demo_one_dead) 512 true (tracee demo_one_dead) =
       Ok (demo_g 7 2 None) /\
     r = None).
Proof.
  split.
  - eexists. eexists.
    assert (Hrun : GoroutinesInfo (demo_fresh (le64 x03 x00, None) (le64 x00 x02, None)) =
                   Done (Ok _) _) by (vm_compute; reflexivity).
    split; [exact Hrun|]. split; [reflexivity|].
    refine (proj1 (GoroutinesInfo_skips_dead _ _ _ _ Hrun)).
    intros l g Hl. discriminate Hl.
  - assert (Hrun : exists r p', GoroutinesInfo demo_one_dead = Done (Ok r) p').
    { eexists. eexists. vm_compute. reflexivity. }
    destruct Hrun as (r & p' & Hrun). exists r, p'.
    split; [exact Hrun|]. split; [reflexivity|].
    assert (Hlive : cache_live demo_one_dead).
    { intros l g Hl. discriminate Hl. }
    refine (proj2 (proj2 (proj2 (proj2 (proj2
              (GoroutinesInfo_skips_dead demo_one_dead p' r Hlive Hrun)) eq_refl)))
              1 520 _ _ _).
    + vm_compute. reflexivity.
    + vm_compute. reflexivity.
    + intros i g Hi. assert (i = 0%nat) as -> by (simpl in Hi; lia).
      vm_compute. intros [= <-]. reflexivity.
Defined.

(** C5, the claim as stated fails.  Goroutine -1 with a selected goroutine
    that is bound to a thread goes through [SwitchThread]: the selected
    snapshot is replaced by what the thread's goroutine is now, and when the
    snapshot is bound to thread 2 while thread 1 is current, thread 2 becomes
    current. *)
Lemma SwitchGoroutine_minus_one_counterexample :
  (exists p',
     SwitchGoroutine (-1) demo_after_step = Done (Ok tt) p' /\
     SelectedGoroutine p' <> SelectedGoroutine demo_after_step) /\
  (exists p',
     SwitchGoroutine (-1) demo_two_threads = Done (Ok tt) p' /\
     CurrentThread p' <> CurrentThread demo_two_threads /\
     SelectedGoroutine p' <> SelectedGoroutine demo_two_threads).
Proof.
  split.
  - eexists. split; [vm_compute; reflexivity|]. vm_compute. discriminate.
  - eexists. split; [vm_compute; reflexivity|]. split; vm_compute; discriminate.
Qed.

Lemma SwitchGoroutine_cases_witness :
  SwitchGoroutine 9 (demo_fresh (le64 x03 x00, None) (le64 x00 x02, None)) =
    Done (Ok tt)
      (set_SelectedGoroutine (Some (demo_g 9 4 None))
         (set_allGCache
            (Some [attach_thread 1
                     {| PC := 1; File := "main.go"; Line := 10; Fn := Some demo_main |}
                     (demo_g 7 2 None);
                   demo_g 9 4 None])
            (demo_fresh (le64 x03 x00, None) (le64 x00 x02, None)))) /\
  SwitchGoroutine (-1) (demo_process []) = Done (Ok tt) (demo_process []).
Proof.
  split.
  - refine (proj1 (proj2 (proj2 (proj2 (SwitchGoroutine_cases 9
              (demo_fresh (le64 x03 x00, None) (le64 x00 x02, None)))))
              (demo_g 9 4 None) _ _ _)).
    + vm_compute. reflexivity.
    + reflexivity.
  - refine (proj1 (SwitchGoroutine_cases (-1) (demo_process [])) _ _); reflexivity.
Defined.

(** C2, the claim as stated fails.  A manual stop is reported on thread 1,
    which is on no breakpoint, while thread 2 has run into a breakpoint
    whose condition is false: at this stop every breakpoint that was hit has
    a false condition, and [Continue] returns nil instead of going round
    again.  And a stop on the temporary breakpoint at 32 with a user
    breakpoint at 31: [Continue] returns nil with the temporary breakpoint
    out of the table, but [Breakpoint.Clear] has run on the breakpoint at 31
    and not on the temporary one. *)
Lemma Continue_false_condition_counterexample :
  (exists (q1 p' : Process World) (th : Thread) (bp : Breakpoint),
     continueOnce (pf := demo_busy) demo_manual = Done (Ok tt) q1 /\
     Threads q1 !! 2 = Some th /\
     CurrentBreakpoint th = Some bp /\
     (forall k th' bp', Threads q1 !! k = Some th' ->
        CurrentBreakpoint th' = Some bp' ->
        checkCondition (pf := demo_busy) bp' k (tracee q1) = false) /\
     Continue (pf := demo_busy) 1 demo_manual = Done (Ok tt) p') /\
  (exists p' : Process World,
     Continue 1 demo_adjacent = Done (Ok tt) p' /\
     Breakpoints p' !! 32 = None /\
     Breakpoints p' !! 31 = Some demo_below /\
     restored (tracee p') = [31]).
Proof.
  split.
  - eexists. eexists. eexists. eexists.
    assert (Honce : continueOnce (pf := demo_busy) demo_manual = Done (Ok tt) _)
      by (vm_compute; reflexivity).
    split; [exact Honce|].
    split; [vm_compute; reflexivity|]. split; [reflexivity|].
    split; [|vm_compute; reflexivity].
    apply (conditions_false_check (pf := demo_busy)). vm_compute. reflexivity.
  - eexists. split; [vm_compute; reflexivity|].
    split; [reflexivity|]. split; reflexivity.
Qed.

Lemma Continue_returns_or_loops_witness :
  (exists (p' q : Process World) (c : Thread),
     Continue 1 (demo_process [(1, 48)]) = Done (Ok tt) p' /\
     Threads q !! CurrentThread q = Some c) /\
  (exists q1 q,
     continueOnce (demo_waiting [(1, 32); (1, 48)]) = Done (Ok tt) q1 /\
     runBreakpointConditions q1 = Done (Ok tt) q /\
     Continue 2 (demo_waiting [(1, 32); (1, 48)]) = Continue 1 q).
Proof.
  split.
  - eexists.
    assert (Hrun : Continue 1 (demo_process [(1, 48)]) = Done (Ok tt) _)
      by (vm_compute; reflexivity).
    destruct (proj1 Continue_returns_or_loops 1%nat _ _ Hrun)
      as (p0 & q1 & q & c & _ & _ & Hc & _ & _).
    exists q, c. split; [exact Hrun|exact Hc].
  - eexists.
    assert (Honce : continueOnce (demo_waiting [(1, 32); (1, 48)]) = Done (Ok tt) _)
      by (vm_compute; reflexivity).
    destruct (proj2 Continue_returns_or_loops 1%nat _ _
                {| running := false; CurrentBreakpoint := Some demo_foreign_temp;
                   BreakpointConditionMet := false |} Honce)
      as (q & Hcond & Hloop).
    + vm_compute. reflexivity.
    + discriminate.
    + apply conditions_false_check. vm_compute. reflexivity.
    + exists q. split; [exact Honce|]. split; [exact Hcond|exact Hloop].
Defined.



(** The small platform leaves the halt flag alone. *)
#[local] Instance demo_keeps_halt : PlatformKeepsHalt demo.
Proof.
  assert (Hset : forall tid addr temp, keeps_halt (demo_setBreakpoint tid addr temp)).
  { intros tid addr temp p r p'. unfold demo_setBreakpoint.
    destruct (Breakpoints p !! addr); intros [= <- <-]; reflexivity. }
  split; try (intros; intros p r p' [= <- <-]; reflexivity).
  - intros tid p r p'. cbn. unfold demo_setNextBreakpoints.
    destruct (demo_setBreakpoint tid (next_line_addr (tracee p)) true p)
      as [[bp|e] p1| |] eqn:Hbp; try discriminate.
    + intros [= <- <-]. exact (Hset _ _ _ _ _ _ Hbp).
    + intros [= <- <-]. exact (Hset _ _ _ _ _ _ Hbp).
  - exact Hset.
  - intros pid p r p'. cbn. unfold demo_trapWait.
    destruct (pending (tracee p)) as [|[tid pc] rest]; intros [= <- <-]; reflexivity.
Qed.

Lemma halt_kept_by_the_file_witness :
  exists p p' : Process World,
    RequestManualStop (demo_process [(1, 48)]) = Done (Ok tt) p /\
    perform_all [OpContinue 1; OpStep; OpGoroutinesInfo] p = Some p' /\
    halt p' = true /\
    handleBreakpointOnThread 1 p' = Done (Ok 1) p'.
Proof.
  eexists. eexists.
  assert (Hreq : RequestManualStop (demo_process [(1, 48)]) = Done (Ok tt) _)
    by (vm_compute; reflexivity).
  split; [exact Hreq|].
  match type of Hreq with
  | _ = Done _ ?p =>
      assert (Hops : perform_all [OpContinue 1; OpStep; OpGoroutinesInfo] p = Some _)
        by (vm_compute; reflexivity)
  end.
  split; [exact Hops|].
  destruct (halt_kept_by_the_file _ _ _ _ _ Hreq Hops) as [Hhalt Hstop].
  split; [exact Hhalt|].
  apply (Hstop 1 _ {| running := false; CurrentBreakpoint := None;
                      BreakpointConditionMet := true |}).
  - eexists. vm_compute. reflexivity.
  - reflexivity.
  - vm_compute. reflexivity.
  - reflexivity.
Defined.

(** * The further properties on the small platform *)

Lemma demo_lookup_G_elem (k : Z) (l : list (Z * G)) (g : G) :
  demo_lookup_G k l = Ok g -> In g (map snd l).
Proof.
  unfold demo_lookup_G, assoc.
  destruct (List.find (fun e : Z * G => e.1 =? k) l) as [[k' g']|] eqn:Hfind;
    [|discriminate].
  cbn. intros [= <-]. apply find_some in Hfind as [Hin _].
  apply (in_map snd) in Hin. exact Hin.
Qed.

Lemma demo_parseG_unbound (p : Process World) (a : Z) (g : G) :
  tracee p = tracee demo_three ->
  parseG (CurrentThread p) a true (tracee p) = Ok g -> thread g = None.
Proof.
  intros Hw Hp. rewrite Hw in Hp.
  change (demo_lookup_G a (goroutines (tracee demo_three)) = Ok g) in Hp.
  apply demo_lookup_G_elem in Hp. simpl in Hp.
  destruct Hp as [<-|[<-|[<-|[]]]]; reflexivity.
Qed.

Lemma GoroutinesInfo_enumerates_witness :
  GoroutinesInfo demo_three =
    Done (Ok (Some [attach_thread 1
                      {| PC := 1; File := "main.go"; Line := 10; Fn := Some demo_main |}
                      (demo_g 7 2 None);
                    demo_g 9 4 None]))
         (set_allGCache
            (Some [attach_thread 1
                     {| PC := 1; File := "main.go"; Line := 10; Fn := Some demo_main |}
                     (demo_g 7 2 None);
                   demo_g 9 4 None])
            demo_three).
Proof.
  refine (eq_trans (GoroutinesInfo_enumerates demo_three 3 512 _ _ _) _).
  - reflexivity.
  - vm_compute. reflexivity.
  - vm_compute. reflexivity.
  - vm_compute. reflexivity.
Defined.

Lemma GoroutinesInfo_bound_threads_witness :
  exists (r : option (list G)) (p' : Process World),
    GoroutinesInfo demo_three = Done (Ok r) p' /\
    attach_thread 1 {| PC := 1; File := "main.go"; Line := 10; Fn := Some demo_main |}
      (demo_g 7 2 None) ∈ default [] r /\
    is_Some (Threads demo_three !! 1) /\
    exists g', GetG 1 (tracee demo_three) = Ok g' /\ Id g' = 7.
Proof.
  eexists. eexists.
  assert (Hrun : GoroutinesInfo demo_three = Done (Ok _) _) by (vm_compute; reflexivity).
  split; [exact Hrun|].
  assert (Hin : attach_thread 1
                  {| PC := 1; File := "main.go"; Line := 10; Fn := Some demo_main |}
                  (demo_g 7 2 None) ∈ default [] (Some [attach_thread 1
                      {| PC := 1; File := "main.go"; Line := 10; Fn := Some demo_main |}
                      (demo_g 7 2 None); demo_g 9 4 None])).
  { apply elem_of_cons. left. reflexivity. }
  split; [exact Hin|].
  destruct (GoroutinesInfo_bound_threads demo_three _ _ eq_refl
              (fun a g => demo_parseG_unbound demo_three a g eq_refl) Hrun _ 1 Hin eq_refl)
    as (Htab & _ & _ & Hg).
  split; [exact Htab|exact Hg].
Defined.

Lemma GoroutinesInfo_only_writes_cache_witness :
  exists (r : result (option (list G))) (p' : Process World),
    GoroutinesInfo demo_three = Done r p' /\
    Threads p' = Threads demo_three /\ tracee p' = tracee demo_three.
Proof.
  eexists. eexists.
  assert (Hrun : GoroutinesInfo demo_three = Done _ _) by (vm_compute; reflexivity).
  split; [exact Hrun|].
  destruct (GoroutinesInfo_only_writes_cache demo_three _ _ Hrun)
    as (_ & HT & _ & _ & _ & _ & HW & _).
  split; [exact HT|exact HW].
Defined.


Lemma FindGoroutine_searches_witness :
  exists (og : option G) (p' : Process World),
    FindGoroutine 9 demo_three = Done (Ok og) p' /\
    exists g, og = Some g /\ Id g = 9.
Proof.
  eexists. eexists.
  assert (Hinfo : GoroutinesInfo demo_three = Done (Ok _) _) by (vm_compute; reflexivity).
  assert (Hfind : FindGoroutine 9 demo_three = Done (Ok _) _) by (vm_compute; reflexivity).
  split; [exact Hfind|].
  destruct (proj1 (FindGoroutine_searches 9 demo_three _ _ ltac:(lia) Hinfo) _ _ Hfind)
    as (_ & g & Hog & Hid & _).
  exists g. split; [exact Hog|exact Hid].
Defined.

Lemma ClearBreakpoint_own_address_witness :
  exists p',
    ClearBreakpoint 48 (demo_process []) = Done (Ok demo_userbp) p' /\
    Breakpoints p' = delete 48 (Breakpoints (demo_process [])) /\
    FindBreakpoint p' 48 = None.
Proof.
  assert (Hat : Breakpoints (demo_process []) !! 48 = Some demo_userbp) by reflexivity.
  assert (Hbelow : Breakpoints (demo_process []) !! wrap64 (48 - wrap64 BreakpointSize)
                   = None) by (vm_compute; reflexivity).
  destruct (ClearBreakpoint_own_address (demo_process []) 48 demo_userbp Hat Hbelow)
    as (p' & Hrun & Hdel & Hfind & _).
  exists p'. split; [exact Hrun|]. split; [exact Hdel|exact Hfind].
Defined.

Lemma clearTempBreakpoints_filters_witness :
  exists p',
    clearTempBreakpoints demo_nexting = Done (Ok tt) p' /\
    Breakpoints p' =
      filter (fun e : Z * Breakpoint => Temp e.2 = false) (Breakpoints demo_nexting).
Proof.
  eexists.
  assert (Hrun : clearTempBreakpoints demo_nexting = Done (Ok tt) _)
    by (vm_compute; reflexivity).
  split; [exact Hrun|].
  refine (proj1 (clearTempBreakpoints_filters demo_nexting _ _ Hrun)).
  apply table_keyed_check. vm_compute. reflexivity.
Defined.

Lemma clearTempBreakpoints_failure_witness :
  exists p',
    clearTempBreakpoints demo_misfiled = Done (Err (NoBreakpointError 64)) p' /\
    Threads p' = Threads demo_misfiled.
Proof.
  eexists.
  assert (Hrun : clearTempBreakpoints demo_misfiled = Done (Err (NoBreakpointError 64)) _)
    by (vm_compute; reflexivity).
  split; [exact Hrun|].
  exact (proj1 (clearTempBreakpoints_failure demo_misfiled _ _ Hrun)).
Defined.

Lemma FindBreakpointByID_searches_witness :
  exists bp,
    FindBreakpointByID (demo_process []) 1 = Some bp /\
    ID bp = 1 /\ exists a, Breakpoints (demo_process []) !! a = Some bp.
Proof.
  eexists.
  assert (Hfind : FindBreakpointByID (demo_process []) 1 = Some _)
    by (vm_compute; reflexivity).
  split; [exact Hfind|].
  exact (proj1 (FindBreakpointByID_searches (demo_process []) 1) _ Hfind).
Defined.

Lemma Detach_clears_every_breakpoint_witness :
  exists p',
    Detach false demo_nexting = Done (Ok tt) p' /\ Breakpoints p' = ∅.
Proof.
  eexists.
  assert (Hrun : Detach false demo_nexting = Done (Ok tt) _) by (vm_compute; reflexivity).
  split; [exact Hrun|].
  refine (proj1 (Detach_clears_every_breakpoint demo_nexting _ _ _ Hrun)).
  - vm_compute. reflexivity.
  - apply table_keyed_check. vm_compute. reflexivity.
Defined.


Lemma runBreakpointConditions_prefers_temp_witness :
  exists (q : Process World) (c : Thread) (bp : Breakpoint),
    runBreakpointConditions demo_two_latched = Done (Ok tt) q /\
    Threads q !! CurrentThread q = Some c /\
    CurrentBreakpoint c = Some bp /\ Temp bp = true /\
    BreakpointConditionMet c = true.
Proof.
  destruct (runBreakpointConditions_prefers_temp demo_two_latched
              (demo_latched demo_userbp) eq_refl)
    as (q & c & Hrun & Hc & Htemp & _).
  destruct Htemp as (bp & Hbp & Ht & Hmet).
  { exists 2, (demo_latched demo_temp8), demo_temp8. repeat split. }
  exists q, c, bp. repeat split; assumption.
Defined.

Lemma Continue_returns_at_stop_witness :
  exists (q1 q : Process World) (c : Thread),
    continueOnce (demo_process [(1, 48)]) = Done (Ok tt) q1 /\
    runBreakpointConditions q1 = Done (Ok tt) q /\
    Threads q !! CurrentThread q = Some c /\
    Continue 1 (demo_process [(1, 48)]) =
      if onTriggeredTempBreakpoint c then clearTempBreakpoints q else Done (Ok tt) q.
Proof.
  eexists.
  assert (Honce : continueOnce (demo_process [(1, 48)]) = Done (Ok tt) _)
    by (vm_compute; reflexivity).
  destruct (Continue_returns_at_stop 0 _ _ (demo_latched demo_userbp) Honce)
    as (q & c & Hrun & Hc & Hcont).
  - vm_compute. reflexivity.
  - right. exists 1, (demo_latched demo_userbp), demo_userbp.
    split; [vm_compute; reflexivity|]. split; reflexivity.
  - exists q, c. split; [exact Honce|]. split; [exact Hrun|]. split; [exact Hc|exact Hcont].
Defined.

Lemma Next_prepare_stamps_witness :
  exists (p1 : Process World) (g : G),
    Next_prepare (demo_process []) = Done (Ok tt) p1 /\
    GetG (CurrentThread (demo_process [])) (tracee (demo_process [])) = Ok g /\
    no_temp (demo_process []).
Proof.
  eexists.
  assert (Hrun : Next_prepare (demo_process []) = Done (Ok tt) _)
    by (vm_compute; reflexivity).
  destruct (Next_prepare_stamps (demo_process []) _ Hrun) as (Hno & g & Hg & _).
  exists g. split; [exact Hrun|]. split; [exact Hg|exact Hno].
Defined.

Lemma Next_error_paths_witness :
  Next 1 demo_lost_thread = Done (Err (OtherError 5)) demo_lost_thread.
Proof.
  refine (proj1 (Next_error_paths 1 demo_lost_thread _) (OtherError 5) _).
  - apply nexting_no_temp. vm_compute. reflexivity.
  - reflexivity.
Defined.

Lemma setChanRecvBreakpoints_skips_witness :
  ChanRecvBlocked (Platform := demo_busy) (demo_g 9 4 None) = true /\
  chanRecvReturnAddr (Platform := demo_busy) (demo_g 9 4 None) (tracee demo_blocked) =
    Err NullAddrError /\
  ChanRecvBlocked (Platform := demo_busy) (demo_g 10 4 None) = true /\
  chanRecvReturnAddr (Platform := demo_busy) (demo_g 10 4 None) (tracee demo_blocked) =
    Ok 48 /\
  SetTempBreakpoint (pf := demo_busy) 48 demo_blocked =
    Done (Err (BreakpointExistsError 48)) demo_blocked /\
  setChanRecvBreakpoints (pf := demo_busy) demo_blocked = Done (Ok 0) demo_blocked.
Proof.
  assert (Hexists : SetTempBreakpoint (pf := demo_busy) 48 demo_blocked =
                    Done (Err (BreakpointExistsError 48)) demo_blocked)
    by (vm_compute; reflexivity).
  split; [reflexivity|]. split; [reflexivity|]. split; [reflexivity|].
  split; [reflexivity|]. split; [exact Hexists|].
  refine (setChanRecvBreakpoints_skips (pf := demo_busy) demo_blocked demo_blocked
            (Some [demo_g 9 4 None; demo_g 10 4 None; demo_g 7 2 (Some 1)]) _ _).
  - reflexivity.
  - intros g Hg Hblocked. simpl in Hg.
    apply elem_of_cons in Hg as [->|Hg]; [left; reflexivity|].
    apply elem_of_cons in Hg as [->|Hg]; [right; exists 48, 48; split; [reflexivity|exact Hexists]|].
    apply elem_of_cons in Hg as [->|Hg]; [discriminate Hblocked|].
    by apply elem_of_nil in Hg.
Defined.

Lemma SwitchThread_last_wins_witness :
  (SwitchThread 2;; SwitchThread 1) demo_two_threads = SwitchThread 1 demo_two_threads.
Proof.
  refine (proj1 (SwitchThread_last_wins 2 1 demo_two_threads _) _).
  - eexists. vm_compute. reflexivity.
  - eexists. vm_compute. reflexivity.
Defined.

Lemma SwitchGoroutine_selects_witness :
  exists (p' : Process World) (g : G),
    SwitchGoroutine 7 demo_three = Done (Ok tt) p' /\
    SelectedGoroutine p' = Some g /\ Id g = 7.
Proof.
  eexists.
  assert (Hrun : SwitchGoroutine 7 demo_three = Done (Ok tt) _)
    by (vm_compute; reflexivity).
  destruct (SwitchGoroutine_selects 7 demo_three _ eq_refl
              (fun a g => demo_parseG_unbound demo_three a g eq_refl) ltac:(lia) Hrun)
    as (g & Hsel & Hid & _).
  exists g. split; [exact Hrun|]. split; [exact Hsel|exact Hid].
Defined.

Lemma SwitchGoroutine_failure_witness :
  exists p' : Process World,
    SwitchGoroutine 5 demo_three =
      Done (Err (Errorf "Unknown goroutine %d" [ArgInt 5])) p' /\
    CurrentThread p' = CurrentThread demo_three /\
    SelectedGoroutine p' = SelectedGoroutine demo_three.
Proof.
  eexists.
  assert (Hrun : SwitchGoroutine 5 demo_three =
                 Done (Err (Errorf "Unknown goroutine %d" [ArgInt 5])) _)
    by (vm_compute; reflexivity).
  split; [exact Hrun|].
  destruct (SwitchGoroutine_failure 5 demo_three _ _ Hrun) as (HC & HS & _).
  split; [exact HC|exact HS].
Defined.

Lemma ConvertEvalScope_frames_witness :
  exists p2 : Process World,
    ConvertEvalScope 9 0 demo_three =
      Done (Err (Errorf "Frame %d does not exist in goroutine %d" [ArgInt 0; ArgInt 9])) p2.
Proof.
  eexists.
  assert (Hfind : FindGoroutine 9 demo_three = Done (Ok (Some (demo_g 9 4 None))) _)
    by (vm_compute; reflexivity).
  match type of Hfind with
  | _ = Done _ ?p1 =>
      assert (Hstack : GoroutineStacktrace (demo_g 9 4 None) 0 p1 = Done (Ok []) p1)
        by reflexivity
  end.
  refine (proj1 (ConvertEvalScope_frames 9 0 demo_three _ _ _ [] Hfind Hstack) _).
  simpl. lia.
Defined.

Lemma handleBreakpointOnThread_accepts_witness :
  exists p1 th,
    handleBreakpointOnThread 1 demo_halted = Done (Ok 1) demo_halted /\
    SetCurrentBreakpoint 1 demo_halted = Done (Ok tt) p1 /\
    Threads p1 !! 1 = Some th.
Proof.
  assert (Hrun : handleBreakpointOnThread 1 demo_halted = Done (Ok 1) demo_halted)
    by (vm_compute; reflexivity).
  destruct (handleBreakpointOnThread_accepts 1 1 demo_halted demo_halted Hrun)
    as (_ & _ & p1 & th & Hset & Hth & _).
  exists p1, th. split; [exact Hrun|]. split; [exact Hset|exact Hth].
Defined.

Lemma FindFunctionLocation_runs_on_witness :
  FindFunctionLocation 2 "main.main" true 0 = None.
Proof.
  refine (FindFunctionLocation_runs_on "main.main" demo_main "main.go" 10
            (Some demo_main) 2 _ _ _ _ 2%nat 0 _).
  - reflexivity.
  - reflexivity.
  - reflexivity.
  - intros j Hj. assert (Hcases : j = 1%nat \/ j = 2%nat) by lia.
    destruct Hcases as [-> | ->]; vm_compute; auto.
    split; [discriminate|reflexivity].
  - lia.
Defined.

Lemma getGoInformation_linker_witness :
  getGoInformation (Ok {| Unreadable := None; Value := "go1.5"%string |})
    [demo_unit "Go cmd/compile go1.5"; (None, Some (OtherError 7));
     demo_unit "GNU AS 2.25"] = (5, false, None).
Proof.
  refine (proj1 (proj2 (proj2 (getGoInformation_linker
            {| Unreadable := None; Value := "go1.5"%string |} 5
            [demo_unit "Go cmd/compile go1.5"] [demo_unit "GNU AS 2.25"] _ _ _)))
            (Some (OtherError 7))).
  - reflexivity.
  - reflexivity.
  - constructor; [|constructor]. eexists. split; [reflexivity|]. reflexivity.
Defined.

Lemma getGoInformation_isextld_witness :
  exists (i : nat) (entry : DwarfEntry) (prod : string),
    getGoInformation (Ok {| Unreadable := None; Value := "go1.6"%string |})
      [demo_unit "Go cmd/compile go1.6"; demo_unit "GNU AS 2.25"] = (6, true, None) /\
    [demo_unit "Go cmd/compile go1.6"; demo_unit "GNU AS 2.25"] !! i =
      Some (Some entry, None) /\
    AttrProducer entry = Some prod /\
    String.prefix "GNU AS" prod = true.
Proof.
  assert (Hrun : getGoInformation (Ok {| Unreadable := None; Value := "go1.6"%string |})
                   [demo_unit "Go cmd/compile go1.6"; demo_unit "GNU AS 2.25"] =
                 (6, true, None)) by reflexivity.
  destruct (getGoInformation_isextld _ _ _ _ Hrun) as (_ & i & entry & prod & Hi & Hp & Hg & _).
  exists i, entry, prod. split; [exact Hrun|]. split; [exact Hi|]. split; [exact Hp|exact Hg].
Defined.
